(** * PANOLENS.Viewer: pointer hit-testing, control switching, scene
      transitions and the frame driver

    A shallow embedding of [src/viewer/Viewer.js].  The viewer object is a
    record of the fields the methods read and write; every method is a
    computation in a small state / effect-log / exception monad, so that a
    method that throws half way keeps the assignments it made before, as
    in JavaScript.  Calls into collaborators (event dispatch on scene
    objects, lifecycle hooks, TWEEN, the VR manager, the DOM) are logged
    as effects in the order in which the code makes them.  The results of
    the ray casts, which the scene graph computes, are inputs of the
    pointer handlers. *)

From stdpp Require Import list strings.
From Stdlib Require Import ZArith Lia.

Local Open Scope Z_scope.

(** ** Data model *)

(** A THREE.Vector3.  Coordinates are JavaScript numbers; they are
    modelled as integers, the only arithmetic on them being [+ 1]. *)
Record Vector3 := mkVector3 { vx : Z; vy : Z; vz : Z }.

(** What an object that is [instanceof PANOLENS.Infospot] may carry:
    the [onHover] and [onClick] methods are each probed before use. *)
Record InfospotHandlers := mkInfospot { onHover : bool; onClick : bool }.

(** A scene object as the hit-test sees it.  [oid] stands for the object's
    identity: [===] on objects is comparison of [oid]; the other fields are
    the properties as read at the time of the ray cast.  [dispatchEvent] says
    whether the object has that method, [infospot] whether it is an
    Infospot, [entity] is the logical entity a primitive belongs to. *)
#[warnings="-register-all"]
Inductive Object3D := mkObject3D {
  oid : nat;
  passThrough : bool;
  dispatchEvent : bool;
  infospot : option InfospotHandlers;
  entity : option Object3D
}.

(** An entry of the array a THREE.Raycaster returns, nearest first.  The
    raycaster always fills [object]; distance and hit point are not read
    by the handlers (outside the DEBUG log). *)
Record Intersection := mkIntersection { object : Object3D }.

Record Touch := mkTouch { touch_clientX : Z; touch_clientY : Z }.

(** A mouse or touch event, or the object literal [onMouseUp] builds for a
    touch release.  A field that is [undefined] is [None]; [target] is the
    class list of the target element. *)
Record PointerEvent := mkPointerEvent {
  clientX : option Z;
  clientY : option Z;
  touches : option (list Touch);
  changedTouches : option (list Touch);
  target : option (list string)
}.

(** A panorama, or any object handed to [setPanorama]. *)
Record Panorama := mkPanorama {
  pano_id : nat;
  pano_type : string;
  position : Vector3
}.

(** A camera control scheme of [this.controls]. *)
Record Control := mkControl { name : string; enabled : bool }.

Inductive MouseType := mousedown | mousemove | mouseup | none | unset.

Record UserMouse := mkUserMouse {
  mouse_x : Z;
  mouse_y : Z;
  mouse_type : MouseType
}.

Record Options := mkOptions {
  autoHideControlBar : bool;
  autoHideInfospot : bool;
  clickTolerance : Z
}.

(** WebVRManager.Modes of the webvr-boilerplate library. *)
Inductive Modes := UNKNOWN | NORMAL | MAGIC_WINDOW | VR.

(** The WebVRManager instance.  The library keeps its current mode in the
    property [mode], which [toggleVR] reads; [render] reads a property
    spelled [Mode], which is a different property and which the library
    does not define ([None]). *)
Record WebVRManager := mkWebVRManager {
  mode : Modes;
  Mode : option Modes
}.

(** The viewer.  [control] is a reference to an element of [controls],
    kept as its index ([None] is [undefined]); [OrbitControls_target] is
    [this.OrbitControls.target]; the update callbacks are known by a
    number each. *)
Record Viewer := mkViewer {
  options : Options;
  camera_position : Vector3;
  OrbitControls_target : Vector3;
  controls : list Control;
  control : option nat;
  panorama : option Panorama;
  hoverObject : option Object3D;
  hoveringObject : option Object3D;
  pressEntityObject : option Object3D;
  pressObject : option Object3D;
  userMouse : UserMouse;
  updateCallbacks : list nat;
  VRManager : WebVRManager;
  cursor : string;
  DEBUG : bool
}.

(** Calls the viewer makes on its collaborators. *)
Inductive Effect :=
| Dispatch (on : Object3D) (type : string) (mouseEvent : PointerEvent)
| PanoramaDispatch (on : Panorama) (type : string)
    (intersects : list Intersection) (mouseEvent : PointerEvent)
| OnLeave (p : Panorama)
| OnEnter (p : Panorama)
| ToggleChildrenVisibility (p : Panorama)
| PreventDefault
| OnHover (on : Object3D) (x y : option Z)
| OnHoverEnd (on : Object3D)
| OnClick (on : Object3D)
| ConsoleInfo
| TweenUpdate
| UpdateCallback (fn : nat)
| ControlUpdate (index : nat)
| VRControlsUpdate
| VRManagerRender
| VRClick
| BackClick
| RequestAnimationFrame.

Inductive JsError := TypeError | ReferenceError.

Inductive completion (A : Type) :=
| Normal (a : A)
| Throw (e : JsError).
Arguments Normal {A} a.
Arguments Throw {A} e.

(** ** The monad of viewer methods *)

Record Outcome (A : Type) := mkOutcome {
  result : completion A;
  final : Viewer;
  effects : list Effect
}.
Arguments mkOutcome {A}.
Arguments result {A}.
Arguments final {A}.
Arguments effects {A}.

Definition M (A : Type) := Viewer -> Outcome A.

Definition ret {A} (a : A) : M A := fun s => mkOutcome (Normal a) s [].

Definition bind {A B} (m : M A) (k : A -> M B) : M B := fun s =>
  match m s with
  | mkOutcome (Normal a) s1 effects1 =>
      match k a s1 with
      | mkOutcome r s2 effects2 => mkOutcome r s2 (effects1 ++ effects2)
      end
  | mkOutcome (Throw e) s1 effects1 => mkOutcome (Throw e) s1 effects1
  end.

Definition throw {A} (e : JsError) : M A := fun s => mkOutcome (Throw e) s [].
Definition get : M Viewer := fun s => mkOutcome (Normal s) s [].
Definition modify (f : Viewer -> Viewer) : M unit :=
  fun s => mkOutcome (Normal tt) (f s) [].
Definition emit (e : Effect) : M unit := fun s => mkOutcome (Normal tt) s [e].
Definition when (b : bool) (m : M unit) : M unit := if b then m else ret tt.

Notation "x <- m ;; k" := (bind m (fun x => k))
  (at level 100, m at next level, right associativity).
Notation "m ;; k" := (bind m (fun _ => k))
  (at level 100, right associativity).

(** ** Field assignments *)

Definition set_camera_position (v : Vector3) (s : Viewer) : Viewer :=
  mkViewer (options s) v (OrbitControls_target s) (controls s) (control s)
    (panorama s) (hoverObject s) (hoveringObject s) (pressEntityObject s)
    (pressObject s) (userMouse s) (updateCallbacks s) (VRManager s)
    (cursor s) (DEBUG s).

Definition set_OrbitControls_target (v : Vector3) (s : Viewer) : Viewer :=
  mkViewer (options s) (camera_position s) v (controls s) (control s)
    (panorama s) (hoverObject s) (hoveringObject s) (pressEntityObject s)
    (pressObject s) (userMouse s) (updateCallbacks s) (VRManager s)
    (cursor s) (DEBUG s).

Definition set_controls (l : list Control) (s : Viewer) : Viewer :=
  mkViewer (options s) (camera_position s) (OrbitControls_target s) l
    (control s) (panorama s) (hoverObject s) (hoveringObject s)
    (pressEntityObject s) (pressObject s) (userMouse s) (updateCallbacks s)
    (VRManager s) (cursor s) (DEBUG s).

Definition set_control (c : option nat) (s : Viewer) : Viewer :=
  mkViewer (options s) (camera_position s) (OrbitControls_target s)
    (controls s) c (panorama s) (hoverObject s) (hoveringObject s)
    (pressEntityObject s) (pressObject s) (userMouse s) (updateCallbacks s)
    (VRManager s) (cursor s) (DEBUG s).

Definition set_panorama (p : option Panorama) (s : Viewer) : Viewer :=
  mkViewer (options s) (camera_position s) (OrbitControls_target s)
    (controls s) (control s) p (hoverObject s) (hoveringObject s)
    (pressEntityObject s) (pressObject s) (userMouse s) (updateCallbacks s)
    (VRManager s) (cursor s) (DEBUG s).

Definition set_hoverObject (o : option Object3D) (s : Viewer) : Viewer :=
  mkViewer (options s) (camera_position s) (OrbitControls_target s)
    (controls s) (control s) (panorama s) o (hoveringObject s)
    (pressEntityObject s) (pressObject s) (userMouse s) (updateCallbacks s)
    (VRManager s) (cursor s) (DEBUG s).

Definition set_hoveringObject (o : option Object3D) (s : Viewer) : Viewer :=
  mkViewer (options s) (camera_position s) (OrbitControls_target s)
    (controls s) (control s) (panorama s) (hoverObject s) o
    (pressEntityObject s) (pressObject s) (userMouse s) (updateCallbacks s)
    (VRManager s) (cursor s) (DEBUG s).

Definition set_pressEntityObject (o : option Object3D) (s : Viewer) : Viewer :=
  mkViewer (options s) (camera_position s) (OrbitControls_target s)
    (controls s) (control s) (panorama s) (hoverObject s) (hoveringObject s)
    o (pressObject s) (userMouse s) (updateCallbacks s) (VRManager s)
    (cursor s) (DEBUG s).

Definition set_pressObject (o : option Object3D) (s : Viewer) : Viewer :=
  mkViewer (options s) (camera_position s) (OrbitControls_target s)
    (controls s) (control s) (panorama s) (hoverObject s) (hoveringObject s)
    (pressEntityObject s) o (userMouse s) (updateCallbacks s) (VRManager s)
    (cursor s) (DEBUG s).

Definition set_userMouse (u : UserMouse) (s : Viewer) : Viewer :=
  mkViewer (options s) (camera_position s) (OrbitControls_target s)
    (controls s) (control s) (panorama s) (hoverObject s) (hoveringObject s)
    (pressEntityObject s) (pressObject s) u (updateCallbacks s) (VRManager s)
    (cursor s) (DEBUG s).

Definition set_updateCallbacks (l : list nat) (s : Viewer) : Viewer :=
  mkViewer (options s) (camera_position s) (OrbitControls_target s)
    (controls s) (control s) (panorama s) (hoverObject s) (hoveringObject s)
    (pressEntityObject s) (pressObject s) (userMouse s) l (VRManager s)
    (cursor s) (DEBUG s).

Definition set_cursor (c : string) (s : Viewer) : Viewer :=
  mkViewer (options s) (camera_position s) (OrbitControls_target s)
    (controls s) (control s) (panorama s) (hoverObject s) (hoveringObject s)
    (pressEntityObject s) (pressObject s) (userMouse s) (updateCallbacks s)
    (VRManager s) c (DEBUG s).

Definition set_DEBUG (b : bool) (s : Viewer) : Viewer :=
  mkViewer (options s) (camera_position s) (OrbitControls_target s)
    (controls s) (control s) (panorama s) (hoverObject s) (hoveringObject s)
    (pressEntityObject s) (pressObject s) (userMouse s) (updateCallbacks s)
    (VRManager s) (cursor s) b.

Definition set_mouse_x (x : Z) (u : UserMouse) : UserMouse :=
  mkUserMouse x (mouse_y u) (mouse_type u).
Definition set_mouse_y (y : Z) (u : UserMouse) : UserMouse :=
  mkUserMouse (mouse_x u) y (mouse_type u).
Definition set_mouse_type (t : MouseType) (u : UserMouse) : UserMouse :=
  mkUserMouse (mouse_x u) (mouse_y u) t.

(** ** Object identity *)

(** [a === b] on two objects. *)
Definition same_object (a b : Object3D) : bool := Nat.eqb (oid a) (oid b).

(** [a === b] where either side may be [undefined]. *)
Definition same_ref (a b : option Object3D) : bool :=
  match a, b with
  | Some x, Some y => same_object x y
  | None, None => true
  | _, _ => false
  end.

Definition truthy (o : option Object3D) : bool :=
  match o with Some _ => true | None => false end.

(** ** getConvertedIntersect *)

(** The [for] loop with its [continue] and [break]: the recursive call is
    the next iteration. *)
Fixpoint getConvertedIntersect (intersects : list Intersection)
  : option Object3D :=
  match intersects with
  | [] => None
  | i :: rest =>
      if negb (passThrough (object i)) then
        match entity (object i) with
        | Some e =>
            if passThrough e then getConvertedIntersect rest
            else Some e
        | None => Some (object i)
        end
      else getConvertedIntersect rest
  end.

(** ** hideHoveringObject *)

Definition hideHoveringObject : M unit :=
  s <- get ;;
  match hoveringObject s with
  | Some o => emit (OnHoverEnd o) ;; modify (set_hoveringObject None)
  | None => ret tt
  end.

(** ** onTap *)

(** The second argument of [onTap]: ['click'] or [undefined]. *)
Inductive TapType := click.

Definition is_click (type : option TapType) : bool :=
  match type with Some click => true | None => false end.

(** What the two ray casts of [onTap] return: [intersectObject] on the
    panorama (DEBUG only) and [intersectObjects] on its children. *)
Record RayCast := mkRayCast {
  panorama_hits : list Intersection;
  children_hits : list Intersection
}.

Definition nonempty {A} (l : list A) : bool :=
  match l with [] => false | _ :: _ => true end.

Definition is_mouse_type (t : MouseType) (s : Viewer) : bool :=
  match mouse_type (userMouse s), t with
  | mousedown, mousedown | mousemove, mousemove | mouseup, mouseup
  | none, none | unset, unset => true
  | _, _ => false
  end.

(** [if ( o.dispatchEvent ) { o.dispatchEvent( { type: ... } ) }] *)
Definition fire (o : Object3D) (type : string) (event : PointerEvent)
  : M unit :=
  when (dispatchEvent o) (emit (Dispatch o type event)).

(** Lines 530-540: on [mouseup], [pressstop-entity] when the resolved
    entity is the pressed one, then the press entity is forgotten. *)
Definition release_pressEntityObject (event : PointerEvent)
    (intersect_entity : option Object3D) : M unit :=
  s <- get ;;
  when (is_mouse_type mouseup s)
    (match intersect_entity, pressEntityObject s with
     | Some ie, Some pe =>
         when (same_object pe ie && dispatchEvent pe)
           (emit (Dispatch pe "pressstop-entity" event))
     | _, _ => ret tt
     end ;;
     modify (set_pressEntityObject None)).

(** Lines 542-552: the same for the pressed primitive. *)
Definition release_pressObject (event : PointerEvent)
    (intersect : option Object3D) : M unit :=
  s <- get ;;
  when (is_mouse_type mouseup s)
    (match intersect, pressObject s with
     | Some i, Some p =>
         when (same_object p i && dispatchEvent p)
           (emit (Dispatch p "pressstop" event))
     | _, _ => ret tt
     end ;;
     modify (set_pressObject None)).

(** Lines 556-568: the [click] branch. *)
Definition dispatch_click (pano : Panorama) (event : PointerEvent)
    (intersects : list Intersection)
    (intersect_entity intersect : option Object3D) : M unit :=
  emit (PanoramaDispatch pano "click" intersects event) ;;
  match intersect_entity with
  | Some ie => fire ie "click-entity" event
  | None => ret tt
  end ;;
  match intersect with
  | Some i => fire i "click" event
  | None => ret tt
  end.

(** Lines 574-585: leaving the hovered object. *)
Definition leave_hoverObject (event : PointerEvent)
    (intersects : list Intersection) (intersect_entity : option Object3D)
  : M unit :=
  s <- get ;;
  when ((truthy (hoverObject s) && nonempty intersects
           && negb (same_ref (hoverObject s) intersect_entity))
        || (truthy (hoverObject s) && negb (nonempty intersects)))
    (match hoverObject s with
     | Some h => fire h "hoverleave" event
     | None => ret tt
     end ;;
     modify (set_hoverObject None)).

(** Lines 589-599: entering the resolved entity. *)
Definition enter_hoverObject (event : PointerEvent) (ie : Object3D)
  : M unit :=
  s <- get ;;
  when (negb (same_ref (hoverObject s) (Some ie)))
    (modify (set_hoverObject (Some ie)) ;;
     fire ie "hoverenter" event).

(** Lines 601-623: press start on the entity, then on the primitive. *)
Definition start_press (event : PointerEvent) (ie : Object3D)
    (intersect : option Object3D) : M unit :=
  s <- get ;;
  when (is_mouse_type mousedown s
        && negb (same_ref (pressEntityObject s) (Some ie)))
    (modify (set_pressEntityObject (Some ie)) ;;
     fire ie "pressstart-entity" event) ;;
  s <- get ;;
  when (is_mouse_type mousedown s
        && negb (same_ref (pressObject s) intersect))
    (modify (set_pressObject intersect) ;;
     match intersect with
     | Some i => fire i "pressstart" event
     | None => throw TypeError
     end).

(** Lines 625-643: press move on the tracked entity and primitive. *)
Definition move_press (event : PointerEvent) : M unit :=
  s <- get ;;
  when (is_mouse_type mousemove s)
    (match pressEntityObject s with
     | Some pe => fire pe "pressmove-entity" event
     | None => ret tt
     end) ;;
  when (is_mouse_type mousemove s)
    (match pressObject s with
     | Some p => fire p "pressmove" event
     | None => ret tt
     end).

(** Lines 572-645: the branch taken when the gesture is not a click. *)
Definition dispatch_hover (pano : Panorama) (event : PointerEvent)
    (intersects : list Intersection)
    (intersect_entity intersect : option Object3D) : M unit :=
  emit (PanoramaDispatch pano "hover" intersects event) ;;
  leave_hoverObject event intersects intersect_entity ;;
  match intersect_entity with
  | Some ie =>
      when (nonempty intersects)
        (enter_hoverObject event ie ;;
         start_press event ie intersect ;;
         move_press event)
  | None => ret tt
  end.

(** Lines 649-677: the infospot under the pointer; the result is the
    truth value of what [onTap] returns. *)
Definition hover_infospot (event : PointerEvent) (type : option TapType)
    (intersects : list Intersection) : M bool :=
  let otherwise :=
    modify (set_cursor "default") ;; hideHoveringObject ;; ret false in
  match intersects with
  | i0 :: _ =>
      match infospot (object i0) with
      | Some h =>
          when (onHover h)
            (modify (set_hoveringObject (Some (object i0))) ;;
             modify (set_cursor "pointer") ;;
             emit (OnHover (object i0) (clientX event) (clientY event))) ;;
          if is_click type && onClick h
          then emit (OnClick (object i0)) ;; ret true
          else ret false
      | None => otherwise
      end
  | [] => otherwise
  end.

(** [onTap].  Setting the ray from the pointer position reads the camera
    and writes only the raycaster; what the ray hits is [rc]. *)
Definition onTap (event : PointerEvent) (type : option TapType)
    (rc : RayCast) : M bool :=
  s <- get ;;
  match panorama s with
  | None => ret false
  | Some pano =>
      when (DEBUG s && nonempty (panorama_hits rc)) (emit ConsoleInfo) ;;
      let intersects := children_hits rc in
      let intersect_entity := getConvertedIntersect intersects in
      let intersect := object <$> head intersects in
      release_pressEntityObject event intersect_entity ;;
      release_pressObject event intersect ;;
      (if is_click type
       then dispatch_click pano event intersects intersect_entity intersect
       else dispatch_hover pano event intersects intersect_entity intersect) ;;
      hover_infospot event type intersects
  end.

(** ** onMouseDown, onMouseMove, onMouseUp *)

(** [( event.clientX ) ? event.clientX : event.touches[0].clientX] *)
Definition down_coordinate (c : option Z) (ts : option (list Touch))
    (of_touch : Touch -> Z) : M Z :=
  match c with
  | Some v =>
      if negb (v =? 0) then ret v
      else match ts with
           | Some (t :: _) => ret (of_touch t)
           | _ => throw TypeError
           end
  | None =>
      match ts with
      | Some (t :: _) => ret (of_touch t)
      | _ => throw TypeError
      end
  end.

Definition onMouseDown (event : PointerEvent) (rc : RayCast) : M unit :=
  emit PreventDefault ;;
  x <- down_coordinate (clientX event) (touches event) touch_clientX ;;
  modify (fun s => set_userMouse (set_mouse_x x (userMouse s)) s) ;;
  y <- down_coordinate (clientY event) (touches event) touch_clientY ;;
  modify (fun s => set_userMouse (set_mouse_y y (userMouse s)) s) ;;
  modify (fun s => set_userMouse (set_mouse_type mousedown (userMouse s)) s) ;;
  _ <- onTap event None rc ;;
  ret tt.

Definition onMouseMove (event : PointerEvent) (rc : RayCast) : M unit :=
  emit PreventDefault ;;
  modify (fun s => set_userMouse (set_mouse_type mousemove (userMouse s)) s) ;;
  _ <- onTap event None rc ;;
  ret tt.

(** [u >= c - tol] and [u <= c + tol] with [c] possibly [undefined]: the
    right-hand side is then NaN and the comparison false. *)
Definition ge_minus (u : Z) (c : option Z) (tol : Z) : bool :=
  match c with Some c => u >=? c - tol | None => false end.
Definition le_plus (u : Z) (c : option Z) (tol : Z) : bool :=
  match c with Some c => u <=? c + tol | None => false end.

(** Lines 448-457: the value given to [type]; reading [changedTouches[0]]
    of an empty list throws. *)
Definition click_type (u : UserMouse) (tol : Z) (event : PointerEvent)
  : completion (option TapType) :=
  if ge_minus (mouse_x u) (clientX event) tol
     && le_plus (mouse_x u) (clientX event) tol
     && ge_minus (mouse_y u) (clientY event) tol
     && le_plus (mouse_y u) (clientY event) tol
  then Normal (Some click)
  else
    match changedTouches event with
    | None => Normal None
    | Some [] => Throw TypeError
    | Some (t :: _) =>
        if ge_minus (mouse_x u) (Some (touch_clientX t)) tol
           && le_plus (mouse_x u) (Some (touch_clientX t)) tol
           && ge_minus (mouse_y u) (Some (touch_clientY t)) tol
           && le_plus (mouse_y u) (Some (touch_clientY t)) tol
        then Normal (Some click)
        else Normal None
    end.

(** [event.target && !event.target.classList.contains( 'panolens-canvas' )] *)
Definition off_canvas (event : PointerEvent) : bool :=
  match target event with
  | Some classList => negb (existsb (String.eqb "panolens-canvas") classList)
  | None => false
  end.

Definition onMouseUp (event : PointerEvent) (rc : RayCast) : M unit :=
  modify (fun s => set_userMouse (set_mouse_type mouseup (userMouse s)) s) ;;
  s <- get ;;
  type <- (match click_type (userMouse s) (clickTolerance (options s)) event
           with
           | Normal t => ret t
           | Throw e => throw e
           end) ;;
  if off_canvas event then ret tt
  else
    emit PreventDefault ;;
    onTarget <-
      (match changedTouches event with
       | Some [t] =>
           onTap (mkPointerEvent (Some (touch_clientX t))
                    (Some (touch_clientY t)) None None None) type rc
       | _ => onTap event type rc
       end) ;;
    modify (fun s => set_userMouse (set_mouse_type none (userMouse s)) s) ;;
    if onTarget : bool then ret tt
    else
      when (is_click type)
        (s <- get ;;
         when (autoHideInfospot (options s))
           (match panorama s with
            | Some p => emit (ToggleChildrenVisibility p)
            | None => ret tt
            end) ;;
         (* [toggleControlBar] is not a name in scope of the handler *)
         if autoHideControlBar (options s) then throw ReferenceError
         else ret tt).

(** ** setPanorama and setCameraControl *)

Definition setPanorama (pano : Panorama) : M unit :=
  if String.eqb (pano_type pano) "panorama" then
    s <- get ;;
    match panorama s with
    | Some current => emit (OnLeave current)
    | None => ret tt
    end ;;
    modify (set_panorama (Some pano)) ;;
    emit (OnEnter pano)
  else ret tt.

(** [v.z += 1] *)
Definition z_plus_1 (v : Vector3) : Vector3 :=
  mkVector3 (vx v) (vy v) (vz v + 1).

(** The listener of a panorama's [enter-start] event. *)
Definition setCameraControl : M unit :=
  s <- get ;;
  match panorama s with
  | None => throw TypeError
  | Some pano =>
      modify (set_camera_position (position pano)) ;;
      modify (fun s => set_camera_position (z_plus_1 (camera_position s)) s) ;;
      modify (set_OrbitControls_target (position pano))
  end.

(** ** Control schemes *)

Definition set_enabled (b : bool) (c : Control) : Control :=
  mkControl (name c) b.

(** [this.controls.indexOf( this.control )], which is [-1] when the
    control is not in the list. *)
Definition indexOf_control (s : Viewer) : Z :=
  match control s with
  | Some i => Z.of_nat i
  | None => -1
  end.

Definition getNextControlIndex (s : Viewer) : Z :=
  if indexOf_control s + 1 >=? Z.of_nat (length (controls s)) then 0
  else indexOf_control s + 1.

Definition enableControl (index : Z) : M unit :=
  s <- get ;;
  let index :=
    if (index >=? 0) && (index <? Z.of_nat (length (controls s)))
    then index else 0 in
  let i := Z.to_nat index in
  (* this.control.enabled = false *)
  match control s with
  | Some c => modify (set_controls (alter (set_enabled false) c (controls s)))
  | None => throw TypeError
  end ;;
  (* this.control = this.controls[ index ] *)
  modify (set_control (if controls s !! i is Some _ then Some i else None)) ;;
  (* this.control.enabled = true *)
  s <- get ;;
  match controls s !! i with
  | None => throw TypeError
  | Some c =>
      modify (set_controls (alter (set_enabled true) i (controls s))) ;;
      if String.eqb (name c) "orbit" then
        match panorama s with
        | None => throw TypeError
        | Some pano =>
            modify (set_camera_position (position pano)) ;;
            modify (fun s =>
                      set_camera_position (z_plus_1 (camera_position s)) s)
        end
      else if String.eqb (name c) "device-orientation" then
        match panorama s with
        | None => throw TypeError
        | Some pano => modify (set_camera_position (position pano))
        end
      else ret tt
  end.

Definition toggleNextControl : M unit :=
  s <- get ;;
  enableControl (getNextControlIndex s).

(** ** Update callbacks and the frame *)

Definition addUpdateCallback (fn : option nat) : M unit :=
  match fn with
  | Some f => modify (fun s => set_updateCallbacks (updateCallbacks s ++ [f]) s)
  | None => ret tt
  end.

(** [splice( index, 1 )] at the first occurrence. *)
Fixpoint remove_first (f : nat) (l : list nat) : list nat :=
  match l with
  | [] => []
  | g :: rest => if Nat.eqb g f then rest else g :: remove_first f rest
  end.

Definition removeUpdateCallback (fn : option nat) : M unit :=
  match fn with
  | Some f => modify (fun s =>
                set_updateCallbacks (remove_first f (updateCallbacks s)) s)
  | None => ret tt
  end.

Fixpoint forEach (l : list nat) (f : nat -> M unit) : M unit :=
  match l with
  | [] => ret tt
  | x :: rest => f x ;; forEach rest f
  end.

(** [this.VRManager.Mode === WebVRManager.Modes.VR] *)
Definition Mode_is_VR (m : WebVRManager) : bool :=
  match Mode m with
  | Some VR => true
  | _ => false
  end.

(** [this.VRManager.mode !== WebVRManager.Modes.VR] *)
Definition mode_is_VR (m : WebVRManager) : bool :=
  match mode m with
  | VR => true
  | _ => false
  end.

(** [this.VRManager] and [this.VRControls] are built by the constructor
    and never reassigned, so the guards on them hold. *)
Definition render : M unit :=
  emit TweenUpdate ;;
  s <- get ;;
  forEach (updateCallbacks s) (fun callback => emit (UpdateCallback callback)) ;;
  match control s with
  | Some c => emit (ControlUpdate c)
  | None => ret tt
  end ;;
  when (Mode_is_VR (VRManager s)) (emit VRControlsUpdate) ;;
  emit VRManagerRender.

Definition animate : M unit :=
  emit RequestAnimationFrame ;;
  render.

Definition toggleVR : M unit :=
  s <- get ;;
  if negb (mode_is_VR (VRManager s)) then emit VRClick else emit BackClick.

(** ** onKeyDown and onKeyUp *)

Definition onKeyDown (keyCode : Z) (keyIdentifier : string) : M unit :=
  when ((keyCode =? 17) || String.eqb keyIdentifier "Control")
    (modify (set_DEBUG true)).

Definition onKeyUp : M unit := modify (set_DEBUG false).

(** ** The constructor *)

(** The options a caller may pass; [None] is an option left out. *)
Record UserOptions := mkUserOptions {
  user_autoHideControlBar : option bool;
  user_autoHideInfospot : option bool;
  user_clickTolerance : option Z
}.

(** [options.clickTolerance || 10]: zero is falsy. *)
Definition or_default (o : option Z) (d : Z) : Z :=
  match o with
  | Some v => if v =? 0 then d else v
  | None => d
  end.

Definition defined_or {A} (o : option A) (d : A) : A :=
  match o with Some v => v | None => d end.

(** The viewer as the constructor leaves it: camera and orbit target at
    the origin, the two schemes of [this.controls] with orbit active, no
    panorama, the VR manager in its normal mode. *)
Definition PANOLENS_Viewer (o : UserOptions) : Viewer :=
  mkViewer
    (mkOptions (defined_or (user_autoHideControlBar o) false)
               (defined_or (user_autoHideInfospot o) true)
               (or_default (user_clickTolerance o) 10))
    (mkVector3 0 0 0) (mkVector3 0 0 0)
    [mkControl "orbit" true; mkControl "device-orientation" true]
    (Some 0%nat) None None None None None
    (mkUserMouse 0 0 unset) [] (mkWebVRManager NORMAL None) "" false.

(** ** The viewer driven by its environment *)

(** What can happen to a viewer: the DOM delivers pointer events (with the
    ray casts the scene answers) and key events, the application calls the
    public methods, a panorama announces [enter-start], the browser runs a
    frame, the VR manager changes its mode. *)
Inductive Input :=
| MouseDown (event : PointerEvent) (rc : RayCast)
| MouseMove (event : PointerEvent) (rc : RayCast)
| MouseUp (event : PointerEvent) (rc : RayCast)
| SetPanorama (pano : Panorama)
| EnterStart
| EnableControl (index : Z)
| ToggleNextControl
| AddUpdateCallback (fn : option nat)
| RemoveUpdateCallback (fn : option nat)
| ToggleVR
| VRModeChanged (m : Modes)
| KeyDown (keyCode : Z) (keyIdentifier : string)
| KeyUp
| Frame.

Definition set_VRManager (m : WebVRManager) (s : Viewer) : Viewer :=
  mkViewer (options s) (camera_position s) (OrbitControls_target s)
    (controls s) (control s) (panorama s) (hoverObject s) (hoveringObject s)
    (pressEntityObject s) (pressObject s) (userMouse s) (updateCallbacks s)
    m (cursor s) (DEBUG s).

Definition handle (i : Input) : M unit :=
  match i with
  | MouseDown event rc => onMouseDown event rc
  | MouseMove event rc => onMouseMove event rc
  | MouseUp event rc => onMouseUp event rc
  | SetPanorama pano => setPanorama pano
  | EnterStart => setCameraControl
  | EnableControl index => enableControl index
  | ToggleNextControl => toggleNextControl
  | AddUpdateCallback fn => addUpdateCallback fn
  | RemoveUpdateCallback fn => removeUpdateCallback fn
  | ToggleVR => toggleVR
  | VRModeChanged m =>
      modify (fun s => set_VRManager (mkWebVRManager m (Mode (VRManager s))) s)
  | KeyDown keyCode keyIdentifier => onKeyDown keyCode keyIdentifier
  | KeyUp => onKeyUp
  | Frame => animate
  end.

(** An exception thrown by a listener or a frame callback ends that call
    only: the host reports it and goes on with the next input, the viewer
    keeping the assignments made before the throw. *)
Definition step (s : Viewer) (i : Input) : Viewer := final (handle i s).

Definition run (inputs : list Input) (s : Viewer) : Viewer :=
  fold_left step inputs s.

(** The effects of a run, input after input. *)
Fixpoint run_effects (inputs : list Input) (s : Viewer) : list Effect :=
  match inputs with
  | [] => []
  | i :: rest => effects (handle i s) ++ run_effects rest (step s i)
  end.

(** * Properties *)

(** ** Entity resolution *)

(** The resolver as the specification words it, on the primitives of the
    intersections, nearest first: an intersection is skipped when its
    primitive is pass-through or belongs to a pass-through entity; the
    target of one that is not skipped is its entity, or the primitive
    itself when it has none; the first target is the answer. *)
Definition skipped (p : Object3D) : bool :=
  passThrough p
  || match entity p with Some e => passThrough e | None => false end.

Definition target_of (p : Object3D) : Object3D :=
  match entity p with Some e => e | None => p end.

Definition resolveEntity_spec (primitives : list Object3D)
  : option Object3D :=
  target_of <$> List.find (fun p => negb (skipped p)) primitives.

Lemma getConvertedIntersect_cons (i : Intersection) rest :
  getConvertedIntersect (i :: rest) =
  if skipped (object i) then getConvertedIntersect rest
  else Some (target_of (object i)).
Proof.
  unfold skipped, target_of. cbn [getConvertedIntersect].
  destruct (passThrough (object i)); cbn; [reflexivity|].
  destruct (entity (object i)) as [e|]; [|reflexivity].
  destruct (passThrough e); reflexivity.
Qed.

Lemma getConvertedIntersect_refines intersects :
  getConvertedIntersect intersects =
  resolveEntity_spec (map object intersects).
Proof.
  unfold resolveEntity_spec.
  induction intersects as [|i rest IH]; [reflexivity|].
  rewrite getConvertedIntersect_cons. cbn [map List.find].
  destruct (skipped (object i)); cbn; [exact IH | reflexivity].
Qed.

(** What the resolver returns is not pass-through. *)
Lemma getConvertedIntersect_opaque intersects t :
  getConvertedIntersect intersects = Some t -> passThrough t = false.
Proof.
  induction intersects as [|i rest IH]; [discriminate|].
  cbn [getConvertedIntersect].
  destruct (passThrough (object i)) eqn:Hp; cbn; [exact IH|].
  destruct (entity (object i)) as [e|] eqn:He.
  - destruct (passThrough e) eqn:Hpe; [exact IH|].
    intros [= <-]. exact Hpe.
  - intros [= <-]. exact Hp.
Qed.

(** A target is resolved only from a list that has an intersection. *)
Lemma getConvertedIntersect_nonempty intersects t :
  getConvertedIntersect intersects = Some t -> nonempty intersects = true.
Proof. destruct intersects; [discriminate | reflexivity]. Qed.

(** C2.  Entity resolution walks the intersections nearest first and
    returns the first target that is not skipped: it agrees with the
    specification's resolver on every list; a pass-through primitive is
    skipped, a primitive of a pass-through entity is skipped, a primitive
    that is not pass-through gives its entity when that is not pass-through
    and itself when it has no entity; the empty list and a list of skipped
    intersections give no target; a pass-through nearest primitive followed
    by an opaque primitive without entity gives the second primitive. *)
Theorem getConvertedIntersect_first_target (p p2 e : Object3D)
    (rest : list Intersection) :
  (forall intersects,
      getConvertedIntersect intersects =
      resolveEntity_spec (map object intersects))
  /\ getConvertedIntersect [] = None
  /\ (passThrough p = true ->
      getConvertedIntersect (mkIntersection p :: rest) =
      getConvertedIntersect rest)
  /\ (entity p = Some e -> passThrough e = true ->
      getConvertedIntersect (mkIntersection p :: rest) =
      getConvertedIntersect rest)
  /\ (passThrough p = false -> entity p = Some e -> passThrough e = false ->
      getConvertedIntersect (mkIntersection p :: rest) = Some e)
  /\ (passThrough p = false -> entity p = None ->
      getConvertedIntersect (mkIntersection p :: rest) = Some p)
  /\ (forallb (fun i => skipped (object i)) rest = true ->
      getConvertedIntersect rest = None)
  /\ (passThrough p = true -> passThrough p2 = false -> entity p2 = None ->
      getConvertedIntersect (mkIntersection p :: mkIntersection p2 :: rest)
      = Some p2).
Proof.
  split; [exact getConvertedIntersect_refines|].
  split; [reflexivity|].
  repeat split.
  - intros Hp. cbn. rewrite Hp. reflexivity.
  - intros He Hpe. cbn. rewrite He, Hpe.
    destruct (passThrough p); reflexivity.
  - intros Hp He Hpe. cbn. rewrite Hp, He, Hpe. reflexivity.
  - intros Hp He. cbn. rewrite Hp, He. reflexivity.
  - induction rest as [|i r IH]; [reflexivity|].
    cbn [forallb]. intros [Hi Hr]%andb_prop.
    rewrite getConvertedIntersect_cons, Hi. exact (IH Hr).
  - intros Hp Hp2 He2. cbn. rewrite Hp, Hp2, He2. reflexivity.
Qed.

(** ** Click classification *)

(** A mouse release at [(x1, y1)], and a touch release whose first changed
    touch is [t]: a touch event has no [clientX] and [clientY] of its own. *)
Definition mouse_release (x1 y1 : Z) (tgt : option (list string))
  : PointerEvent :=
  mkPointerEvent (Some x1) (Some y1) None None tgt.

Definition touch_release (t : Touch) (others remaining : list Touch)
    (tgt : option (list string)) : PointerEvent :=
  mkPointerEvent None None (Some remaining) (Some (t :: others)) tgt.

(** Both axes within the tolerance of the position of the press. *)
Definition within_tolerance (x0 y0 x1 y1 tol : Z) : bool :=
  (Z.abs (x1 - x0) <=? tol) && (Z.abs (y1 - y0) <=? tol).

Lemma box_within (u c tol : Z) :
  ge_minus u (Some c) tol && le_plus u (Some c) tol = (Z.abs (c - u) <=? tol).
Proof.
  unfold ge_minus, le_plus.
  destruct (Z.abs (c - u) <=? tol) eqn:H;
    [apply Z.leb_le in H | apply Z.leb_gt in H].
  - apply andb_true_intro; split; [apply Z.geb_le | apply Z.leb_le]; lia.
  - apply andb_false_iff.
    destruct (Z_lt_le_dec u (c - tol)) as [Hlt|Hge].
    + left. rewrite Z.geb_leb. apply Z.leb_gt. lia.
    + right. apply Z.leb_gt. lia.
Qed.

Lemma click_type_mouse_release x0 y0 mt tol x1 y1 tgt :
  click_type (mkUserMouse x0 y0 mt) tol (mouse_release x1 y1 tgt) =
  Normal (if within_tolerance x0 y0 x1 y1 tol then Some click else None).
Proof.
  unfold click_type, within_tolerance, mouse_release.
  cbn [mouse_x mouse_y clientX clientY changedTouches].
  rewrite <- andb_assoc, !box_within.
  destruct (_ && _); reflexivity.
Qed.

Lemma click_type_touch_release x0 y0 mt tol t others remaining tgt :
  click_type (mkUserMouse x0 y0 mt) tol (touch_release t others remaining tgt)
  = Normal (if within_tolerance x0 y0 (touch_clientX t) (touch_clientY t) tol
            then Some click else None).
Proof.
  unfold click_type, within_tolerance, touch_release.
  cbn [mouse_x mouse_y clientX clientY changedTouches].
  change (ge_minus x0 None tol) with false. cbn [andb].
  rewrite <- andb_assoc, !box_within.
  destruct (_ && _); reflexivity.
Qed.

Lemma within_tolerance_true x0 y0 x1 y1 tol :
  within_tolerance x0 y0 x1 y1 tol = true
  <-> Z.abs (x1 - x0) <= tol /\ Z.abs (y1 - y0) <= tol.
Proof.
  unfold within_tolerance. rewrite andb_true_iff, !Z.leb_le. reflexivity.
Qed.

Lemma classified_iff (b : bool) (P : Prop) :
  (b = true <-> P) ->
  (Normal (if b then Some click else None) = Normal (Some click) <-> P)
  /\ (Normal (if b then Some click else None) = Normal None <-> ~ P).
Proof.
  intros H. destruct b; split; split; try discriminate; try reflexivity.
  - intros _. apply H. reflexivity.
  - intros HP. exfalso. apply HP, H. reflexivity.
  - intros HP. apply H in HP. discriminate.
  - intros _ HP. apply H in HP. discriminate.
Qed.

(** The tolerance a viewer is built with: the one given, or 10 when none
    is given, and also when 0 is given, which [||] takes for missing. *)
Lemma clickTolerance_of_constructor hideBar hideSpot tol :
  clickTolerance (options (PANOLENS_Viewer (mkUserOptions hideBar hideSpot tol)))
  = match tol with
    | Some 0 | None => 10
    | Some given => given
    end.
Proof. destruct tol as [[| |]|]; reflexivity. Qed.

(** ** Reasoning about methods *)

(** [keeps I m]: the method [m] maintains [I], also when it throws. *)
Definition keeps {A} (I : Viewer -> Prop) (m : M A) : Prop :=
  forall s, I s -> I (final (m s)).

(** [emits P m]: every effect of [m] satisfies [P]. *)
Definition emits {A} (P : Effect -> Prop) (m : M A) : Prop :=
  forall s, Forall P (effects (m s)).

Section Rules.
Context {A B : Type} (m : M A) (k : A -> M B).

Lemma bind_Normal s a s1 effects1 :
  m s = mkOutcome (Normal a) s1 effects1 ->
  bind m k s =
  mkOutcome (result (k a s1)) (final (k a s1))
    (effects1 ++ effects (k a s1)).
Proof. unfold bind. intros ->. destruct (k a s1). reflexivity. Qed.

Lemma bind_Throw s e s1 effects1 :
  m s = mkOutcome (Throw e) s1 effects1 ->
  bind m k s = mkOutcome (Throw e) s1 effects1.
Proof. unfold bind. intros ->. reflexivity. Qed.

Lemma keeps_bind I :
  keeps I m -> (forall a, keeps I (k a)) -> keeps I (bind m k).
Proof.
  intros Hm Hk s Hs. unfold bind. specialize (Hm s Hs).
  destruct (m s) as [[a|e] s1 t1]; cbn in *; [|exact Hm].
  specialize (Hk a s1 Hm). destruct (k a s1). exact Hk.
Qed.

Lemma emits_bind P :
  emits P m -> (forall a, emits P (k a)) -> emits P (bind m k).
Proof.
  intros Hm Hk s. unfold bind. specialize (Hm s).
  destruct (m s) as [[a|e] s1 t1]; cbn in *; [|exact Hm].
  specialize (Hk a s1). destruct (k a s1).
  apply Forall_app; split; assumption.
Qed.
End Rules.

Lemma keeps_ret {A} I (a : A) : keeps I (ret a).
Proof. intros s Hs. exact Hs. Qed.

Lemma keeps_throw {A} I e : keeps I (@throw A e).
Proof. intros s Hs. exact Hs. Qed.

Lemma keeps_get I : keeps I get.
Proof. intros s Hs. exact Hs. Qed.

Lemma keeps_emit I e : keeps I (emit e).
Proof. intros s Hs. exact Hs. Qed.

Lemma keeps_modify (I : Viewer -> Prop) f :
  (forall s, I s -> I (f s)) -> keeps I (modify f).
Proof. intros H s Hs. apply H, Hs. Qed.

Lemma keeps_when I b m : keeps I m -> keeps I (when b m).
Proof. intros H. destruct b; [exact H | apply keeps_ret]. Qed.

Lemma keeps_fire I o type event : keeps I (fire o type event).
Proof. apply keeps_when, keeps_emit. Qed.

Lemma emits_ret {A} P (a : A) : emits P (ret a).
Proof. intros s. constructor. Qed.

Lemma emits_throw {A} P e : emits P (@throw A e).
Proof. intros s. constructor. Qed.

Lemma emits_get P : emits P get.
Proof. intros s. constructor. Qed.

Lemma emits_modify P f : emits P (modify f).
Proof. intros s. constructor. Qed.

Lemma emits_emit (P : Effect -> Prop) e : P e -> emits P (emit e).
Proof. intros H s. repeat constructor. exact H. Qed.

Lemma emits_when P b m : emits P m -> emits P (when b m).
Proof. intros H. destruct b; [exact H | apply emits_ret]. Qed.

(** One step of a proof that a method keeps an invariant or emits only
    some effects: the rule of the outermost construct, a case analysis
    where the method branches. *)
Ltac method_step :=
  match goal with
  | |- keeps _ (bind _ _) => apply keeps_bind; [|intros ?]
  | |- keeps _ (ret _) => apply keeps_ret
  | |- keeps _ (throw _) => apply keeps_throw
  | |- keeps _ get => apply keeps_get
  | |- keeps _ (emit _) => apply keeps_emit
  | |- keeps _ (fire _ _ _) => apply keeps_fire
  | |- keeps _ (when _ _) => apply keeps_when
  | |- keeps _ (modify _) => apply keeps_modify; intros ? ?
  | |- emits _ (bind _ _) => apply emits_bind; [|intros ?]
  | |- emits _ (ret _) => apply emits_ret
  | |- emits _ (throw _) => apply emits_throw
  | |- emits _ get => apply emits_get
  | |- emits _ (modify _) => apply emits_modify
  | |- emits _ (when _ _) => apply emits_when
  | |- emits _ (emit _) => apply emits_emit
  | |- keeps _ (match ?x with _ => _ end) => destruct x
  | |- emits _ (match ?x with _ => _ end) => destruct x
  | |- keeps _ (if ?x then _ else _) => destruct x
  | |- emits _ (if ?x then _ else _) => destruct x
  end.

(** ** Scene transition *)

(** C3.  [setPanorama] with a panorama runs the current panorama's
    [onLeave], when there is one, and then the new panorama's [onEnter],
    and nothing else, and the new panorama is the current one afterwards;
    with no current panorama only [onEnter] runs; with an object that is
    not a panorama nothing happens at all.  Two calls in a row from a
    viewer without panorama give enter, leave, enter. *)
Theorem setPanorama_leave_then_enter (s : Viewer) (p1 p2 : Panorama) :
  (pano_type p2 = "panorama" -> panorama s = Some p1 ->
   setPanorama p2 s =
   mkOutcome (Normal tt) (set_panorama (Some p2) s) [OnLeave p1; OnEnter p2])
  /\ (pano_type p2 = "panorama" -> panorama s = None ->
      setPanorama p2 s =
      mkOutcome (Normal tt) (set_panorama (Some p2) s) [OnEnter p2])
  /\ (pano_type p2 <> "panorama" ->
      setPanorama p2 s = mkOutcome (Normal tt) s [])
  /\ (pano_type p1 = "panorama" -> pano_type p2 = "panorama" ->
      panorama s = None ->
      run_effects [SetPanorama p1; SetPanorama p2] s =
      [OnEnter p1; OnLeave p1; OnEnter p2]
      /\ panorama (run [SetPanorama p1; SetPanorama p2] s) = Some p2).
Proof.
  split; [|split; [|split]].
  - intros Ht Hc. unfold setPanorama, bind. rewrite Ht. cbn. rewrite Hc.
    reflexivity.
  - intros Ht Hc. unfold setPanorama, bind. rewrite Ht. cbn. rewrite Hc.
    reflexivity.
  - intros Ht. unfold setPanorama.
    destruct (String.eqb_spec (pano_type p2) "panorama") as [E|_];
      [contradiction | reflexivity].
  - intros H1 H2 Hc. cbn. unfold step. cbn. unfold setPanorama, bind.
    rewrite H1, H2. cbn. rewrite Hc. split; reflexivity.
Qed.

(** ** The frame *)

Lemma forEach_emit (f : nat -> Effect) l s :
  forEach l (fun x => emit (f x)) s = mkOutcome (Normal tt) s (map f l).
Proof.
  revert s. induction l as [|x l IH]; intros s; [reflexivity|].
  cbn [forEach]. unfold bind. cbn. rewrite IH. reflexivity.
Qed.

(** A frame: the tweens, the callbacks in the order of the list, the
    active control, the VR controls when [VRManager.Mode] is the VR mode,
    and the render request; the viewer is left as it was. *)
Lemma render_outcome s :
  render s =
  mkOutcome (Normal tt) s
    ([TweenUpdate] ++ map UpdateCallback (updateCallbacks s)
     ++ match control s with Some c => [ControlUpdate c] | None => [] end
     ++ (if Mode_is_VR (VRManager s) then [VRControlsUpdate] else [])
     ++ [VRManagerRender]).
Proof.
  unfold render, bind. cbn. rewrite forEach_emit. cbn.
  destruct (control s), (Mode_is_VR (VRManager s)); cbn;
    rewrite ?app_nil_r; reflexivity.
Qed.

(** Callbacks run in the order in which they were registered. *)
Lemma addUpdateCallback_last f s :
  updateCallbacks (final (addUpdateCallback (Some f) s)) =
  updateCallbacks s ++ [f].
Proof. reflexivity. Qed.

(** Nothing the viewer does defines [VRManager.Mode]. *)
Definition Mode_undefined (s : Viewer) : Prop := Mode (VRManager s) = None.

Lemma handle_keeps_Mode_undefined i : keeps Mode_undefined (handle i).
Proof.
  destruct i; cbn [handle];
    unfold onMouseDown, onMouseMove, onMouseUp, onTap, setPanorama,
      setCameraControl, enableControl, toggleNextControl, enableControl,
      addUpdateCallback, removeUpdateCallback, toggleVR, animate, render,
      onKeyDown, onKeyUp,
      down_coordinate, release_pressEntityObject, release_pressObject,
      dispatch_click, dispatch_hover, hover_infospot, leave_hoverObject,
      enter_hoverObject, start_press, move_press, hideHoveringObject;
    cbv zeta; repeat method_step; auto.
  intros s Hs. rewrite forEach_emit. exact Hs.
Qed.

Lemma run_snoc inputs i s : run (inputs ++ [i]) s = step (run inputs s) i.
Proof. unfold run. rewrite fold_left_app. reflexivity. Qed.

Lemma run_keeps (I : Viewer -> Prop) inputs s :
  (forall i, keeps I (handle i)) -> I s -> I (run inputs s).
Proof.
  intros H. revert s. induction inputs as [|i l IH]; intros s Hs; [exact Hs|].
  cbn. apply IH, H, Hs.
Qed.

(** C8.  A frame advances the tweens, runs the callbacks, updates the
    active control and asks for a render, in this order; but the VR
    controls are updated when the property [Mode] of the VR manager is the
    VR mode, and the manager keeps its mode in [mode]: whatever the viewer
    went through, once the VR manager has entered its VR mode a frame does
    not update the VR controls. *)
Theorem render_skips_VRControls_in_VR_mode (o : UserOptions)
    (inputs : list Input) :
  let s := run (inputs ++ [VRModeChanged VR]) (PANOLENS_Viewer o) in
  mode (VRManager s) = VR
  /\ effects (render s) =
     [TweenUpdate] ++ map UpdateCallback (updateCallbacks s)
     ++ match control s with Some c => [ControlUpdate c] | None => [] end
     ++ [VRManagerRender]
  /\ ~ In VRControlsUpdate (effects (render s)).
Proof.
  intros s.
  assert (Hm : mode (VRManager s) = VR).
  { subst s. rewrite run_snoc. reflexivity. }
  assert (HM : Mode_undefined s).
  { subst s. apply run_keeps; [exact handle_keeps_Mode_undefined|reflexivity]. }
  assert (He : effects (render s) =
     [TweenUpdate] ++ map UpdateCallback (updateCallbacks s)
     ++ match control s with Some c => [ControlUpdate c] | None => [] end
     ++ [VRManagerRender]).
  { rewrite render_outcome. cbn [effects]. unfold Mode_is_VR. rewrite HM.
    reflexivity. }
  split; [exact Hm|]. split; [exact He|].
  rewrite He. intros Hin.
  apply in_app_or in Hin as [Hin|Hin]; [destruct Hin as [?|[]]; discriminate|].
  apply in_app_or in Hin as [Hin|Hin].
  { apply in_map_iff in Hin as (? & ? & _). discriminate. }
  apply in_app_or in Hin as [Hin|Hin].
  { destruct (control s); [destruct Hin as [?|[]]; discriminate | destruct Hin]. }
  destruct Hin as [?|[]]; discriminate.
Qed.

(** ** Switching the control scheme *)

(** [( index >= 0 && index < this.controls.length ) ? index : 0] *)
Definition clamped (index : Z) (s : Viewer) : nat :=
  Z.to_nat (if (index >=? 0) && (index <? Z.of_nat (length (controls s)))
            then index else 0).

Lemma clamped_in_range index s :
  0 <= index < Z.of_nat (length (controls s)) ->
  clamped index s = Z.to_nat index.
Proof.
  intros [H0 H1]. unfold clamped.
  rewrite Z.geb_leb. apply Z.leb_le in H0. apply Z.ltb_lt in H1.
  rewrite H0, H1. reflexivity.
Qed.

Lemma clamped_out_of_range index s :
  index < 0 \/ Z.of_nat (length (controls s)) <= index ->
  clamped index s = 0%nat.
Proof.
  intros H. unfold clamped. rewrite Z.geb_leb.
  destruct (0 <=? index) eqn:H0; [|reflexivity].
  destruct (index <? Z.of_nat (length (controls s))) eqn:H1; [|reflexivity].
  apply Z.leb_le in H0. apply Z.ltb_lt in H1. lia.
Qed.

Lemma clamped_lt index s :
  controls s <> [] -> (clamped index s < length (controls s))%nat.
Proof.
  intros Hne. unfold clamped. rewrite Z.geb_leb.
  destruct (0 <=? index) eqn:H0; cbn [andb].
  - destruct (index <? Z.of_nat (length (controls s))) eqn:H1.
    + apply Z.leb_le in H0. apply Z.ltb_lt in H1. lia.
    + destruct (controls s); [contradiction | cbn; lia].
  - destruct (controls s); [contradiction | cbn; lia].
Qed.

(** The viewer after a switch to the scheme [cj] at index [j], with [c0]
    the index of the scheme that was active. *)
Definition switched (s : Viewer) (c0 j : nat) (cj : Control)
    (pano : Panorama) : Viewer :=
  let s1 :=
    set_controls
      (alter (set_enabled true) j (alter (set_enabled false) c0 (controls s)))
      (set_control (Some j)
         (set_controls (alter (set_enabled false) c0 (controls s)) s)) in
  if String.eqb (name cj) "orbit" then
    set_camera_position (z_plus_1 (position pano))
      (set_camera_position (position pano) s1)
  else if String.eqb (name cj) "device-orientation" then
    set_camera_position (position pano) s1
  else s1.

Lemma enableControl_outcome s index c0 pano cj :
  control s = Some c0 -> panorama s = Some pano ->
  controls s !! clamped index s = Some cj ->
  enableControl index s =
  mkOutcome (Normal tt) (switched s c0 (clamped index s) cj pano) [].
Proof.
  intros Hc Hp Hj. unfold enableControl, switched, bind. cbn.
  fold (clamped index s). rewrite Hc. cbn.
  rewrite list_lookup_alter, Hp.
  destruct (decide (c0 = clamped index s)) as [E|_]; [rewrite E|];
    rewrite Hj; cbn;
    destruct (String.eqb (name cj) "orbit"); cbn; try reflexivity;
    destruct (String.eqb (name cj) "device-orientation"); reflexivity.
Qed.

Lemma enabled_after_switch (l : list Control) c0 j :
  (j < length l)%nat ->
  enabled <$> alter (set_enabled true) j (alter (set_enabled false) c0 l) !! j
  = Some true.
Proof.
  intros Hj. rewrite list_lookup_alter_eq.
  destruct (lookup_lt_is_Some_2 (alter (set_enabled false) c0 l) j) as [c Hc].
  { rewrite length_alter. exact Hj. }
  rewrite Hc. reflexivity.
Qed.

Lemma disabled_after_switch (l : list Control) c0 j :
  (c0 < length l)%nat -> c0 <> j ->
  enabled <$> alter (set_enabled true) j (alter (set_enabled false) c0 l) !! c0
  = Some false.
Proof.
  intros Hc Hne. rewrite list_lookup_alter_ne by congruence.
  rewrite list_lookup_alter_eq.
  destruct (lookup_lt_is_Some_2 l c0 Hc) as [c Hl]. rewrite Hl. reflexivity.
Qed.

Lemma others_after_switch (l : list Control) c0 j k :
  k <> c0 -> k <> j ->
  alter (set_enabled true) j (alter (set_enabled false) c0 l) !! k = l !! k.
Proof.
  intros H0 Hj. rewrite !list_lookup_alter_ne by congruence. reflexivity.
Qed.

Lemma names_after_switch (l : list Control) c0 j k :
  name <$> alter (set_enabled true) j (alter (set_enabled false) c0 l) !! k
  = name <$> l !! k.
Proof.
  rewrite !list_lookup_alter.
  repeat case_decide; subst; destruct (l !! k); reflexivity.
Qed.

Lemma switched_fields s c0 j cj pano :
  control (switched s c0 j cj pano) = Some j
  /\ controls (switched s c0 j cj pano) =
     alter (set_enabled true) j (alter (set_enabled false) c0 (controls s))
  /\ OrbitControls_target (switched s c0 j cj pano) = OrbitControls_target s
  /\ panorama (switched s c0 j cj pano) = panorama s
  /\ camera_position (switched s c0 j cj pano) =
     if String.eqb (name cj) "orbit" then z_plus_1 (position pano)
     else if String.eqb (name cj) "device-orientation" then position pano
     else camera_position s.
Proof.
  unfold switched.
  destruct (String.eqb (name cj) "orbit");
    [|destruct (String.eqb (name cj) "device-orientation")];
    repeat split; reflexivity.
Qed.

(** C7, as the code has it.  With a panorama current and an active scheme
    of the list, [enableControl] returns; an index outside the list counts
    as 0; the scheme that was active is disabled, the selected one is enabled
    and active, the other schemes are as they were; the camera is put at the
    panorama position moved by 1 along z for a scheme named orbit, at the
    panorama position for one named device-orientation, and is not moved for
    any other; the focus of the orbit controls is not written by the switch:
    it is [setCameraControl], the listener of [enter-start], that places the
    camera and puts the focus at the panorama position. *)
Theorem enableControl_switches (s : Viewer) (index : Z) (c0 : nat)
    (pano : Panorama) :
  control s = Some c0 -> (c0 < length (controls s))%nat ->
  panorama s = Some pano ->
  let j := clamped index s in
  let s' := final (enableControl index s) in
  result (enableControl index s) = Normal tt
  /\ (0 <= index < Z.of_nat (length (controls s)) -> j = Z.to_nat index)
  /\ (index < 0 \/ Z.of_nat (length (controls s)) <= index -> j = 0%nat)
  /\ control s' = Some j
  /\ enabled <$> controls s' !! j = Some true
  /\ (c0 <> j -> enabled <$> controls s' !! c0 = Some false)
  /\ (forall k, k <> c0 -> k <> j -> controls s' !! k = controls s !! k)
  /\ (forall k, name <$> controls s' !! k = name <$> controls s !! k)
  /\ (name <$> controls s !! j = Some "orbit"%string ->
      camera_position s' = z_plus_1 (position pano))
  /\ (name <$> controls s !! j = Some "device-orientation"%string ->
      camera_position s' = position pano)
  /\ (name <$> controls s !! j <> Some "orbit"%string ->
      name <$> controls s !! j <> Some "device-orientation"%string ->
      camera_position s' = camera_position s)
  /\ OrbitControls_target s' = OrbitControls_target s
  /\ setCameraControl s =
     mkOutcome (Normal tt)
       (set_OrbitControls_target (position pano)
          (set_camera_position (z_plus_1 (position pano))
             (set_camera_position (position pano) s))) [].
Proof.
  intros Hc Hlt Hp j s'.
  assert (Hne : controls s <> []).
  { intros E. rewrite E in Hlt. cbn in Hlt. lia. }
  pose proof (clamped_lt index s Hne) as Hj. fold j in Hj.
  destruct (lookup_lt_is_Some_2 (controls s) j Hj) as [cj Hcj].
  pose proof (enableControl_outcome s index c0 pano cj Hc Hp Hcj) as Ho.
  fold j in Ho.
  destruct (switched_fields s c0 j cj pano) as (F1 & F2 & F3 & F4 & F5).
  subst s'. rewrite Ho. cbn [result final].
  split; [reflexivity|].
  split; [apply clamped_in_range|].
  split; [apply clamped_out_of_range|].
  split; [exact F1|].
  rewrite F2, F3, F5, Hcj. cbn [fmap option_fmap option_map].
  split; [apply enabled_after_switch, Hj|].
  split; [intros Hd; apply disabled_after_switch; assumption|].
  split; [intros k; apply others_after_switch|].
  split.
  { intros k. apply names_after_switch. }
  split.
  { intros [= ->]. reflexivity. }
  split.
  { intros [= E]. rewrite E. reflexivity. }
  split; [|split; [reflexivity|]].
  - intros H1 H2.
    destruct (String.eqb_spec (name cj) "orbit") as [E|_];
      [rewrite E in H1; contradiction|].
    destruct (String.eqb_spec (name cj) "device-orientation") as [E|_];
      [rewrite E in H2; contradiction|].
    reflexivity.
  - unfold setCameraControl, bind. cbn. rewrite Hp. reflexivity.
Qed.

(** ** Sequencing *)

(** [total m]: the method [m] returns, it never throws. *)
Definition total {A} (m : M A) : Prop :=
  forall s, exists a, result (m s) = Normal a.

Lemma total_unit (m : M unit) s : total m -> result (m s) = Normal tt.
Proof. intros H. destruct (H s) as [[] Ha]. exact Ha. Qed.

Section Sequencing.
Context {A B : Type} (m : M A) (k : A -> M B).

Lemma result_bind s :
  result (bind m k s) =
  match result (m s) with
  | Normal a => result (k a (final (m s)))
  | Throw e => Throw e
  end.
Proof.
  unfold bind. destruct (m s) as [[a|e] s1 t1]; cbn; [|reflexivity].
  destruct (k a s1). reflexivity.
Qed.

Lemma final_bind s :
  final (bind m k s) =
  match result (m s) with
  | Normal a => final (k a (final (m s)))
  | Throw _ => final (m s)
  end.
Proof.
  unfold bind. destruct (m s) as [[a|e] s1 t1]; cbn; [|reflexivity].
  destruct (k a s1). reflexivity.
Qed.

Lemma effects_bind s :
  effects (bind m k s) =
  effects (m s) ++
  match result (m s) with
  | Normal a => effects (k a (final (m s)))
  | Throw _ => []
  end.
Proof.
  unfold bind. destruct (m s) as [[a|e] s1 t1]; cbn;
    [|rewrite app_nil_r; reflexivity].
  destruct (k a s1). reflexivity.
Qed.

Lemma total_bind : total m -> (forall a, total (k a)) -> total (bind m k).
Proof.
  intros Hm Hk s. rewrite result_bind. destruct (Hm s) as [a ->]. apply Hk.
Qed.
End Sequencing.

Lemma total_ret {A} (a : A) : total (ret a).
Proof. intros s. exists a. reflexivity. Qed.

Lemma total_get : total get.
Proof. intros s. exists s. reflexivity. Qed.

Lemma total_emit e : total (emit e).
Proof. intros s. exists tt. reflexivity. Qed.

Lemma total_modify f : total (modify f).
Proof. intros s. exists tt. reflexivity. Qed.

Lemma total_when b m : total m -> total (when b m).
Proof. intros H. destruct b; [exact H | apply total_ret]. Qed.

Lemma total_fire o type event : total (fire o type event).
Proof. apply total_when, total_emit. Qed.

Ltac total_step :=
  match goal with
  | |- total (bind _ _) => apply total_bind; [|intros ?]
  | |- total (ret _) => apply total_ret
  | |- total get => apply total_get
  | |- total (emit _) => apply total_emit
  | |- total (fire _ _ _) => apply total_fire
  | |- total (when _ _) => apply total_when
  | |- total (modify _) => apply total_modify
  | |- total (match ?x with _ => _ end) => destruct x
  | |- total (if ?x then _ else _) => destruct x
  end.

(** ** The blocks of onTap return *)

Lemma release_pressEntityObject_total event ie :
  total (release_pressEntityObject event ie).
Proof. unfold release_pressEntityObject. repeat total_step. Qed.

Lemma release_pressObject_total event i :
  total (release_pressObject event i).
Proof. unfold release_pressObject. repeat total_step. Qed.

Lemma dispatch_click_total pano event intersects ie i :
  total (dispatch_click pano event intersects ie i).
Proof. unfold dispatch_click. repeat total_step. Qed.

Lemma leave_hoverObject_total event intersects ie :
  total (leave_hoverObject event intersects ie).
Proof. unfold leave_hoverObject. repeat total_step. Qed.

Lemma enter_hoverObject_total event ie : total (enter_hoverObject event ie).
Proof. unfold enter_hoverObject. repeat total_step. Qed.

Lemma start_press_total event ie i : total (start_press event ie (Some i)).
Proof. unfold start_press. repeat total_step. Qed.

Lemma move_press_total event : total (move_press event).
Proof. unfold move_press. repeat total_step. Qed.

Lemma hideHoveringObject_total : total hideHoveringObject.
Proof. unfold hideHoveringObject. repeat total_step. Qed.

Lemma hover_infospot_total event type intersects :
  total (hover_infospot event type intersects).
Proof.
  unfold hover_infospot. cbv zeta.
  repeat first [apply hideHoveringObject_total | total_step].
Qed.

(** The primitive of the nearest intersection is there whenever the
    list is not empty, so [start_press] finds it. *)
Lemma dispatch_hover_total pano event intersects ie :
  total (dispatch_hover pano event intersects ie (object <$> head intersects)).
Proof.
  unfold dispatch_hover.
  apply total_bind; [apply total_emit|intros _].
  apply total_bind; [apply leave_hoverObject_total|intros _].
  destruct ie as [ie|]; [|apply total_ret].
  destruct intersects as [|i0 rest]; [apply total_ret|].
  cbn [nonempty when head fmap option_fmap option_map].
  apply total_bind; [apply enter_hoverObject_total|intros _].
  apply total_bind; [apply start_press_total|intros _].
  apply move_press_total.
Qed.

Lemma onTap_total event type rc : total (onTap event type rc).
Proof.
  unfold onTap.
  apply total_bind; [apply total_get|intros s].
  destruct (panorama s) as [pano|]; [|apply total_ret].
  cbv zeta.
  apply total_bind; [apply total_when, total_emit|intros _].
  apply total_bind; [apply release_pressEntityObject_total|intros _].
  apply total_bind; [apply release_pressObject_total|intros _].
  apply total_bind; [|intros _; apply hover_infospot_total].
  destruct (is_click type);
    [apply dispatch_click_total | apply dispatch_hover_total].
Qed.

(** ** Pointer events without a panorama *)

Lemma onTap_no_panorama event type rc s :
  panorama s = None ->
  onTap event type rc s = mkOutcome (Normal false) s [].
Proof. intros Hp. unfold onTap, bind. cbn. rewrite Hp. reflexivity. Qed.

(** An event handed to a scene object or to the panorama. *)
Definition is_dispatch (e : Effect) : bool :=
  match e with
  | Dispatch _ _ _ | PanoramaDispatch _ _ _ _ => true
  | _ => false
  end.

(** The four references of the pointer state machine. *)
Definition pointer_refs (s : Viewer) :=
  (hoverObject s, hoveringObject s, pressEntityObject s, pressObject s).

(** [maintains I P m]: from a viewer satisfying [I] the method [m] leaves
    one satisfying [I] and has only effects satisfying [P]. *)
Definition maintains {A} (I : Viewer -> Prop) (P : Effect -> Prop)
    (m : M A) : Prop :=
  forall s, I s -> I (final (m s)) /\ Forall P (effects (m s)).

Lemma maintains_bind {A B} I P (m : M A) (k : A -> M B) :
  maintains I P m -> (forall a, maintains I P (k a)) ->
  maintains I P (bind m k).
Proof.
  intros Hm Hk s Hs. rewrite final_bind, effects_bind.
  destruct (Hm s Hs) as [H1 H2].
  destruct (result (m s)) as [a|e].
  - destruct (Hk a _ H1) as [H3 H4]. split; [exact H3|].
    apply Forall_app; split; assumption.
  - rewrite app_nil_r. split; assumption.
Qed.

Lemma maintains_split {A} I P (m : M A) :
  keeps I m -> emits P m -> maintains I P m.
Proof. intros Hk He s Hs. split; [apply Hk, Hs | apply He]. Qed.

Definition no_panorama_with (refs : _) (s : Viewer) : Prop :=
  panorama s = None /\ pointer_refs s = refs.

Definition not_dispatch (e : Effect) : Prop := is_dispatch e = false.

Lemma onTap_maintains_no_panorama refs event type rc :
  maintains (no_panorama_with refs) not_dispatch (onTap event type rc).
Proof.
  intros s [Hp Hr]. rewrite onTap_no_panorama by exact Hp.
  split; [split; assumption | constructor].
Qed.

Ltac quiet_step :=
  match goal with
  | |- maintains _ _ (onTap _ _ _) => apply onTap_maintains_no_panorama
  | |- maintains _ _ (bind _ _) => apply maintains_bind; [|intros ?]
  | |- maintains _ _ (match ?x with _ => _ end) => destruct x
  | |- maintains _ _ (if ?x then _ else _) => destruct x
  | |- maintains _ _ _ =>
      apply maintains_split;
      [repeat method_step; auto | repeat method_step; reflexivity]
  end.

Lemma pointer_handlers_quiet refs event rc :
  maintains (no_panorama_with refs) not_dispatch (onMouseDown event rc)
  /\ maintains (no_panorama_with refs) not_dispatch (onMouseMove event rc)
  /\ maintains (no_panorama_with refs) not_dispatch (onMouseUp event rc).
Proof.
  unfold onMouseDown, onMouseMove, onMouseUp, down_coordinate.
  split; [|split]; repeat quiet_step.
Qed.

(** What a frame reads of the viewer. *)
Definition frame_state (s : Viewer) :=
  (updateCallbacks s, control s, VRManager s).

Lemma animate_outcome s :
  animate s =
  mkOutcome (Normal tt) s (RequestAnimationFrame :: effects (render s)).
Proof.
  unfold animate. rewrite (bind_Normal _ _ s tt s [RequestAnimationFrame])
    by reflexivity.
  rewrite render_outcome. reflexivity.
Qed.

Lemma animate_reads_frame_state s1 s2 :
  frame_state s1 = frame_state s2 -> effects (animate s1) = effects (animate s2).
Proof.
  unfold frame_state. intros [= H1 H2 H3].
  rewrite !animate_outcome, !render_outcome. cbn [effects].
  rewrite H1, H2, H3. reflexivity.
Qed.

Definition is_pointer_input (i : Input) : bool :=
  match i with
  | MouseDown _ _ | MouseMove _ _ | MouseUp _ _ => true
  | _ => false
  end.

Lemma pointer_input_keeps_frame_state v i :
  is_pointer_input i = true ->
  keeps (fun s => frame_state s = v) (handle i).
Proof.
  destruct i; try discriminate; intros _; cbn [handle];
    unfold onMouseDown, onMouseMove, onMouseUp, onTap,
      down_coordinate, release_pressEntityObject, release_pressObject,
      dispatch_click, dispatch_hover, hover_infospot, leave_hoverObject,
      enter_hoverObject, start_press, move_press, hideHoveringObject;
    cbv zeta; repeat method_step; auto.
Qed.

(** C9.  With no panorama current [onTap] returns at once: no effect at
    all and the viewer as it was; each pointer handler then hands no event
    to any object or panorama and leaves the hover and press references as
    they were.  Whatever the viewer and whether the handler returns or
    throws, the next frame runs to its render request exactly as it would
    have without the pointer event. *)
Theorem pointer_event_without_panorama (s : Viewer) (event : PointerEvent)
    (type : option TapType) (rc : RayCast) (i : Input) :
  (panorama s = None ->
   onTap event type rc s = mkOutcome (Normal false) s [])
  /\ (panorama s = None -> is_pointer_input i = true ->
      Forall (fun e => is_dispatch e = false) (effects (handle i s))
      /\ pointer_refs (step s i) = pointer_refs s)
  /\ (is_pointer_input i = true ->
      result (animate (step s i)) = Normal tt
      /\ effects (animate (step s i)) = effects (animate s)
      /\ last (effects (animate (step s i))) = Some VRManagerRender).
Proof.
  split; [apply onTap_no_panorama|]. split.
  - intros Hp Hi.
    assert (Hs : no_panorama_with (pointer_refs s) s) by (split; auto).
    destruct i; try discriminate; cbn [handle]; unfold step; cbn [handle].
    + destruct (pointer_handlers_quiet (pointer_refs s) event0 rc0)
        as (H & _ & _).
      destruct (H s Hs) as [[_ Hr] He]. split; assumption.
    + destruct (pointer_handlers_quiet (pointer_refs s) event0 rc0)
        as (_ & H & _).
      destruct (H s Hs) as [[_ Hr] He]. split; assumption.
    + destruct (pointer_handlers_quiet (pointer_refs s) event0 rc0)
        as (_ & _ & H).
      destruct (H s Hs) as [[_ Hr] He]. split; assumption.
  - intros Hi.
    pose proof (pointer_input_keeps_frame_state (frame_state s) i Hi s eq_refl)
      as Hf.
    fold (step s i) in Hf.
    split; [rewrite animate_outcome; reflexivity|].
    split; [apply animate_reads_frame_state, Hf|].
    rewrite animate_outcome, render_outcome. cbn [effects].
    rewrite !app_assoc, app_comm_cons. apply last_snoc.
Qed.

(** ** The hover and press entities are never pass-through *)

(** A reference that is empty or points at an object that is not
    pass-through. *)
Definition opaque (o : option Object3D) : Prop :=
  match o with
  | Some x => passThrough x = false
  | None => True
  end.

Definition opaque_refs (s : Viewer) : Prop :=
  opaque (hoverObject s) /\ opaque (pressEntityObject s).

Lemma getConvertedIntersect_is_opaque intersects :
  opaque (getConvertedIntersect intersects).
Proof.
  destruct (getConvertedIntersect intersects) as [t|] eqn:E; [|exact I].
  exact (getConvertedIntersect_opaque _ _ E).
Qed.

Lemma dispatch_hover_keeps_opaque_refs pano event intersects ie i :
  opaque ie ->
  keeps opaque_refs (dispatch_hover pano event intersects ie i).
Proof.
  intros Hie.
  unfold dispatch_hover, leave_hoverObject, enter_hoverObject, start_press,
    move_press.
  repeat method_step; auto;
    match goal with
    | H : opaque_refs _ |- _ => destruct H as [Hh Hp]
    end; split; cbn; auto.
Qed.

Lemma onTap_keeps_opaque_refs event type rc :
  keeps opaque_refs (onTap event type rc).
Proof.
  unfold onTap.
  apply keeps_bind; [apply keeps_get|intros s].
  destruct (panorama s) as [pano|]; [|apply keeps_ret].
  cbv zeta.
  apply keeps_bind; [apply keeps_when, keeps_emit|intros _].
  apply keeps_bind; [|intros _].
  { unfold release_pressEntityObject. repeat method_step; auto.
    destruct H as [Hh _]. split; [exact Hh | exact I]. }
  apply keeps_bind; [|intros _].
  { unfold release_pressObject. repeat method_step; auto. }
  apply keeps_bind; [|intros _].
  { destruct (is_click type).
    - unfold dispatch_click. repeat method_step.
    - apply dispatch_hover_keeps_opaque_refs,
        getConvertedIntersect_is_opaque. }
  unfold hover_infospot, hideHoveringObject. cbv zeta.
  repeat method_step; auto.
Qed.

Lemma handle_keeps_opaque_refs i : keeps opaque_refs (handle i).
Proof.
  destruct i; cbn [handle];
    unfold onMouseDown, onMouseMove, onMouseUp, setPanorama,
      setCameraControl, enableControl, toggleNextControl, enableControl,
      addUpdateCallback, removeUpdateCallback, toggleVR, animate, render,
      onKeyDown, onKeyUp, down_coordinate;
    repeat first [apply onTap_keeps_opaque_refs | method_step]; auto.
  intros s Hs. rewrite forEach_emit. exact Hs.
Qed.

(** C10.  The resolver returns no target or one that is not pass-through;
    and in every viewer reached from the constructor by any inputs, pointer
    events with any ray-cast results among them, the hover entity and the
    press entity are each empty or not pass-through. *)
Theorem resolved_targets_are_opaque (intersects : list Intersection)
    (o : UserOptions) (inputs : list Input) :
  opaque (getConvertedIntersect intersects)
  /\ opaque (hoverObject (run inputs (PANOLENS_Viewer o)))
  /\ opaque (pressEntityObject (run inputs (PANOLENS_Viewer o))).
Proof.
  split; [apply getConvertedIntersect_is_opaque|].
  apply (run_keeps opaque_refs);
    [exact handle_keeps_opaque_refs | split; exact I].
Qed.

(** ** Release *)









Lemma start_press_idle event ie i s :
  is_mouse_type mousedown s = false ->
  start_press event ie i s = mkOutcome (Normal tt) s [].
Proof.
  intros H. unfold start_press, bind. cbn. rewrite H. cbn. rewrite H.
  reflexivity.
Qed.







(** ** A concrete scene *)

Module Scene.
Definition viewer : Viewer := PANOLENS_Viewer (mkUserOptions None None None).
Definition pano : Panorama := mkPanorama 1 "panorama" (mkVector3 5 5 5).
Definition pano2 : Panorama := mkPanorama 2 "panorama" (mkVector3 0 0 0).
(** The viewer once [pano] is set, and before its [enter-start]. *)
Definition entered : Viewer := run [SetPanorama pano] viewer.
Definition button : Object3D := mkObject3D 10 false true None None.
Definition face : Object3D := mkObject3D 11 false true None (Some button).
Definition helper : Object3D := mkObject3D 12 true true None None.
Definition wall : Object3D := mkObject3D 13 false true None None.
Definition canvas : option (list string) := Some ["panolens-canvas"%string].
Definition at_ (x y : Z) (tgt : option (list string)) : PointerEvent :=
  mkPointerEvent (Some x) (Some y) None None tgt.
Definition over (l : list Object3D) : RayCast :=
  mkRayCast [] (map mkIntersection l).
(** A panorama is set and the mouse goes down on the face of the button. *)
Definition pressed : Viewer :=
  run [SetPanorama pano; MouseDown (at_ 100 100 canvas) (over [face])] viewer.
End Scene.


(** ** Hover *)

(** The hover events among some effects, each with its object. *)
Definition hover_entry (e : Effect) : list (string * Object3D) :=
  match e with
  | Dispatch on type _ =>
      if String.eqb type "hoverenter" || String.eqb type "hoverleave"
      then [(type, on)] else []
  | _ => []
  end.

Definition hover_log (l : list Effect) : list (string * Object3D) :=
  flat_map hover_entry l.

(** What [fire] on a reference gives the hover log. *)
Definition fired_log (o : option Object3D) (type : string)
  : list (string * Object3D) :=
  match o with
  | Some x => if dispatchEvent x then [(type, x)] else []
  | None => []
  end.

(** The condition of lines 574-575. *)
Definition leaves (h : option Object3D) (intersects : list Intersection)
    (ie : option Object3D) : bool :=
  (truthy h && nonempty intersects && negb (same_ref h ie))
  || (truthy h && negb (nonempty intersects)).




(** [hover_neutral m]: the method returns, leaves the hover reference
    alone and fires no hover event. *)
Definition hover_neutral {A} (m : M A) : Prop :=
  total m
  /\ (forall h, keeps (fun s => hoverObject s = h) m)
  /\ emits (fun e => hover_entry e = []) m.

Lemma hover_log_emits {A} (m : M A) s :
  emits (fun e => hover_entry e = []) m -> hover_log (effects (m s)) = [].
Proof.
  intros H. specialize (H s). unfold hover_log.
  induction H as [|e l He _ IH]; [reflexivity|].
  cbn. rewrite He, IH. reflexivity.
Qed.

Lemma hover_log_app l1 l2 : hover_log (l1 ++ l2) = hover_log l1 ++ hover_log l2.
Proof. apply flat_map_app. Qed.

Section Neutral.
Context {A B : Type} (m : M A) (k : A -> M B).



End Neutral.

(** A method built from the monad's operations is neutral when it does
    not assign [hoverObject] and fires no hover event. *)
Ltac neutral :=
  split; [repeat total_step | split; [intros ?|]; repeat method_step; auto].





Lemma hover_infospot_neutral event type intersects :
  hover_neutral (hover_infospot event type intersects).
Proof. unfold hover_infospot, hideHoveringObject. cbv zeta. neutral. Qed.

Lemma leave_hoverObject_outcome event intersects ie s :
  leave_hoverObject event intersects ie s =
  mkOutcome (Normal tt)
    (if leaves (hoverObject s) intersects ie then set_hoverObject None s
     else s)
    (if leaves (hoverObject s) intersects ie
     then match hoverObject s with
          | Some h => if dispatchEvent h
                      then [Dispatch h "hoverleave" event] else []
          | None => []
          end
     else []).
Proof.
  unfold leave_hoverObject, bind, fire. cbn. fold (leaves (hoverObject s) intersects ie).
  destruct (leaves (hoverObject s) intersects ie); [|reflexivity].
  cbn. destruct (hoverObject s) as [h|]; [|reflexivity].
  destruct (dispatchEvent h); reflexivity.
Qed.

Lemma enter_hoverObject_outcome event t s :
  enter_hoverObject event t s =
  mkOutcome (Normal tt)
    (if negb (same_ref (hoverObject s) (Some t))
     then set_hoverObject (Some t) s else s)
    (if negb (same_ref (hoverObject s) (Some t)) && dispatchEvent t
     then [Dispatch t "hoverenter" event] else []).
Proof.
  unfold enter_hoverObject, bind, fire. cbn.
  destruct (negb (same_ref (hoverObject s) (Some t))); [|reflexivity].
  cbn. destruct (dispatchEvent t); reflexivity.
Qed.




















(** ** Press move *)

Section Membership.
Context {A B : Type} (m : M A) (k : A -> M B) (x : Effect) (s : Viewer).

Lemma in_bind_first : In x (effects (m s)) -> In x (effects (bind m k s)).
Proof. intros H. rewrite effects_bind. apply in_or_app. left. exact H. Qed.

Lemma in_bind_then a s1 effects1 :
  m s = mkOutcome (Normal a) s1 effects1 ->
  In x (effects (k a s1)) -> In x (effects (bind m k s)).
Proof.
  intros Hm H. rewrite (bind_Normal m k s a s1 effects1 Hm). cbn [effects].
  apply in_or_app. right. exact H.
Qed.
End Membership.

Lemma release_pressEntityObject_idle event ie s :
  is_mouse_type mouseup s = false ->
  release_pressEntityObject event ie s = mkOutcome (Normal tt) s [].
Proof.
  intros H. unfold release_pressEntityObject, bind. cbn. rewrite H.
  reflexivity.
Qed.

Lemma release_pressObject_idle event i s :
  is_mouse_type mouseup s = false ->
  release_pressObject event i s = mkOutcome (Normal tt) s [].
Proof.
  intros H. unfold release_pressObject, bind. cbn. rewrite H. reflexivity.
Qed.

(** What [fire] on a reference emits. *)
Definition fired (o : option Object3D) (type : string) (event : PointerEvent)
  : list Effect :=
  match o with
  | Some x => if dispatchEvent x then [Dispatch x type event] else []
  | None => []
  end.

Lemma move_press_moving event s :
  is_mouse_type mousemove s = true ->
  move_press event s =
  mkOutcome (Normal tt) s
    (fired (pressEntityObject s) "pressmove-entity" event
     ++ fired (pressObject s) "pressmove" event).
Proof.
  intros H. unfold move_press, bind, fired, fire. cbn. rewrite H. cbn.
  destruct (pressEntityObject s) as [pe|]; [destruct (dispatchEvent pe)|]; cbn;
    (destruct (pressObject s) as [p|]; [destruct (dispatchEvent p)|]);
    reflexivity.
Qed.

(** A move over a resolved target fires the press moves of the tracked
    entity and primitive. *)
Lemma onMouseMove_fires_press_moves event rc pano t s x :
  panorama s = Some pano ->
  getConvertedIntersect (children_hits rc) = Some t ->
  In x (fired (pressEntityObject s) "pressmove-entity" event
        ++ fired (pressObject s) "pressmove" event) ->
  In x (effects (onMouseMove event rc s)).
Proof.
  intros Hp Ht Hx. unfold onMouseMove.
  apply (in_bind_then _ _ _ _ tt s [PreventDefault] eq_refl).
  set (s1 := set_userMouse (set_mouse_type mousemove (userMouse s)) s).
  apply (in_bind_then _ _ _ _ tt s1 [] eq_refl).
  apply in_bind_first. unfold onTap.
  apply (in_bind_then _ _ _ _ s1 s1 [] eq_refl).
  change (panorama s1) with (panorama s). rewrite Hp. cbv zeta.
  rewrite Ht. cbn [is_click].
  pose proof (getConvertedIntersect_nonempty _ _ Ht) as Hne.
  destruct (children_hits rc) as [|i0 rest] eqn:Hints; [discriminate|].
  cbn [head fmap option_fmap option_map].
  apply (in_bind_then _ _ _ _ tt s1
           (if DEBUG s1 && nonempty (panorama_hits rc)
            then [ConsoleInfo] else [])).
  { destruct (DEBUG s1 && nonempty (panorama_hits rc)); reflexivity. }
  eapply in_bind_then;
    [apply release_pressEntityObject_idle; reflexivity|].
  eapply in_bind_then; [apply release_pressObject_idle; reflexivity|].
  apply in_bind_first. unfold dispatch_hover.
  apply (in_bind_then _ _ _ _ tt s1 [_] eq_refl).
  eapply in_bind_then; [apply leave_hoverObject_outcome|].
  cbn [nonempty when].
  eapply in_bind_then; [apply enter_hoverObject_outcome|].
  match goal with
  | |- In x (effects (bind _ _ ?st)) => set (s3 := st)
  end.
  assert (H3 : userMouse s3 = userMouse s1
               /\ pressEntityObject s3 = pressEntityObject s
               /\ pressObject s3 = pressObject s).
  { subst s3.
    repeat match goal with
           | |- context [if ?b then _ else _] => destruct b
           end; repeat split; reflexivity. }
  clearbody s3. destruct H3 as (Hu & He & Ho).
  assert (Hmove : is_mouse_type mousemove s3 = true)
    by (unfold is_mouse_type; rewrite Hu; reflexivity).
  assert (Hdown : is_mouse_type mousedown s3 = false)
    by (unfold is_mouse_type; rewrite Hu; reflexivity).
  eapply in_bind_then; [apply start_press_idle, Hdown|].
  rewrite (move_press_moving event s3 Hmove). cbn [effects].
  rewrite He, Ho. exact Hx.
Qed.

(** A [pressmove-entity] or [pressmove] event. *)
Definition is_press_move (e : Effect) : bool :=
  match e with
  | Dispatch _ type _ =>
      String.eqb type "pressmove-entity" || String.eqb type "pressmove"
  | _ => false
  end.

(** A move over nothing that resolves fires no press move. *)
Lemma onMouseMove_no_press_moves event rc :
  getConvertedIntersect (children_hits rc) = None ->
  emits (fun e => is_press_move e = false) (onMouseMove event rc).
Proof.
  intros Hnone.
  unfold onMouseMove, onTap. cbv zeta. rewrite Hnone. cbn [is_click].
  unfold release_pressEntityObject, release_pressObject, dispatch_hover,
    leave_hoverObject, hover_infospot, hideHoveringObject, fire.
  cbv zeta. repeat method_step; reflexivity.
Qed.

(** C5, as the code has it.  In a mouse move with a panorama current, the
    tracked press entity, when it takes events, is sent [pressmove-entity]
    whenever the hit test resolves a target under the pointer, whether
    that target is the tracked entity or another; so is [pressmove] to the
    tracked press primitive; both references stay.  When the hit test
    resolves nothing, no press move is sent. *)
Theorem press_moves_while_over_a_target (s : Viewer) (event : PointerEvent)
    (rc : RayCast) (pano : Panorama) :
  panorama s = Some pano ->
  (forall t pe, getConvertedIntersect (children_hits rc) = Some t ->
      pressEntityObject s = Some pe -> dispatchEvent pe = true ->
      In (Dispatch pe "pressmove-entity" event)
        (effects (handle (MouseMove event rc) s)))
  /\ (forall t p, getConvertedIntersect (children_hits rc) = Some t ->
      pressObject s = Some p -> dispatchEvent p = true ->
      In (Dispatch p "pressmove" event)
        (effects (handle (MouseMove event rc) s)))
  /\ (getConvertedIntersect (children_hits rc) = None ->
      Forall (fun e => is_press_move e = false)
        (effects (handle (MouseMove event rc) s))).
Proof.
  intros Hp. cbn [handle]. split; [|split].
  - intros t pe Ht Hpe Hd.
    apply (onMouseMove_fires_press_moves event rc pano t s _ Hp Ht).
    rewrite Hpe. cbn [fired]. rewrite Hd. apply in_or_app. left. left.
    reflexivity.
  - intros t p Ht Hpo Hd.
    apply (onMouseMove_fires_press_moves event rc pano t s _ Hp Ht).
    rewrite Hpo. cbn [fired]. rewrite Hd. apply in_or_app. right. left.
    reflexivity.
  - intros Hnone. apply (onMouseMove_no_press_moves event rc Hnone).
Qed.

(** ** A click reaches the panorama *)

Lemma in_bind_total {A B} (m : M A) (k : A -> M B) x s :
  total m -> (forall a s1, In x (effects (k a s1))) ->
  In x (effects (bind m k s)).
Proof.
  intros Ht H. rewrite effects_bind. destruct (Ht s) as [a ->].
  apply in_or_app. right. apply H.
Qed.

Definition is_panorama_click (e : Effect) : bool :=
  match e with
  | PanoramaDispatch _ type _ _ => String.eqb type "click"
  | _ => false
  end.

Lemma onTap_click_reaches_panorama event rc pano s :
  panorama s = Some pano ->
  In (PanoramaDispatch pano "click" (children_hits rc) event)
    (effects (onTap event (Some click) rc s)).
Proof.
  intros Hp. unfold onTap.
  apply (in_bind_then _ _ _ _ s s [] eq_refl). rewrite Hp. cbv zeta.
  apply in_bind_total; [apply total_when, total_emit|intros _ s1].
  apply in_bind_total; [apply release_pressEntityObject_total|intros _ s2].
  apply in_bind_total; [apply release_pressObject_total|intros _ s3].
  apply in_bind_first. cbn [is_click]. unfold dispatch_click.
  apply in_bind_first. left. reflexivity.
Qed.

Lemma onTap_hover_spares_panorama_click event rc :
  emits (fun e => is_panorama_click e = false) (onTap event None rc).
Proof.
  unfold onTap. cbv zeta. cbn [is_click].
  unfold release_pressEntityObject, release_pressObject, dispatch_hover,
    leave_hoverObject, enter_hoverObject, start_press, move_press,
    hover_infospot, hideHoveringObject, fire.
  cbv zeta. repeat method_step; reflexivity.
Qed.

(** The event [onMouseUp] hands to [onTap]: for a release of a single
    touch, an object literal with the coordinates of that touch. *)
Definition tap_event (event : PointerEvent) : PointerEvent :=
  match changedTouches event with
  | Some [t] =>
      mkPointerEvent (Some (touch_clientX t)) (Some (touch_clientY t))
        None None None
  | _ => event
  end.

(** On the render surface, with a panorama current, the panorama is sent
    [click] exactly when the release is classified as a click. *)
Lemma onMouseUp_click_iff_classified s rc pano event type :
  panorama s = Some pano ->
  off_canvas event = false ->
  click_type (set_mouse_type mouseup (userMouse s))
    (clickTolerance (options s)) event = Normal type ->
  In (PanoramaDispatch pano "click" (children_hits rc) (tap_event event))
    (effects (onMouseUp event rc s))
  <-> type = Some click.
Proof.
  intros Hp Hoff Hty.
  unfold onMouseUp.
  set (s1 := set_userMouse (set_mouse_type mouseup (userMouse s)) s).
  rewrite (bind_Normal _ _ s tt s1 []) by reflexivity.
  rewrite (bind_Normal _ _ s1 s1 s1 []) by reflexivity.
  cbn [result final effects app].
  change (userMouse s1) with (set_mouse_type mouseup (userMouse s)).
  change (options s1) with (options s).
  rewrite Hty.
  rewrite (bind_Normal _ _ s1 type s1 []) by reflexivity.
  cbn [result final effects app]. rewrite Hoff.
  replace (match changedTouches event with
           | Some [t] =>
               onTap (mkPointerEvent (Some (touch_clientX t))
                        (Some (touch_clientY t)) None None None) type rc
           | _ => onTap event type rc
           end) with (onTap (tap_event event) type rc)
    by (unfold tap_event;
        destruct (changedTouches event) as [[|t [|t' ts]]|]; reflexivity).
  destruct type as [[]|].
  - split; [reflexivity|intros _].
    apply (in_bind_then _ _ _ _ tt s1 [PreventDefault] eq_refl).
    apply in_bind_first. apply onTap_click_reaches_panorama. exact Hp.
  - split; [|discriminate]. intros Hin. exfalso.
    assert (He : emits (fun e => is_panorama_click e = false)
                   (emit PreventDefault ;;
                    onTarget <- onTap (tap_event event) None rc ;;
                    modify (fun s =>
                      set_userMouse (set_mouse_type none (userMouse s)) s) ;;
                    if onTarget : bool then ret tt
                    else when (is_click None)
                           (s <- get ;;
                            when (autoHideInfospot (options s))
                              (match panorama s with
                               | Some p => emit (ToggleChildrenVisibility p)
                               | None => ret tt
                               end) ;;
                            if autoHideControlBar (options s)
                            then throw ReferenceError else ret tt))).
    { repeat first [apply onTap_hover_spares_panorama_click | method_step];
        reflexivity. }
    specialize (He s1). rewrite Forall_forall in He.
    apply list_elem_of_In in Hin. specialize (He _ Hin). discriminate.
Qed.

(** ** The recorded press *)

Lemma onTap_keeps_userMouse v event type rc :
  keeps (fun s => userMouse s = v) (onTap event type rc).
Proof.
  unfold onTap, release_pressEntityObject, release_pressObject,
    dispatch_click, dispatch_hover, hover_infospot, leave_hoverObject,
    enter_hoverObject, start_press, move_press, hideHoveringObject.
  cbv zeta. repeat method_step; auto.
Qed.

(** A mouse press away from the left and top edges, and a touch press,
    record their position. *)
Lemma onMouseDown_records s rc x0 y0 tgt :
  x0 <> 0 -> y0 <> 0 ->
  userMouse (step s (MouseDown (mkPointerEvent (Some x0) (Some y0) None None
                                  tgt) rc))
  = mkUserMouse x0 y0 mousedown.
Proof.
  intros Hx Hy. unfold step. cbn [handle]. unfold onMouseDown, down_coordinate.
  cbn [clientX clientY touches].
  apply Z.eqb_neq in Hx, Hy. rewrite Hx, Hy. cbn [negb].
  rewrite (bind_Normal _ _ s tt s [PreventDefault]) by reflexivity.
  cbn [final].
  rewrite (bind_Normal _ _ s x0 s []) by reflexivity. cbn [final].
  rewrite final_bind. cbn [modify result final].
  rewrite final_bind. cbn [ret result final].
  rewrite final_bind. cbn [modify result final].
  rewrite final_bind. cbn [modify result final].
  rewrite final_bind.
  match goal with
  | |- context [onTap ?e None rc ?st] =>
      pose proof (onTap_keeps_userMouse (userMouse st) e None rc st eq_refl)
        as Hk;
      destruct (onTap_total e None rc st) as [b Hb]
  end.
  rewrite Hb. cbn [ret final]. rewrite Hk. reflexivity.
Qed.

Lemma onMouseDown_touch_records s rc t others tgt :
  userMouse (step s (MouseDown (mkPointerEvent None None (Some (t :: others))
                                  (Some [t]) tgt) rc))
  = mkUserMouse (touch_clientX t) (touch_clientY t) mousedown.
Proof.
  unfold step. cbn [handle]. unfold onMouseDown, down_coordinate.
  cbn [clientX clientY touches].
  rewrite (bind_Normal _ _ s tt s [PreventDefault]) by reflexivity.
  cbn [final].
  rewrite (bind_Normal _ _ s (touch_clientX t) s []) by reflexivity.
  cbn [final].
  rewrite final_bind. cbn [modify result final].
  rewrite final_bind. cbn [ret result final].
  rewrite final_bind. cbn [modify result final].
  rewrite final_bind. cbn [modify result final].
  rewrite final_bind.
  match goal with
  | |- context [onTap ?e None rc ?st] =>
      pose proof (onTap_keeps_userMouse (userMouse st) e None rc st eq_refl)
        as Hk;
      destruct (onTap_total e None rc st) as [b Hb]
  end.
  rewrite Hb. cbn [ret final]. rewrite Hk. reflexivity.
Qed.

(** A mouse press on the left edge, [clientX] being 0, looks for the
    touches of the event, throws and records nothing. *)
Lemma onMouseDown_at_left_edge s rc y0 tgt :
  onMouseDown (mkPointerEvent (Some 0) (Some y0) None None tgt) rc s
  = mkOutcome (Throw TypeError) s [PreventDefault].
Proof. reflexivity. Qed.

(** A move keeps the recorded position. *)
Lemma onMouseMove_keeps_position s event rc :
  mouse_x (userMouse (step s (MouseMove event rc))) = mouse_x (userMouse s)
  /\ mouse_y (userMouse (step s (MouseMove event rc))) = mouse_y (userMouse s).
Proof.
  unfold step. cbn [handle]. unfold onMouseMove.
  rewrite (bind_Normal _ _ s tt s [PreventDefault]) by reflexivity.
  cbn [final].
  rewrite final_bind. cbn [modify result final].
  rewrite final_bind.
  match goal with
  | |- context [onTap ?e None rc ?st] =>
      pose proof (onTap_keeps_userMouse (userMouse st) e None rc st eq_refl)
        as Hk;
      destruct (onTap_total e None rc st) as [b Hb]
  end.
  rewrite Hb. cbn [ret final]. rewrite Hk. split; reflexivity.
Qed.

(** What a release is compared with.  With [(x0, y0)] in [userMouse], a
    mouse release at [(x1, y1)] is classified as a click exactly when both
    [|x1 - x0|] and [|y1 - y0|] are at most the click tolerance, each axis
    on its own, and is left unclassified otherwise; for a touch release
    the coordinates of the first changed touch take the place of the mouse
    coordinates.  On the render surface and with a panorama current, the
    panorama is sent [click] exactly in these cases, for a mouse and for a
    touch release.  The tolerance of a viewer built without one is 10. *)
Theorem click_iff_within_tolerance (x0 y0 tol x1 y1 : Z) (mt : MouseType)
    (t : Touch) (others remaining : list Touch) (tgt : option (list string))
    (hideBar hideSpot : option bool) (s : Viewer) (pano : Panorama)
    (rc : RayCast) :
  let u := mkUserMouse x0 y0 mt in
  let mouse := mouse_release x1 y1 tgt in
  let touch := touch_release t others remaining tgt in
  (click_type u tol mouse = Normal (Some click)
   <-> Z.abs (x1 - x0) <= tol /\ Z.abs (y1 - y0) <= tol)
  /\ (click_type u tol mouse = Normal None
      <-> ~ (Z.abs (x1 - x0) <= tol /\ Z.abs (y1 - y0) <= tol))
  /\ (click_type u tol touch = Normal (Some click)
      <-> Z.abs (touch_clientX t - x0) <= tol
          /\ Z.abs (touch_clientY t - y0) <= tol)
  /\ (click_type u tol touch = Normal None
      <-> ~ (Z.abs (touch_clientX t - x0) <= tol
             /\ Z.abs (touch_clientY t - y0) <= tol))
  /\ (panorama s = Some pano -> off_canvas mouse = false ->
      (In (PanoramaDispatch pano "click" (children_hits rc) mouse)
         (effects (handle (MouseUp mouse rc) s))
       <-> Z.abs (x1 - mouse_x (userMouse s)) <= clickTolerance (options s)
           /\ Z.abs (y1 - mouse_y (userMouse s)) <= clickTolerance (options s)))
  /\ (panorama s = Some pano -> off_canvas touch = false ->
      (In (PanoramaDispatch pano "click" (children_hits rc) (tap_event touch))
         (effects (handle (MouseUp touch rc) s))
       <-> Z.abs (touch_clientX t - mouse_x (userMouse s))
           <= clickTolerance (options s)
           /\ Z.abs (touch_clientY t - mouse_y (userMouse s))
              <= clickTolerance (options s)))
  /\ clickTolerance
       (options (PANOLENS_Viewer (mkUserOptions hideBar hideSpot None))) = 10.
Proof.
  intros u mouse touch. subst u mouse touch.
  rewrite click_type_mouse_release, click_type_touch_release.
  destruct (classified_iff _ _ (within_tolerance_true x0 y0 x1 y1 tol))
    as [Hm1 Hm2].
  destruct (classified_iff _ _
              (within_tolerance_true x0 y0 (touch_clientX t) (touch_clientY t)
                 tol)) as [Ht1 Ht2].
  split; [exact Hm1|]. split; [exact Hm2|].
  split; [exact Ht1|]. split; [exact Ht2|].
  split; [|split; [|reflexivity]].
  - intros Hp Hoff. cbn [handle].
    rewrite (onMouseUp_click_iff_classified s rc pano _ _ Hp Hoff
               (click_type_mouse_release _ _ _ _ _ _ _)).
    rewrite <- within_tolerance_true.
    match goal with |- context [if ?w then _ else _] => destruct w end;
      split; intros H; solve [reflexivity | discriminate H].
  - intros Hp Hoff. cbn [handle].
    rewrite (onMouseUp_click_iff_classified s rc pano _ _ Hp Hoff
               (click_type_touch_release _ _ _ _ _ _ _ _)).
    rewrite <- within_tolerance_true.
    match goal with |- context [if ?w then _ else _] => destruct w end;
      split; intros H; solve [reflexivity | discriminate H].
Qed.

(** ** The properties on the concrete scene *)

(** A press on the button, then a move over nothing: the button is left,
    and is sent no press move. *)
Lemma press_move_lost_over_nothing :
  panorama Scene.pressed = Some Scene.pano
  /\ pressEntityObject Scene.pressed = Some Scene.button
  /\ dispatchEvent Scene.button = true
  /\ effects (handle (MouseMove (Scene.at_ 150 100 Scene.canvas)
                        (Scene.over [])) Scene.pressed)
     = [PreventDefault;
        PanoramaDispatch Scene.pano "hover" []
          (Scene.at_ 150 100 Scene.canvas);
        Dispatch Scene.button "hoverleave" (Scene.at_ 150 100 Scene.canvas)]
  /\ ~ In (Dispatch Scene.button "pressmove-entity"
             (Scene.at_ 150 100 Scene.canvas))
         (effects (handle (MouseMove (Scene.at_ 150 100 Scene.canvas)
                             (Scene.over [])) Scene.pressed))
  /\ ~ In (Dispatch Scene.face "pressmove" (Scene.at_ 150 100 Scene.canvas))
         (effects (handle (MouseMove (Scene.at_ 150 100 Scene.canvas)
                             (Scene.over [])) Scene.pressed)).
Proof.
  repeat split; try reflexivity.
  - intros [H|[H|[H|[]]]]; discriminate H.
  - intros [H|[H|[H|[]]]]; discriminate H.
Qed.

(** A panorama away from the origin is set and the orbit scheme is
    switched to before [enter-start]: the camera is placed, the focus of the
    orbit controls is still at the origin. *)
Lemma enableControl_leaves_orbit_target :
  let s' := step Scene.entered (EnableControl 0) in
  panorama s' = Some Scene.pano
  /\ control s' = Some 0%nat
  /\ name <$> controls s' !! 0%nat = Some "orbit"%string
  /\ camera_position s' = mkVector3 5 5 6
  /\ OrbitControls_target s' = mkVector3 0 0 0
  /\ OrbitControls_target s' <> position Scene.pano.
Proof. repeat split; try reflexivity. discriminate. Qed.

Lemma getConvertedIntersect_first_target_witness :
  getConvertedIntersect
    [mkIntersection Scene.helper; mkIntersection Scene.wall]
  = Some Scene.wall
  /\ getConvertedIntersect [mkIntersection Scene.face] = Some Scene.button.
Proof.
  split.
  - destruct (getConvertedIntersect_first_target Scene.helper Scene.wall
                Scene.button []) as (_ & _ & _ & _ & _ & _ & _ & H).
    apply H; reflexivity.
  - destruct (getConvertedIntersect_first_target Scene.face Scene.wall
                Scene.button []) as (_ & _ & _ & _ & H & _).
    apply H; reflexivity.
Defined.

Lemma click_iff_within_tolerance_witness :
  In (PanoramaDispatch Scene.pano "click" []
        (mouse_release 105 104 Scene.canvas))
    (effects (handle (MouseUp (mouse_release 105 104 Scene.canvas)
                        (Scene.over [])) Scene.pressed))
  /\ ~ In (PanoramaDispatch Scene.pano "click" []
             (mouse_release 120 100 Scene.canvas))
         (effects (handle (MouseUp (mouse_release 120 100 Scene.canvas)
                             (Scene.over [])) Scene.pressed)).
Proof.
  split.
  - destruct (click_iff_within_tolerance 100 100 10 105 104 mousedown
                (mkTouch 0 0) [] [] Scene.canvas None None Scene.pressed
                Scene.pano (Scene.over []))
      as (_ & _ & _ & _ & H & _).
    apply H; [reflexivity | reflexivity | cbn; lia].
  - destruct (click_iff_within_tolerance 100 100 10 120 100 mousedown
                (mkTouch 0 0) [] [] Scene.canvas None None Scene.pressed
                Scene.pano (Scene.over []))
      as (_ & _ & _ & _ & H & _).
    intros Hin. apply H in Hin; [|reflexivity|reflexivity].
    cbn in Hin. lia.
Defined.

Lemma setPanorama_leave_then_enter_witness :
  effects (setPanorama Scene.pano2 Scene.entered)
  = [OnLeave Scene.pano; OnEnter Scene.pano2]
  /\ effects (setPanorama Scene.pano Scene.viewer) = [OnEnter Scene.pano].
Proof.
  split.
  - destruct (setPanorama_leave_then_enter Scene.entered Scene.pano
                Scene.pano2) as (H & _).
    rewrite H; reflexivity.
  - destruct (setPanorama_leave_then_enter Scene.viewer Scene.pano
                Scene.pano) as (_ & H & _).
    rewrite H; reflexivity.
Defined.


Lemma press_moves_while_over_a_target_witness :
  In (Dispatch Scene.button "pressmove-entity"
        (Scene.at_ 150 100 Scene.canvas))
    (effects (handle (MouseMove (Scene.at_ 150 100 Scene.canvas)
                        (Scene.over [Scene.wall])) Scene.pressed)).
Proof.
  destruct (press_moves_while_over_a_target Scene.pressed
              (Scene.at_ 150 100 Scene.canvas) (Scene.over [Scene.wall])
              Scene.pano eq_refl) as (H & _).
  apply (H Scene.wall Scene.button); reflexivity.
Defined.


Lemma enableControl_switches_witness :
  control (final (enableControl 7 Scene.entered)) = Some 0%nat
  /\ camera_position (final (enableControl 7 Scene.entered)) = mkVector3 5 5 6.
Proof.
  destruct (enableControl_switches Scene.entered 7 0 Scene.pano eq_refl)
    as (_ & _ & _ & Hc & _ & _ & _ & _ & Ho & _).
  - cbn; lia.
  - reflexivity.
  - split; [exact Hc|]. rewrite Ho; reflexivity.
Defined.

Lemma pointer_event_without_panorama_witness :
  onTap (Scene.at_ 1 1 Scene.canvas) None (Scene.over [Scene.face])
    Scene.viewer
  = mkOutcome (Normal false) Scene.viewer [].
Proof.
  destruct (pointer_event_without_panorama Scene.viewer
              (Scene.at_ 1 1 Scene.canvas) None (Scene.over [Scene.face])
              Frame) as (H & _).
  apply H. reflexivity.
Defined.

(** * Further properties *)

(** ** The resolver on parts of a list *)

Lemma getConvertedIntersect_app l1 l2 :
  getConvertedIntersect (l1 ++ l2) =
  match getConvertedIntersect l1 with
  | Some t => Some t
  | None => getConvertedIntersect l2
  end.
Proof.
  induction l1 as [|i l1 IH]; [reflexivity|].
  cbn [app]. rewrite !getConvertedIntersect_cons.
  destruct (skipped (object i)); [exact IH | reflexivity].
Qed.

Lemma getConvertedIntersect_filter l :
  getConvertedIntersect
    (List.filter (fun i => negb (skipped (object i))) l)
  = getConvertedIntersect l.
Proof.
  induction l as [|i l IH]; [reflexivity|].
  cbn [List.filter]. rewrite (getConvertedIntersect_cons i l).
  destruct (skipped (object i)) eqn:E; cbn [negb]; [exact IH|].
  rewrite getConvertedIntersect_cons, E. reflexivity.
Qed.

(** X1.  Resolution goes through a list front to back: the target of a
    concatenation is the target of the front part when it has one and
    else the target of the back part; pass-through helpers, and primitives
    of pass-through entities, can be taken out of the list or put in front
    of it without changing the target. *)
Theorem getConvertedIntersect_composes (l1 l2 : list Intersection) :
  getConvertedIntersect (l1 ++ l2) =
  match getConvertedIntersect l1 with
  | Some t => Some t
  | None => getConvertedIntersect l2
  end
  /\ getConvertedIntersect
       (List.filter (fun i => negb (skipped (object i))) l1)
     = getConvertedIntersect l1
  /\ (forallb (fun i => skipped (object i)) l1 = true ->
      getConvertedIntersect (l1 ++ l2) = getConvertedIntersect l2).
Proof.
  split; [apply getConvertedIntersect_app|].
  split; [apply getConvertedIntersect_filter|].
  intros H. rewrite getConvertedIntersect_app.
  replace (getConvertedIntersect l1) with (@None Object3D); [reflexivity|].
  symmetry. induction l1 as [|i l IH]; [reflexivity|].
  cbn [forallb] in H. apply andb_prop in H as [Hi Hl].
  rewrite getConvertedIntersect_cons, Hi. exact (IH Hl).
Qed.

Lemma getConvertedIntersect_composes_witness :
  getConvertedIntersect
    ([mkIntersection Scene.helper] ++ [mkIntersection Scene.face])
  = getConvertedIntersect [mkIntersection Scene.face].
Proof.
  destruct (getConvertedIntersect_composes [mkIntersection Scene.helper]
              [mkIntersection Scene.face]) as (_ & _ & H).
  apply H. reflexivity.
Defined.

(** X2.  A resolved target comes from the list: it is the entity, or for
    want of one the primitive, of an intersection that is not skipped and
    before which every intersection is skipped. *)
Theorem getConvertedIntersect_origin (l : list Intersection) (t : Object3D) :
  getConvertedIntersect l = Some t ->
  exists before i after,
    l = before ++ i :: after
    /\ forallb (fun i => skipped (object i)) before = true
    /\ skipped (object i) = false
    /\ t = target_of (object i).
Proof.
  induction l as [|i l IH]; [discriminate|].
  rewrite getConvertedIntersect_cons.
  destruct (skipped (object i)) eqn:E.
  - intros H. destruct (IH H) as (b & j & a & -> & Hb & Hj & Ht).
    exists (i :: b), j, a. cbn [forallb]. rewrite E, Hb. repeat split; assumption.
  - intros [= <-]. exists [], i, l. repeat split. exact E.
Qed.

Lemma getConvertedIntersect_origin_witness :
  exists before i after,
    [mkIntersection Scene.helper; mkIntersection Scene.face]
    = before ++ i :: after
    /\ forallb (fun i => skipped (object i)) before = true
    /\ skipped (object i) = false
    /\ Scene.button = target_of (object i).
Proof.
  apply (getConvertedIntersect_origin
           [mkIntersection Scene.helper; mkIntersection Scene.face]
           Scene.button).
  reflexivity.
Defined.

(** ** The tolerance *)

Lemma box_nonneg (u : Z) (c : option Z) (tol : Z) :
  ge_minus u c tol && le_plus u c tol = true -> 0 <= tol.
Proof.
  destruct c as [c|]; [|discriminate].
  rewrite box_within. intros H. apply Z.leb_le in H. lia.
Qed.

Lemma box_mono (u : Z) (c : option Z) (tol tol' : Z) :
  tol <= tol' ->
  ge_minus u c tol && le_plus u c tol = true ->
  ge_minus u c tol' && le_plus u c tol' = true.
Proof.
  intros Hle. destruct c as [c|]; [|discriminate].
  rewrite !box_within. intros H. apply Z.leb_le in H. apply Z.leb_le. lia.
Qed.

(** The two ways a release is a click: by the coordinates of the event,
    or by those of its first changed touch. *)
Lemma click_type_click u tol event :
  click_type u tol event = Normal (Some click)
  <-> (ge_minus (mouse_x u) (clientX event) tol
       && le_plus (mouse_x u) (clientX event) tol = true
       /\ ge_minus (mouse_y u) (clientY event) tol
          && le_plus (mouse_y u) (clientY event) tol = true)
      \/ (exists t rest,
            changedTouches event = Some (t :: rest)
            /\ ge_minus (mouse_x u) (Some (touch_clientX t)) tol
               && le_plus (mouse_x u) (Some (touch_clientX t)) tol = true
            /\ ge_minus (mouse_y u) (Some (touch_clientY t)) tol
               && le_plus (mouse_y u) (Some (touch_clientY t)) tol = true).
Proof.
  unfold click_type. rewrite <- andb_assoc.
  remember (ge_minus (mouse_x u) (clientX event) tol
            && le_plus (mouse_x u) (clientX event) tol) as mx eqn:Mx.
  remember (ge_minus (mouse_y u) (clientY event) tol
            && le_plus (mouse_y u) (clientY event) tol) as my eqn:My.
  destruct (changedTouches event) as [[|t rest]|] eqn:Hc.
  - destruct mx, my; cbn [andb]; split; intros H;
      try discriminate H; try reflexivity;
      try (left; split; reflexivity);
      destruct H as [[H1 H2]|(t & r & H0 & _)]; discriminate.
  - rewrite <- andb_assoc.
    remember (ge_minus (mouse_x u) (Some (touch_clientX t)) tol
              && le_plus (mouse_x u) (Some (touch_clientX t)) tol)
      as tx eqn:Tx.
    remember (ge_minus (mouse_y u) (Some (touch_clientY t)) tol
              && le_plus (mouse_y u) (Some (touch_clientY t)) tol)
      as ty eqn:Ty.
    destruct mx, my, tx, ty; cbn [andb]; split; intros H;
      try discriminate H; try reflexivity;
      try (left; split; reflexivity);
      try (right; exists t, rest; rewrite <- Tx, <- Ty;
           repeat split; reflexivity);
      destruct H as [[H1 H2]|(t' & r & H0 & H1 & H2)];
      try discriminate;
      injection H0 as <- <-; congruence.
  - destruct mx, my; cbn [andb]; split; intros H;
      try discriminate H; try reflexivity;
      try (left; split; reflexivity);
      destruct H as [[H1 H2]|(t & r & H0 & _)]; discriminate.
Qed.

(** X3.  The constructor never stores a tolerance of 0; with a negative
    tolerance no release is a click, be it a mouse or a touch release; a
    release that is a click for a tolerance is one for every larger
    tolerance. *)
Theorem click_tolerance_edges (o : UserOptions) (u : UserMouse)
    (tol tol' x1 y1 : Z) (tgt : option (list string))
    (event : PointerEvent) :
  clickTolerance (options (PANOLENS_Viewer o)) <> 0
  /\ (tol < 0 -> click_type u tol event <> Normal (Some click))
  /\ (tol < 0 -> click_type u tol (mouse_release x1 y1 tgt) = Normal None)
  /\ (tol <= tol' ->
      click_type u tol event = Normal (Some click) ->
      click_type u tol' event = Normal (Some click)).
Proof.
  split; [|split; [|split]].
  - cbn. unfold or_default. destruct (user_clickTolerance o) as [v|];
      [|discriminate].
    destruct (v =? 0) eqn:E; [discriminate|]. apply Z.eqb_neq. exact E.
  - intros Hneg H. apply click_type_click in H.
    destruct H as [[H _]|(t & r & _ & H & _)];
      apply box_nonneg in H; lia.
  - intros Hneg. destruct u as [x0 y0 mt]. rewrite click_type_mouse_release.
    destruct (within_tolerance x0 y0 x1 y1 tol) eqn:E; [|reflexivity].
    apply within_tolerance_true in E. lia.
  - intros Hle H. apply click_type_click. apply click_type_click in H.
    destruct H as [[Hx Hy]|(t & r & Ht & Hx & Hy)].
    + left. split; apply (box_mono _ _ tol tol' Hle); assumption.
    + right. exists t, r. split; [exact Ht|].
      split; apply (box_mono _ _ tol tol' Hle); assumption.
Qed.

Lemma click_tolerance_edges_witness :
  click_type (mkUserMouse 100 100 mousedown) (-1)
    (touch_release (mkTouch 100 100) [] [] Scene.canvas)
  <> Normal (Some click)
  /\ click_type (mkUserMouse 100 100 mousedown) 12
       (touch_release (mkTouch 105 96) [] [] Scene.canvas)
     = Normal (Some click).
Proof.
  split.
  - destruct (click_tolerance_edges (mkUserOptions None None None)
                (mkUserMouse 100 100 mousedown) (-1) 0 100 100 Scene.canvas
                (touch_release (mkTouch 100 100) [] [] Scene.canvas))
      as (_ & H & _).
    apply H. lia.
  - destruct (click_tolerance_edges (mkUserOptions None None None)
                (mkUserMouse 100 100 mousedown) 5 12 100 100 Scene.canvas
                (touch_release (mkTouch 105 96) [] [] Scene.canvas))
      as (_ & _ & _ & H).
    apply H; [lia | reflexivity].
Defined.

(** ** Update callbacks *)

(** The callbacks some effects ran, in order. *)
Definition callbacks_run (l : list Effect) : list nat :=
  flat_map (fun e => match e with UpdateCallback f => [f] | _ => [] end) l.

Lemma callbacks_run_frame s :
  callbacks_run (effects (animate s)) = updateCallbacks s.
Proof.
  rewrite animate_outcome, render_outcome. cbn [effects].
  unfold callbacks_run. cbn [flat_map app].
  rewrite flat_map_app.
  replace (flat_map _ (map UpdateCallback (updateCallbacks s)))
    with (updateCallbacks s).
  - destruct (control s), (Mode_is_VR (VRManager s)); cbn;
      rewrite app_nil_r; reflexivity.
  - induction (updateCallbacks s) as [|f l IH]; [reflexivity|].
    cbn. rewrite <- IH. reflexivity.
Qed.

Lemma remove_first_absent f l : ~ In f l -> remove_first f l = l.
Proof.
  induction l as [|g l IH]; [reflexivity|].
  intros H. cbn. destruct (Nat.eqb_spec g f) as [E|_].
  - exfalso. apply H. left. exact E.
  - f_equal. apply IH. intros Hin. apply H. right. exact Hin.
Qed.

Lemma remove_first_count f g l :
  count_occ Nat.eq_dec (remove_first f l) g =
  if Nat.eqb g f then Nat.pred (count_occ Nat.eq_dec l g)
  else count_occ Nat.eq_dec l g.
Proof.
  induction l as [|h l IH]; [cbn; destruct (Nat.eqb g f); reflexivity|].
  cbn [remove_first]. destruct (Nat.eqb_spec h f) as [E|N].
  - subst h. cbn [count_occ].
    destruct (Nat.eq_dec f g) as [->|Nfg].
    + rewrite Nat.eqb_refl. reflexivity.
    + destruct (Nat.eqb_spec g f) as [->|_]; [contradiction | reflexivity].
  - cbn [count_occ]. rewrite IH.
    destruct (Nat.eq_dec h g) as [->|Nhg]; [|reflexivity].
    destruct (Nat.eqb_spec g f) as [->|_]; [contradiction | reflexivity].
Qed.

Lemma remove_first_others f l :
  List.filter (fun g => negb (Nat.eqb g f)) (remove_first f l)
  = List.filter (fun g => negb (Nat.eqb g f)) l.
Proof.
  induction l as [|h l IH]; [reflexivity|].
  cbn [remove_first List.filter]. destruct (Nat.eqb h f) eqn:E; cbn [negb].
  - reflexivity.
  - cbn [List.filter]. rewrite E. cbn [negb]. f_equal. exact IH.
Qed.

Lemma remove_first_snoc f l :
  ~ In f l -> remove_first f (l ++ [f]) = l.
Proof.
  induction l as [|g l IH]; intros H.
  - cbn. rewrite Nat.eqb_refl. reflexivity.
  - cbn. destruct (Nat.eqb_spec g f) as [E|_].
    + exfalso. apply H. left. exact E.
    + f_equal. apply IH. intros Hin. apply H. right. exact Hin.
Qed.

Lemma remove_first_split f before after :
  ~ In f before -> remove_first f (before ++ f :: after) = before ++ after.
Proof.
  induction before as [|g l IH]; intros H.
  - cbn. rewrite Nat.eqb_refl. reflexivity.
  - cbn. destruct (Nat.eqb_spec g f) as [E|_].
    + exfalso. apply H. left. exact E.
    + f_equal. apply IH. intros Hin. apply H. right. exact Hin.
Qed.

(** X4.  A frame runs the registered callbacks in the order of their
    registration, one run for each time a callback was registered;
    registering appends; removing takes out the earliest registration of
    that callback and nothing else: what was registered before it and
    after it stays, in order, later registrations of the same callback
    included; removing a callback that is not registered, and registering
    or removing [undefined], change nothing; registering a callback that
    was not registered and removing it gives back the list. *)
Theorem updateCallbacks_registration (s : Viewer) (f g : nat)
    (before after : list nat) :
  let added := step s (AddUpdateCallback (Some f)) in
  let removed := step s (RemoveUpdateCallback (Some f)) in
  callbacks_run (effects (animate s)) = updateCallbacks s
  /\ callbacks_run (effects (animate added)) = updateCallbacks s ++ [f]
  /\ (updateCallbacks s = before ++ f :: after -> ~ In f before ->
      updateCallbacks removed = before ++ after
      /\ callbacks_run (effects (animate removed)) = before ++ after)
  /\ count_occ Nat.eq_dec (callbacks_run (effects (animate removed))) g
     = (if Nat.eqb g f
        then Nat.pred (count_occ Nat.eq_dec (updateCallbacks s) g)
        else count_occ Nat.eq_dec (updateCallbacks s) g)
  /\ List.filter (fun g => negb (Nat.eqb g f)) (updateCallbacks removed)
     = List.filter (fun g => negb (Nat.eqb g f)) (updateCallbacks s)
  /\ (~ In f (updateCallbacks s) -> removed = s)
  /\ (~ In f (updateCallbacks s) ->
      updateCallbacks (step added (RemoveUpdateCallback (Some f)))
      = updateCallbacks s)
  /\ step s (AddUpdateCallback None) = s
  /\ step s (RemoveUpdateCallback None) = s.
Proof.
  intros added removed. rewrite !callbacks_run_frame.
  split; [reflexivity|]. split; [reflexivity|].
  split.
  { intros Hs Hb.
    assert (H : updateCallbacks removed = before ++ after).
    { subst removed. unfold step. cbn. rewrite Hs.
      apply remove_first_split, Hb. }
    split; exact H. }
  split; [apply remove_first_count|].
  split; [apply remove_first_others|].
  split; [|split; [|split; reflexivity]].
  - intros H. subst removed. unfold step. cbn.
    rewrite (remove_first_absent f _ H). destruct s; reflexivity.
  - intros H. apply (remove_first_snoc f _ H).
Qed.

Lemma updateCallbacks_registration_witness :
  updateCallbacks
    (step (run [AddUpdateCallback (Some 1%nat); AddUpdateCallback (Some 2%nat);
                AddUpdateCallback (Some 1%nat)] Scene.viewer)
       (RemoveUpdateCallback (Some 1%nat)))
  = [2%nat; 1%nat]
  /\ updateCallbacks
       (step (step Scene.viewer (AddUpdateCallback (Some 7%nat)))
          (RemoveUpdateCallback (Some 7%nat)))
     = updateCallbacks Scene.viewer.
Proof.
  split.
  - destruct (updateCallbacks_registration
                (run [AddUpdateCallback (Some 1%nat);
                      AddUpdateCallback (Some 2%nat);
                      AddUpdateCallback (Some 1%nat)] Scene.viewer)
                1 1 [] [2%nat; 1%nat]) as (_ & _ & H & _).
    destruct H as [H _]; [reflexivity | intros [] | exact H].
  - destruct (updateCallbacks_registration Scene.viewer 7 7 [] [])
      as (_ & _ & _ & _ & _ & _ & H & _).
    apply H. intros [].
Defined.

(** ** Switching and cycling control schemes *)

(** The viewer after the assignments of [enableControl] that come before
    the camera is placed. *)
Definition reassigned (s : Viewer) (c0 j : nat) : Viewer :=
  set_controls
    (alter (set_enabled true) j (alter (set_enabled false) c0 (controls s)))
    (set_control (Some j)
       (set_controls (alter (set_enabled false) c0 (controls s)) s)).

(** [this.panorama.position] is read for these schemes only. *)
Definition places_camera (c : Control) : bool :=
  String.eqb (name c) "orbit" || String.eqb (name c) "device-orientation".

Lemma enableControl_without_panorama s index c0 cj :
  control s = Some c0 -> panorama s = None ->
  controls s !! clamped index s = Some cj ->
  enableControl index s =
  mkOutcome (if places_camera cj then Throw TypeError else Normal tt)
    (reassigned s c0 (clamped index s)) [].
Proof.
  intros Hc Hp Hj. unfold enableControl, reassigned, places_camera, bind. cbn.
  fold (clamped index s). rewrite Hc. cbn.
  rewrite list_lookup_alter, Hp.
  destruct (decide (c0 = clamped index s)) as [E|_]; [rewrite E|];
    rewrite Hj; cbn;
    destruct (String.eqb (name cj) "orbit"); cbn; try reflexivity;
    destruct (String.eqb (name cj) "device-orientation"); reflexivity.
Qed.

(** What a switch does to the list and to the reference, with or without
    a panorama. *)
Lemma enableControl_reassigns s index c0 :
  control s = Some c0 -> controls s <> [] ->
  control (final (enableControl index s)) = Some (clamped index s)
  /\ controls (final (enableControl index s)) =
     alter (set_enabled true) (clamped index s)
       (alter (set_enabled false) c0 (controls s))
  /\ panorama (final (enableControl index s)) = panorama s.
Proof.
  intros Hc Hne.
  destruct (lookup_lt_is_Some_2 (controls s) (clamped index s)
              (clamped_lt index s Hne)) as [cj Hj].
  destruct (panorama s) as [pano|] eqn:Hp.
  - rewrite (enableControl_outcome s index c0 pano cj Hc Hp Hj). cbn [final].
    destruct (switched_fields s c0 (clamped index s) cj pano)
      as (F1 & F2 & _ & F4 & _).
    rewrite F1, F2, F4. repeat split. exact Hp.
  - rewrite (enableControl_without_panorama s index c0 cj Hc Hp Hj).
    cbn [final]. repeat split. exact Hp.
Qed.

Lemma getNextControlIndex_mod s i :
  control s = Some i -> (i < length (controls s))%nat ->
  getNextControlIndex s = Z.of_nat ((i + 1) mod length (controls s))
  /\ clamped (getNextControlIndex s) s = ((i + 1) mod length (controls s))%nat.
Proof.
  intros Hc Hi.
  assert (Hn : getNextControlIndex s
               = Z.of_nat ((i + 1) mod length (controls s))).
  { unfold getNextControlIndex, indexOf_control. rewrite Hc.
    destruct (Z.of_nat i + 1 >=? Z.of_nat (length (controls s))) eqn:E.
    - rewrite Z.geb_leb in E. apply Z.leb_le in E.
      replace (i + 1)%nat with (length (controls s)) by lia.
      rewrite Nat.Div0.mod_same. reflexivity.
    - rewrite Z.geb_leb in E. apply Z.leb_gt in E.
      rewrite Nat.mod_small by lia. lia. }
  split; [exact Hn|].
  rewrite Hn, clamped_in_range, Nat2Z.id; [reflexivity|].
  split; [lia|]. apply inj_lt. apply Nat.mod_upper_bound. lia.
Qed.

Lemma toggleNextControl_next s i :
  control s = Some i -> (i < length (controls s))%nat ->
  control (step s ToggleNextControl) = Some ((i + 1) mod length (controls s))%nat
  /\ length (controls (step s ToggleNextControl)) = length (controls s)
  /\ panorama (step s ToggleNextControl) = panorama s.
Proof.
  intros Hc Hi. unfold step. cbn [handle]. unfold toggleNextControl.
  rewrite final_bind. cbn [get result final].
  assert (Hne : controls s <> []).
  { intros E. rewrite E in Hi. cbn in Hi. lia. }
  destruct (enableControl_reassigns s (getNextControlIndex s) i Hc Hne)
    as (F1 & F2 & F3).
  destruct (getNextControlIndex_mod s i Hc Hi) as [_ Hj].
  rewrite F1, F2, F3, Hj, !length_alter. repeat split.
Qed.

(** X5.  [toggleNextControl] makes the scheme after the active one active,
    and the first one after the last, whether a panorama is current or not
    and whether the call returns or throws; as many calls as there are
    schemes lead back to the scheme that was active. *)
Theorem toggleNextControl_cycles (s : Viewer) (i k : nat) :
  control s = Some i -> (i < length (controls s))%nat ->
  let n := length (controls s) in
  getNextControlIndex s = Z.of_nat ((i + 1) mod n)
  /\ control (step s ToggleNextControl) = Some ((i + 1) mod n)%nat
  /\ control (run (repeat ToggleNextControl k) s) = Some ((i + k) mod n)%nat
  /\ control (run (repeat ToggleNextControl n) s) = Some i.
Proof.
  intros Hc Hi n.
  split; [apply (getNextControlIndex_mod s i Hc Hi)|].
  split; [apply (toggleNextControl_next s i Hc Hi)|].
  assert (Hk : forall k s i, control s = Some i ->
             (i < length (controls s))%nat ->
             control (run (repeat ToggleNextControl k) s)
             = Some ((i + k) mod length (controls s))%nat).
  { clear. induction k as [|k IH]; intros s i Hc Hi.
    - cbn. rewrite Nat.add_0_r, Nat.mod_small by exact Hi. exact Hc.
    - cbn [repeat]. change (run (?x :: ?l) s) with (run l (step s x)).
      destruct (toggleNextControl_next s i Hc Hi) as (H1 & H2 & _).
      rewrite (IH _ _ H1); rewrite H2.
      + f_equal. rewrite Nat.Div0.add_mod_idemp_l. f_equal. lia.
      + apply Nat.mod_upper_bound. lia. }
  split; [apply (Hk k s i Hc Hi)|].
  rewrite (Hk n s i Hc Hi). subst n. f_equal.
  rewrite <- Nat.Div0.add_mod_idemp_r, Nat.Div0.mod_same, Nat.add_0_r.
  apply Nat.mod_small. exact Hi.
Qed.

Lemma toggleNextControl_cycles_witness :
  control (run (repeat ToggleNextControl 2) Scene.viewer) = Some 0%nat.
Proof.
  destruct (toggleNextControl_cycles Scene.viewer 0 0 eq_refl)
    as (_ & _ & _ & H).
  - cbn. lia.
  - exact H.
Defined.

(** X6.  Without a panorama, switching to a scheme named orbit or
    device-orientation throws, after the switch is made: the selected
    scheme is active and enabled, the one that was active is disabled, the
    camera is where it was.  Switching to a scheme of another name
    returns. *)
Theorem enableControl_before_any_panorama (s : Viewer) (index : Z)
    (c0 : nat) (cj : Control) :
  control s = Some c0 -> panorama s = None ->
  controls s !! clamped index s = Some cj ->
  let o := enableControl index s in
  result o = (if places_camera cj then Throw TypeError else Normal tt)
  /\ control (final o) = Some (clamped index s)
  /\ enabled <$> controls (final o) !! clamped index s = Some true
  /\ (c0 <> clamped index s -> (c0 < length (controls s))%nat ->
      enabled <$> controls (final o) !! c0 = Some false)
  /\ camera_position (final o) = camera_position s
  /\ effects o = [].
Proof.
  intros Hc Hp Hj o. subst o.
  rewrite (enableControl_without_panorama s index c0 cj Hc Hp Hj).
  cbn [result final effects]. unfold reassigned. cbn.
  repeat split.
  - apply enabled_after_switch. apply (lookup_lt_Some _ _ _ Hj).
  - intros Hne Hlt. apply disabled_after_switch; assumption.
Qed.

Lemma enableControl_before_any_panorama_witness :
  result (enableControl 1 Scene.viewer) = Throw TypeError
  /\ control (final (enableControl 1 Scene.viewer)) = Some 1%nat.
Proof.
  destruct (enableControl_before_any_panorama Scene.viewer 1 0
              (mkControl "device-orientation" true) eq_refl eq_refl eq_refl)
    as (H1 & H2 & _).
  split; [exact H1 | exact H2].
Defined.

(** Every scheme but the active one is disabled, and the active one is
    enabled. *)
Definition one_enabled (s : Viewer) : Prop :=
  forall k c, controls s !! k = Some c ->
    enabled c = if decide (control s = Some k) then true else false.

(** X7.  If the active scheme is the only enabled one, it is so again after
    a switch to any index and after [toggleNextControl], whether or not the
    call throws for want of a panorama. *)
Theorem enableControl_keeps_one_enabled (s : Viewer) (index : Z) (c0 : nat) :
  control s = Some c0 -> (c0 < length (controls s))%nat ->
  one_enabled s ->
  one_enabled (step s (EnableControl index))
  /\ one_enabled (step s ToggleNextControl).
Proof.
  intros Hc Hlt Hone.
  assert (Hne : controls s <> []).
  { intros E. rewrite E in Hlt. cbn in Hlt. lia. }
  assert (H : forall index, one_enabled (final (enableControl index s))).
  { intros ix k c.
    destruct (enableControl_reassigns s ix c0 Hc Hne) as (F1 & F2 & _).
    rewrite F1, F2, !list_lookup_alter.
    set (j := clamped ix s). clearbody j. intros Hk.
    destruct (decide (j = k)) as [Ejk|Njk].
    - subst k. rewrite decide_True by reflexivity.
      destruct (decide (c0 = j)) as [Ec|_]; [subst c0|];
        destruct (controls s !! j); cbn in Hk; inversion Hk; reflexivity.
    - rewrite decide_False by congruence.
      destruct (decide (c0 = k)) as [Ec|Nc].
      + subst k. destruct (controls s !! c0); cbn in Hk; inversion Hk;
          reflexivity.
      + rewrite (Hone k c Hk), Hc. apply decide_False. congruence. }
  split; [apply H|].
  unfold step. cbn [handle]. unfold toggleNextControl.
  rewrite final_bind. cbn [get result final]. apply H.
Qed.

Lemma enableControl_keeps_one_enabled_witness :
  one_enabled
    (step (set_controls [mkControl "orbit" true;
                         mkControl "device-orientation" false] Scene.viewer)
       (EnableControl 1)).
Proof.
  destruct (enableControl_keeps_one_enabled
              (set_controls [mkControl "orbit" true;
                             mkControl "device-orientation" false]
                 Scene.viewer) 1 0 eq_refl) as [H _].
  - cbn. lia.
  - intros [|[|k]] c; cbn; intros [= <-]; reflexivity.
  - exact H.
Defined.

(** ** onTap block by block *)

Lemma bind_unit {B} (m : M unit) (k : unit -> M B) s :
  total m ->
  bind m k s =
  mkOutcome (result (k tt (final (m s)))) (final (k tt (final (m s))))
    (effects (m s) ++ effects (k tt (final (m s)))).
Proof.
  intros Ht. pose proof (total_unit m s Ht) as Hr.
  destruct (m s) as [r s1 t1] eqn:E. cbn in Hr. subst r.
  rewrite (bind_Normal m k s tt s1 t1 E). reflexivity.
Qed.

(** What the release blocks send: the tracked object, when it is the one
    under the pointer and takes events. *)
Definition stopped (under tracked : option Object3D) (type : string)
    (event : PointerEvent) : list Effect :=
  match under, tracked with
  | Some i, Some p =>
      if same_object p i && dispatchEvent p then [Dispatch p type event]
      else []
  | _, _ => []
  end.

Lemma release_pressEntityObject_outcome event ie s :
  release_pressEntityObject event ie s =
  if is_mouse_type mouseup s
  then mkOutcome (Normal tt) (set_pressEntityObject None s)
         (stopped ie (pressEntityObject s) "pressstop-entity" event)
  else mkOutcome (Normal tt) s [].
Proof.
  unfold release_pressEntityObject, stopped, bind. cbn.
  destruct (is_mouse_type mouseup s); [|reflexivity]. cbn.
  destruct ie as [i|], (pressEntityObject s) as [p|]; try reflexivity.
  destruct (same_object p i && dispatchEvent p); reflexivity.
Qed.

Lemma release_pressObject_outcome event i s :
  release_pressObject event i s =
  if is_mouse_type mouseup s
  then mkOutcome (Normal tt) (set_pressObject None s)
         (stopped i (pressObject s) "pressstop" event)
  else mkOutcome (Normal tt) s [].
Proof.
  unfold release_pressObject, stopped, bind. cbn.
  destruct (is_mouse_type mouseup s); [|reflexivity]. cbn.
  destruct i as [i|], (pressObject s) as [p|]; try reflexivity.
  destruct (same_object p i && dispatchEvent p); reflexivity.
Qed.

Lemma dispatch_click_outcome pano event intersects ie i s :
  dispatch_click pano event intersects ie i s =
  mkOutcome (Normal tt) s
    ([PanoramaDispatch pano "click" intersects event]
     ++ fired ie "click-entity" event ++ fired i "click" event).
Proof.
  unfold dispatch_click, fired, fire, bind. cbn.
  destruct ie as [x|]; [destruct (dispatchEvent x)|]; cbn;
    (destruct i as [y|]; [destruct (dispatchEvent y)|]); reflexivity.
Qed.

Lemma start_press_outcome event t i s :
  let b1 := is_mouse_type mousedown s
            && negb (same_ref (pressEntityObject s) (Some t)) in
  let b2 := is_mouse_type mousedown s
            && negb (same_ref (pressObject s) (Some i)) in
  start_press event t (Some i) s =
  mkOutcome (Normal tt)
    (let s1 := if b1 then set_pressEntityObject (Some t) s else s in
     if b2 then set_pressObject (Some i) s1 else s1)
    ((if b1 then fired (Some t) "pressstart-entity" event else [])
     ++ (if b2 then fired (Some i) "pressstart" event else [])).
Proof.
  intros b1 b2. subst b1 b2.
  unfold start_press, fired, fire, bind, is_mouse_type.
  destruct (mouse_type (userMouse s)) eqn:Hm;
    destruct (negb (same_ref (pressEntityObject s) (Some t))) eqn:E1;
    destruct (negb (same_ref (pressObject s) (Some i))) eqn:E2;
    destruct (dispatchEvent t) eqn:D1; destruct (dispatchEvent i) eqn:D2;
    repeat (cbn; rewrite ?Hm, ?E1, ?E2, ?D1, ?D2); reflexivity.
Qed.

Lemma move_press_outcome event s :
  move_press event s =
  mkOutcome (Normal tt) s
    (if is_mouse_type mousemove s
     then fired (pressEntityObject s) "pressmove-entity" event
          ++ fired (pressObject s) "pressmove" event
     else []).
Proof.
  destruct (is_mouse_type mousemove s) eqn:E;
    [apply move_press_moving, E|].
  unfold move_press, bind. cbn. rewrite E. reflexivity.
Qed.

(** The nearest intersection, when it is on an infospot. *)
Definition nearest_infospot (intersects : list Intersection)
  : option (Object3D * InfospotHandlers) :=
  match intersects with
  | i0 :: _ =>
      match infospot (object i0) with
      | Some h => Some (object i0, h)
      | None => None
      end
  | [] => None
  end.

Lemma hover_infospot_outcome event type intersects s :
  hover_infospot event type intersects s =
  match nearest_infospot intersects with
  | Some (o, h) =>
      mkOutcome (Normal (is_click type && onClick h))
        (if onHover h
         then set_cursor "pointer" (set_hoveringObject (Some o) s) else s)
        ((if onHover h then [OnHover o (clientX event) (clientY event)] else [])
         ++ (if is_click type && onClick h then [OnClick o] else []))
  | None =>
      mkOutcome (Normal false)
        (match hoveringObject s with
         | Some _ => set_hoveringObject None (set_cursor "default" s)
         | None => set_cursor "default" s
         end)
        (match hoveringObject s with
         | Some o => [OnHoverEnd o]
         | None => []
         end)
  end.
Proof.
  unfold hover_infospot, nearest_infospot, hideHoveringObject, bind.
  destruct intersects as [|i0 rest]; cbn.
  - destruct (hoveringObject s); reflexivity.
  - destruct (infospot (object i0)) as [h|]; cbn.
    + destruct (onHover h); cbn; destruct (is_click type && onClick h);
        reflexivity.
    + destruct (hoveringObject s); reflexivity.
Qed.

(** [onTap] with a panorama: the blocks one after the other. *)
Lemma onTap_sequence event type rc pano s :
  panorama s = Some pano ->
  let intersects := children_hits rc in
  let ie := getConvertedIntersect intersects in
  let i := object <$> head intersects in
  let s1 := final (release_pressEntityObject event ie s) in
  let s2 := final (release_pressObject event i s1) in
  let d := if is_click type
           then dispatch_click pano event intersects ie i
           else dispatch_hover pano event intersects ie i in
  let s3 := final (d s2) in
  onTap event type rc s =
  mkOutcome (result (hover_infospot event type intersects s3))
    (final (hover_infospot event type intersects s3))
    ((if DEBUG s && nonempty (panorama_hits rc) then [ConsoleInfo] else [])
     ++ effects (release_pressEntityObject event ie s)
     ++ effects (release_pressObject event i s1)
     ++ effects (d s2)
     ++ effects (hover_infospot event type intersects s3)).
Proof.
  intros Hp intersects ie i s1 s2 d s3. unfold onTap.
  rewrite (bind_Normal _ _ s s s []) by reflexivity.
  cbn [result final effects app]. rewrite Hp. cbv zeta.
  fold intersects. fold ie. fold i.
  rewrite (bind_Normal _ _ s tt s
             (if DEBUG s && nonempty (panorama_hits rc)
              then [ConsoleInfo] else []))
    by (destruct (DEBUG s && nonempty (panorama_hits rc)); reflexivity).
  cbn [result final effects].
  rewrite bind_unit by apply release_pressEntityObject_total.
  cbn [result final effects]. fold s1.
  rewrite bind_unit by apply release_pressObject_total.
  cbn [result final effects]. fold s2.
  change (if is_click type
          then dispatch_click pano event intersects ie i
          else dispatch_hover pano event intersects ie i) with d.
  rewrite bind_unit
    by (subst d i; destruct (is_click type);
        [apply dispatch_click_total | apply dispatch_hover_total]).
  cbn [result final effects]. fold s3. reflexivity.
Qed.

(** The branch that is not a click, over a resolved target: the blocks
    one after the other. *)
Lemma dispatch_hover_sequence pano event i0 rest t s :
  let intersects := i0 :: rest in
  let s1 := final (leave_hoverObject event intersects (Some t) s) in
  let s2 := final (enter_hoverObject event t s1) in
  let s3 := final (start_press event t (Some (object i0)) s2) in
  dispatch_hover pano event intersects (Some t) (Some (object i0)) s =
  mkOutcome (Normal tt) s3
    ([PanoramaDispatch pano "hover" intersects event]
     ++ effects (leave_hoverObject event intersects (Some t) s)
     ++ effects (enter_hoverObject event t s1)
     ++ effects (start_press event t (Some (object i0)) s2)
     ++ effects (move_press event s3)).
Proof.
  cbv zeta. unfold dispatch_hover.
  rewrite (bind_Normal _ _ s tt s
             [PanoramaDispatch pano "hover" (i0 :: rest) event])
    by reflexivity.
  cbn [result final effects].
  rewrite bind_unit by apply leave_hoverObject_total.
  cbn [result final effects nonempty when].
  rewrite bind_unit by apply enter_hoverObject_total.
  cbn [result final effects].
  rewrite bind_unit by apply start_press_total.
  cbn [result final effects].
  rewrite move_press_outcome. reflexivity.
Qed.

(** The same branch over nothing that resolves. *)
Lemma dispatch_hover_unresolved pano event intersects i s :
  dispatch_hover pano event intersects None i s =
  mkOutcome (Normal tt)
    (final (leave_hoverObject event intersects None s))
    ([PanoramaDispatch pano "hover" intersects event]
     ++ effects (leave_hoverObject event intersects None s)).
Proof.
  unfold dispatch_hover.
  rewrite (bind_Normal _ _ s tt s [PanoramaDispatch pano "hover" intersects event])
    by reflexivity.
  cbn [result final effects].
  rewrite bind_unit by apply leave_hoverObject_total.
  cbn [ret result final effects]. rewrite app_nil_r. reflexivity.
Qed.

(** ** The handlers step by step *)

(** What [onTap] returns: whether an infospot took the click. *)
Definition consumed (type : option TapType) (rc : RayCast) (s : Viewer)
  : bool :=
  match panorama s, nearest_infospot (children_hits rc) with
  | Some _, Some (_, h) => is_click type && onClick h
  | _, _ => false
  end.

Lemma onTap_result event type rc s :
  result (onTap event type rc s) = Normal (consumed type rc s).
Proof.
  unfold consumed. destruct (panorama s) as [pano|] eqn:Hp.
  - rewrite (onTap_sequence event type rc pano s Hp). cbn [result].
    rewrite hover_infospot_outcome.
    destruct (nearest_infospot (children_hits rc)) as [[o h]|]; reflexivity.
  - rewrite (onTap_no_panorama event type rc s Hp). reflexivity.
Qed.

Lemma onTap_keeps_options_panorama v event type rc :
  keeps (fun s => (options s, panorama s) = v) (onTap event type rc).
Proof.
  unfold onTap, release_pressEntityObject, release_pressObject,
    dispatch_click, dispatch_hover, hover_infospot, leave_hoverObject,
    enter_hoverObject, start_press, move_press, hideHoveringObject.
  cbv zeta. repeat method_step; auto.
Qed.

(** What [onMouseUp] does after [onTap], given what [onTap] returned. *)
Definition hidden_after_click (b : bool) (type : option TapType) (s : Viewer)
  : list Effect :=
  if negb b && is_click type && autoHideInfospot (options s)
  then match panorama s with
       | Some p => [ToggleChildrenVisibility p]
       | None => []
       end
  else [].

Lemma onMouseUp_sequence event rc type s :
  off_canvas event = false ->
  click_type (set_mouse_type mouseup (userMouse s))
    (clickTolerance (options s)) event = Normal type ->
  let s1 := set_userMouse (set_mouse_type mouseup (userMouse s)) s in
  let tap := onTap (tap_event event) type rc s1 in
  let b := consumed type rc s in
  onMouseUp event rc s =
  mkOutcome
    (if negb b && is_click type && autoHideControlBar (options s)
     then Throw ReferenceError else Normal tt)
    (set_userMouse (set_mouse_type none (userMouse (final tap))) (final tap))
    ([PreventDefault] ++ effects tap ++ hidden_after_click b type s).
Proof.
  intros Hoff Hty s1 tap b. unfold onMouseUp.
  rewrite (bind_Normal _ _ s tt s1 []) by reflexivity.
  rewrite (bind_Normal _ _ s1 s1 s1 []) by reflexivity.
  cbn [result final effects app].
  change (userMouse s1) with (set_mouse_type mouseup (userMouse s)).
  change (options s1) with (options s).
  rewrite Hty.
  rewrite (bind_Normal _ _ s1 type s1 []) by reflexivity.
  cbn [result final effects app]. rewrite Hoff.
  replace (match changedTouches event with
           | Some [t] =>
               onTap (mkPointerEvent (Some (touch_clientX t))
                        (Some (touch_clientY t)) None None None) type rc
           | _ => onTap event type rc
           end) with (onTap (tap_event event) type rc)
    by (unfold tap_event;
        destruct (changedTouches event) as [[|t [|t' ts]]|]; reflexivity).
  rewrite (bind_Normal _ _ s1 tt s1 [PreventDefault]) by reflexivity.
  cbn [result final effects].
  pose proof (onTap_result (tap_event event) type rc s1) as Hr.
  change (consumed type rc s1) with b in Hr.
  pose proof (onTap_keeps_options_panorama (options s, panorama s)
                (tap_event event) type rc s1 eq_refl) as Hk.
  fold tap in Hr, Hk. injection Hk as Ho Hp.
  destruct tap as [r sf ef] eqn:Etap. cbn [result final effects] in *.
  subst r.
  rewrite (bind_Normal _ _ s1 b sf ef Etap).
  cbn [result final effects].
  set (s2 := set_userMouse (set_mouse_type none (userMouse sf)) sf).
  rewrite (bind_Normal _ _ sf tt s2 []) by reflexivity.
  cbn [result final effects app]. unfold hidden_after_click.
  rewrite <- Ho, <- Hp.
  destruct b; cbn [negb andb]; [cbn; rewrite app_nil_r; reflexivity|].
  destruct (is_click type); cbn [when andb];
    [|cbn; rewrite app_nil_r; reflexivity].
  unfold bind. cbn.
  change (options s2) with (options sf). change (panorama s2) with (panorama sf).
  destruct (autoHideInfospot (options sf)); cbn;
    [destruct (panorama sf); cbn|];
    destruct (autoHideControlBar (options sf)); cbn;
    rewrite ?app_nil_r; reflexivity.
Qed.

(** [( event.clientX ) ? event.clientX : event.touches[0].clientX] when it
    has a value. *)
Definition recorded (c : option Z) (ts : option (list Touch))
    (of_touch : Touch -> Z) : option Z :=
  match c, ts with
  | Some v, Some (t :: _) => Some (if v =? 0 then of_touch t else v)
  | Some v, _ => if v =? 0 then None else Some v
  | None, Some (t :: _) => Some (of_touch t)
  | None, _ => None
  end.

Lemma down_coordinate_outcome c ts of_touch s :
  down_coordinate c ts of_touch s =
  match recorded c ts of_touch with
  | Some v => mkOutcome (Normal v) s []
  | None => mkOutcome (Throw TypeError) s []
  end.
Proof.
  unfold down_coordinate, recorded.
  destruct c as [v|]; [destruct (v =? 0)|]; cbn;
    destruct ts as [[|t l]|]; reflexivity.
Qed.

Lemma onMouseDown_sequence event rc s :
  onMouseDown event rc s =
  match recorded (clientX event) (touches event) touch_clientX,
        recorded (clientY event) (touches event) touch_clientY with
  | Some x, Some y =>
      let tap :=
        onTap event None rc (set_userMouse (mkUserMouse x y mousedown) s) in
      mkOutcome (Normal tt) (final tap) ([PreventDefault] ++ effects tap)
  | Some x, None =>
      mkOutcome (Throw TypeError)
        (set_userMouse (set_mouse_x x (userMouse s)) s) [PreventDefault]
  | None, _ => mkOutcome (Throw TypeError) s [PreventDefault]
  end.
Proof.
  unfold onMouseDown.
  rewrite (bind_Normal _ _ s tt s [PreventDefault]) by reflexivity.
  cbn [result final effects].
  destruct (recorded (clientX event) (touches event) touch_clientX)
    as [x|] eqn:Ex.
  - rewrite (bind_Normal _ _ s x s [])
      by (rewrite down_coordinate_outcome, Ex; reflexivity).
    cbn [result final effects].
    set (sx := set_userMouse (set_mouse_x x (userMouse s)) s).
    rewrite (bind_Normal _ _ s tt sx []) by reflexivity.
    cbn [result final effects].
    destruct (recorded (clientY event) (touches event) touch_clientY)
      as [y|] eqn:Ey.
    + rewrite (bind_Normal _ _ sx y sx [])
        by (rewrite down_coordinate_outcome, Ey; reflexivity).
      cbn [result final effects].
      rewrite (bind_Normal _ _ sx tt
                 (set_userMouse (set_mouse_y y (userMouse sx)) sx) [])
        by reflexivity.
      cbn [result final effects].
      rewrite (bind_Normal _ _ _ tt
                 (set_userMouse (mkUserMouse x y mousedown) s) [])
        by reflexivity.
      cbn [result final effects app].
      destruct (onTap event None rc
                  (set_userMouse (mkUserMouse x y mousedown) s))
        as [r sf ef] eqn:Etap.
      pose proof (onTap_result event None rc
                    (set_userMouse (mkUserMouse x y mousedown) s)) as Hr.
      rewrite Etap in Hr. cbn in Hr. subst r.
      rewrite (bind_Normal _ _ _ _ sf ef Etap). cbn.
      rewrite app_nil_r. reflexivity.
    + rewrite (bind_Throw _ _ sx TypeError sx [])
        by (rewrite down_coordinate_outcome, Ey; reflexivity).
      reflexivity.
  - rewrite (bind_Throw _ _ s TypeError s [])
      by (rewrite down_coordinate_outcome, Ex; reflexivity).
    reflexivity.
Qed.

Lemma onMouseMove_sequence event rc s :
  let tap :=
    onTap event None rc
      (set_userMouse (set_mouse_type mousemove (userMouse s)) s) in
  onMouseMove event rc s =
  mkOutcome (Normal tt) (final tap) ([PreventDefault] ++ effects tap).
Proof.
  intros tap. unfold onMouseMove.
  rewrite (bind_Normal _ _ s tt s [PreventDefault]) by reflexivity.
  cbn [result final effects].
  rewrite (bind_Normal _ _ s tt
             (set_userMouse (set_mouse_type mousemove (userMouse s)) s) [])
    by reflexivity.
  cbn [result final effects app].
  pose proof (onTap_result event None rc
                (set_userMouse (set_mouse_type mousemove (userMouse s)) s))
    as Hr.
  fold tap in Hr |- *. destruct tap as [r sf ef] eqn:Etap. cbn in Hr. subst r.
  rewrite (bind_Normal _ _ _ _ sf ef Etap). cbn.
  rewrite app_nil_r. reflexivity.
Qed.

(** ** The press events *)

Definition is_press_type (type : string) : bool :=
  existsb (String.eqb type)
    ["pressstart-entity"; "pressstart"; "pressmove-entity"; "pressmove";
     "pressstop-entity"; "pressstop"]%string.

(** The press events among some effects, each with its object. *)
Definition press_entry (e : Effect) : list (string * Object3D) :=
  match e with
  | Dispatch on type _ => if is_press_type type then [(type, on)] else []
  | _ => []
  end.

Definition press_log (l : list Effect) : list (string * Object3D) :=
  flat_map press_entry l.

(** What the press state machine reads and writes. *)
Definition press_view (s : Viewer) :=
  (userMouse s, pressEntityObject s, pressObject s).

Definition stopped_log (under tracked : option Object3D) (type : string)
  : list (string * Object3D) :=
  match under, tracked with
  | Some i, Some p =>
      if same_object p i && dispatchEvent p then [(type, p)] else []
  | _, _ => []
  end.

Lemma press_log_app l1 l2 : press_log (l1 ++ l2) = press_log l1 ++ press_log l2.
Proof. apply flat_map_app. Qed.

Lemma press_log_fired o type event :
  press_log (fired o type event) =
  if is_press_type type then fired_log o type else [].
Proof.
  unfold fired, fired_log, press_log. destruct o as [x|].
  - destruct (dispatchEvent x); cbn [flat_map press_entry];
      destruct (is_press_type type); reflexivity.
  - destruct (is_press_type type); reflexivity.
Qed.

Lemma press_log_stopped under tracked type event :
  is_press_type type = true ->
  press_log (stopped under tracked type event) = stopped_log under tracked type.
Proof.
  intros H. unfold stopped, stopped_log.
  destruct under as [i|], tracked as [p|]; try reflexivity.
  destruct (same_object p i && dispatchEvent p); [|reflexivity].
  unfold press_log. cbn [flat_map press_entry]. rewrite H. reflexivity.
Qed.

Lemma press_log_leave event intersects ie s :
  press_log (effects (leave_hoverObject event intersects ie s)) = [].
Proof.
  rewrite leave_hoverObject_outcome. cbn [effects].
  destruct (leaves _ _ _); [|reflexivity].
  destruct (hoverObject s) as [h|]; [|reflexivity].
  destruct (dispatchEvent h); reflexivity.
Qed.

Lemma press_log_enter event t s :
  press_log (effects (enter_hoverObject event t s)) = [].
Proof.
  rewrite enter_hoverObject_outcome. cbn [effects].
  destruct (_ && _); reflexivity.
Qed.

Lemma press_log_infospot event type intersects s :
  press_log (effects (hover_infospot event type intersects s)) = []
  /\ press_view (final (hover_infospot event type intersects s)) = press_view s.
Proof.
  rewrite hover_infospot_outcome.
  destruct (nearest_infospot intersects) as [[o h]|]; cbn [effects final].
  - destruct (onHover h), (is_click type && onClick h); split; reflexivity.
  - destruct (hoveringObject s); split; reflexivity.
Qed.

Lemma press_view_leave event intersects ie s :
  press_view (final (leave_hoverObject event intersects ie s)) = press_view s.
Proof.
  rewrite leave_hoverObject_outcome. cbn [final].
  destruct (leaves _ _ _); reflexivity.
Qed.

Lemma press_view_enter event t s :
  press_view (final (enter_hoverObject event t s)) = press_view s.
Proof.
  rewrite enter_hoverObject_outcome. cbn [final].
  destruct (negb _); reflexivity.
Qed.

(** The press events and the press state of [start_press] and of
    [move_press] are a matter of the press state alone. *)
Lemma start_press_view event t i s s' :
  press_view s = press_view s' ->
  effects (start_press event t (Some i) s)
  = effects (start_press event t (Some i) s')
  /\ press_view (final (start_press event t (Some i) s))
     = press_view (final (start_press event t (Some i) s')).
Proof.
  unfold press_view. intros [= Hu He Ho].
  rewrite !start_press_outcome. cbn [effects final]. unfold is_mouse_type.
  rewrite Hu, He, Ho.
  destruct (match mouse_type (userMouse s') with mousedown => true | _ => false end);
    cbn [andb]; [|split; [reflexivity | cbn; congruence]].
  destruct (negb (same_ref (pressEntityObject s') (Some t))),
    (negb (same_ref (pressObject s') (Some i)));
    split; try reflexivity; cbn; congruence.
Qed.

Lemma move_press_view event s s' :
  press_view s = press_view s' ->
  effects (move_press event s) = effects (move_press event s').
Proof.
  unfold press_view. intros [= Hu He Ho].
  rewrite !move_press_outcome. cbn [effects]. unfold is_mouse_type.
  rewrite Hu, He, Ho. reflexivity.
Qed.

(** The press events and press state of the branch that is not a click
    are those of [start_press] and [move_press] on the press state the
    branch starts from, and none when nothing is resolved. *)
Lemma dispatch_hover_press pano event intersects ie s :
  let o := dispatch_hover pano event intersects ie
             (object <$> head intersects) s in
  match ie, intersects with
  | Some t, i0 :: _ =>
      let sp := start_press event t (Some (object i0)) s in
      press_log (effects o)
      = press_log (effects sp) ++ press_log (effects (move_press event (final sp)))
      /\ press_view (final o) = press_view (final sp)
  | _, _ => press_log (effects o) = [] /\ press_view (final o) = press_view s
  end.
Proof.
  cbv zeta. destruct ie as [t|].
  - destruct intersects as [|i0 rest].
    + unfold dispatch_hover.
      rewrite (bind_Normal _ _ s tt s [PanoramaDispatch pano "hover" [] event])
        by reflexivity.
      rewrite bind_unit by apply leave_hoverObject_total.
      cbn [result final effects nonempty when ret]. rewrite app_nil_r.
      rewrite press_log_app, press_log_leave.
      split; [reflexivity|]. apply press_view_leave.
    + cbn [head fmap option_fmap option_map].
      rewrite dispatch_hover_sequence. cbn [effects final].
      set (s1 := final (leave_hoverObject event (i0 :: rest) (Some t) s)).
      set (s2 := final (enter_hoverObject event t s1)).
      assert (Hv : press_view s2 = press_view s).
      { subst s2 s1. rewrite press_view_enter. apply press_view_leave. }
      destruct (start_press_view event t (object i0) s2 s Hv) as [He Hf].
      rewrite !press_log_app, press_log_leave, press_log_enter, He.
      rewrite (move_press_view event _ _ Hf).
      split; [reflexivity | exact Hf].
  - rewrite dispatch_hover_unresolved. cbn [effects final].
    rewrite press_log_app, press_log_leave.
    split; [reflexivity|]. apply press_view_leave.
Qed.

Lemma dispatch_click_press pano event intersects ie i s :
  press_log (effects (dispatch_click pano event intersects ie i s)) = []
  /\ final (dispatch_click pano event intersects ie i s) = s.
Proof.
  rewrite dispatch_click_outcome. cbn [effects final].
  rewrite !press_log_app, !press_log_fired. split; reflexivity.
Qed.

(** The press events and the press state of [onTap]: those of the two
    release blocks and of the branch taken. *)
Lemma onTap_press event type rc pano s :
  panorama s = Some pano ->
  let intersects := children_hits rc in
  let ie := getConvertedIntersect intersects in
  let i := object <$> head intersects in
  let s1 := final (release_pressEntityObject event ie s) in
  let s2 := final (release_pressObject event i s1) in
  let d := if is_click type
           then dispatch_click pano event intersects ie i
           else dispatch_hover pano event intersects ie i in
  press_log (effects (onTap event type rc s))
  = press_log (effects (release_pressEntityObject event ie s))
    ++ press_log (effects (release_pressObject event i s1))
    ++ press_log (effects (d s2))
  /\ press_view (final (onTap event type rc s)) = press_view (final (d s2)).
Proof.
  intros Hp intersects ie i s1 s2 d.
  rewrite (onTap_sequence event type rc pano s Hp). cbn [effects final].
  fold intersects. fold ie. fold i. fold s1. fold s2. fold d.
  destruct (press_log_infospot event type intersects (final (d s2)))
    as [Hl Hv].
  rewrite !press_log_app, Hl, app_nil_r.
  split; [|exact Hv].
  destruct (DEBUG s && nonempty (panorama_hits rc)); reflexivity.
Qed.

Lemma dispatch_press_quiet pano event type intersects ie s :
  is_mouse_type mousedown s = false -> is_mouse_type mousemove s = false ->
  let d := if is_click type
           then dispatch_click pano event intersects ie
                  (object <$> head intersects)
           else dispatch_hover pano event intersects ie
                  (object <$> head intersects) in
  press_log (effects (d s)) = [] /\ press_view (final (d s)) = press_view s.
Proof.
  intros Hd Hm. cbv zeta. destruct (is_click type).
  - destruct (dispatch_click_press pano event intersects ie
                (object <$> head intersects) s) as [H1 H2].
    rewrite H1, H2. split; reflexivity.
  - pose proof (dispatch_hover_press pano event intersects ie s) as H.
    cbv zeta in H.
    destruct ie as [t|]; [|exact H].
    destruct intersects as [|i0 rest]; [exact H|].
    destruct H as [Hl Hv]. rewrite Hl, Hv.
    rewrite start_press_outcome. cbv zeta. rewrite Hd. cbn [andb effects final app].
    rewrite move_press_outcome, Hm. split; reflexivity.
Qed.

Lemma press_log_hidden b type s :
  press_log (hidden_after_click b type s) = [].
Proof.
  unfold hidden_after_click.
  destruct (_ && _); [destruct (panorama s)|]; reflexivity.
Qed.

(** X8.  A release on the render surface, with a panorama current, sends
    [pressstop-entity] to the tracked press entity exactly when the entity
    resolved under the pointer is that entity, and [pressstop] to the
    tracked press primitive exactly when the nearest intersected primitive
    is that primitive, each once and only to an object that takes events;
    it starts and moves no press. *)
Theorem onMouseUp_press_stop (s : Viewer) (event : PointerEvent)
    (rc : RayCast) (pano : Panorama) (type : option TapType) :
  panorama s = Some pano -> off_canvas event = false ->
  click_type (set_mouse_type mouseup (userMouse s))
    (clickTolerance (options s)) event = Normal type ->
  let ie := getConvertedIntersect (children_hits rc) in
  let i := object <$> head (children_hits rc) in
  let log := press_log (effects (handle (MouseUp event rc) s)) in
  log = stopped_log ie (pressEntityObject s) "pressstop-entity"
        ++ stopped_log i (pressObject s) "pressstop"
  /\ (forall pe, pressEntityObject s = Some pe -> dispatchEvent pe = true ->
      (In ("pressstop-entity"%string, pe) log
       <-> same_ref (Some pe) ie = true))
  /\ (forall p, pressObject s = Some p -> dispatchEvent p = true ->
      (In ("pressstop"%string, p) log <-> same_ref (Some p) i = true)).
Proof.
  intros Hp Hoff Hty ie i log.
  assert (Hlog : log = stopped_log ie (pressEntityObject s) "pressstop-entity"
                       ++ stopped_log i (pressObject s) "pressstop").
  { subst log. cbn [handle].
    rewrite (onMouseUp_sequence event rc type s Hoff Hty). cbn [effects].
    set (s1 := set_userMouse (set_mouse_type mouseup (userMouse s)) s).
    rewrite !press_log_app.
    destruct (onTap_press (tap_event event) type rc pano s1 Hp) as [Hl _].
    rewrite Hl. fold ie. fold i.
    rewrite release_pressEntityObject_outcome.
    change (is_mouse_type mouseup s1) with true. cbn [effects final].
    rewrite release_pressObject_outcome.
    change (is_mouse_type mouseup (set_pressEntityObject None s1)) with true.
    cbn [effects final].
    destruct (dispatch_press_quiet pano (tap_event event) type
                (children_hits rc) ie
                (set_pressObject None (set_pressEntityObject None s1))
                eq_refl eq_refl) as [Hq _].
    fold i in Hq. rewrite Hq.
    rewrite !press_log_stopped by reflexivity.
    rewrite press_log_hidden.
    cbn [press_log flat_map press_entry app]. rewrite !app_nil_r. reflexivity. }
  split; [exact Hlog|]. rewrite Hlog. split.
  - intros pe Hpe Hd. rewrite Hpe. unfold stopped_log.
    destruct ie as [t|]; cbn [same_ref].
    + rewrite Hd, andb_true_r. destruct (same_object pe t) eqn:E.
      * split; [reflexivity|]. intros _. left. reflexivity.
      * split; [|discriminate]. cbn [app].
        destruct i as [x|], (pressObject s) as [p|]; cbn; try tauto.
        destruct (same_object p x && dispatchEvent p); cbn;
          intros H; [destruct H as [[=]|[]] | destruct H].
    + split; [|discriminate]. cbn [app].
      destruct i as [x|], (pressObject s) as [p|]; cbn; try tauto.
      destruct (same_object p x && dispatchEvent p); cbn;
        intros H; [destruct H as [[=]|[]] | destruct H].
  - intros p Hpo Hd. rewrite Hpo. unfold stopped_log.
    assert (Hfront : forall q,
              ~ In ("pressstop"%string, q)
                  match ie, pressEntityObject s with
                  | Some a, Some b =>
                      if same_object b a && dispatchEvent b
                      then [("pressstop-entity"%string, b)] else []
                  | _, _ => []
                  end).
    { intros q. destruct ie as [a|], (pressEntityObject s) as [b|];
        try (intros []).
      destruct (same_object b a && dispatchEvent b);
        intros H; [destruct H as [[=]|[]] | destruct H]. }
    destruct i as [x|]; cbn [same_ref].
    + rewrite Hd, andb_true_r. destruct (same_object p x) eqn:E.
      * split; [reflexivity|]. intros _. apply in_or_app. right. left.
        reflexivity.
      * split; [|discriminate]. rewrite app_nil_r. intros H.
        exfalso. exact (Hfront p H).
    + split; [|discriminate]. rewrite app_nil_r. intros H.
      exfalso. exact (Hfront p H).
Qed.

Lemma onMouseUp_press_stop_witness :
  press_log
    (effects (handle (MouseUp (Scene.at_ 300 400 Scene.canvas)
                        (Scene.over [Scene.face])) Scene.pressed))
  = [("pressstop-entity"%string, Scene.button); ("pressstop"%string, Scene.face)].
Proof.
  destruct (onMouseUp_press_stop Scene.pressed (Scene.at_ 300 400 Scene.canvas)
              (Scene.over [Scene.face]) Scene.pano None eq_refl eq_refl
              eq_refl) as (H & _).
  exact H.
Defined.

(** X9.  A mouse move never changes the press entity or the press
    primitive and neither starts nor stops a press: the press events of a
    move are the two press moves of the tracked objects that take events
    when a panorama is current and a target is resolved, and none
    otherwise. *)
Theorem onMouseMove_press_sticky (s : Viewer) (event : PointerEvent)
    (rc : RayCast) :
  pressEntityObject (step s (MouseMove event rc)) = pressEntityObject s
  /\ pressObject (step s (MouseMove event rc)) = pressObject s
  /\ press_log (effects (handle (MouseMove event rc) s))
     = match panorama s, getConvertedIntersect (children_hits rc) with
       | Some _, Some _ =>
           fired_log (pressEntityObject s) "pressmove-entity"
           ++ fired_log (pressObject s) "pressmove"
       | _, _ => []
       end.
Proof.
  unfold step. cbn [handle]. rewrite onMouseMove_sequence.
  cbn [effects final].
  set (s1 := set_userMouse (set_mouse_type mousemove (userMouse s)) s).
  destruct (panorama s) as [pano|] eqn:Hp.
  - destruct (onTap_press event None rc pano s1 Hp) as [Hl Hv].
    rewrite !release_pressEntityObject_outcome in Hl, Hv.
    change (is_mouse_type mouseup s1) with false in Hl, Hv.
    cbn [effects final] in Hl, Hv.
    rewrite !release_pressObject_outcome in Hl, Hv.
    change (is_mouse_type mouseup s1) with false in Hl, Hv.
    cbn [effects final is_click app] in Hl, Hv.
    pose proof (dispatch_hover_press pano event (children_hits rc)
                  (getConvertedIntersect (children_hits rc)) s1) as Hd.
    cbv zeta in Hd.
    rewrite press_log_app, Hl. cbn [press_log flat_map press_entry app].
    fold (press_log (effects
            (dispatch_hover pano event (children_hits rc)
               (getConvertedIntersect (children_hits rc))
               (object <$> head (children_hits rc)) s1))).
    destruct (getConvertedIntersect (children_hits rc)) as [t|] eqn:Ht.
    + pose proof (getConvertedIntersect_nonempty _ _ Ht) as Hne.
      destruct (children_hits rc) as [|i0 rest]; [discriminate|].
      destruct Hd as [Hdl Hdv]. rewrite Hdl.
      rewrite Hdv in Hv. rewrite start_press_outcome in Hv |- *.
      cbv zeta in Hv |- *.
      change (is_mouse_type mousedown s1) with false in Hv |- *.
      cbn [andb effects final app] in Hv |- *.
      rewrite move_press_outcome.
      change (is_mouse_type mousemove s1) with true. cbn [effects].
      rewrite press_log_app, !press_log_fired.
      injection Hv as _ He Ho. repeat split; assumption.
    + destruct Hd as [Hdl Hdv]. rewrite Hdl. rewrite Hdv in Hv.
      injection Hv as _ He Ho. repeat split; assumption.
  - rewrite (onTap_no_panorama event None rc s1 Hp). repeat split.
Qed.

(** X10.  A press whose position can be read, with a panorama current
    and a target resolved under the pointer, makes the resolved entity the
    press entity and the nearest intersected primitive the press primitive
    (the nearest primitive as it is, pass-through or not), sending
    [pressstart-entity] and [pressstart] to each only when it was not
    tracked already; a press over nothing that resolves keeps the press
    entity and primitive of before and sends no press event.  The
    position and the gesture type are recorded in both cases. *)
Theorem onMouseDown_press_start (s : Viewer) (event : PointerEvent)
    (rc : RayCast) (pano : Panorama) (x y : Z) :
  panorama s = Some pano ->
  recorded (clientX event) (touches event) touch_clientX = Some x ->
  recorded (clientY event) (touches event) touch_clientY = Some y ->
  let s' := step s (MouseDown event rc) in
  let log := press_log (effects (handle (MouseDown event rc) s)) in
  userMouse s' = mkUserMouse x y mousedown
  /\ (forall t i0 rest,
        children_hits rc = i0 :: rest ->
        getConvertedIntersect (i0 :: rest) = Some t ->
        pressEntityObject s'
        = (if same_ref (pressEntityObject s) (Some t)
           then pressEntityObject s else Some t)
        /\ pressObject s'
           = (if same_ref (pressObject s) (Some (object i0))
              then pressObject s else Some (object i0))
        /\ log = (if same_ref (pressEntityObject s) (Some t) then []
                  else fired_log (Some t) "pressstart-entity")
                 ++ (if same_ref (pressObject s) (Some (object i0)) then []
                     else fired_log (Some (object i0)) "pressstart"))
  /\ (getConvertedIntersect (children_hits rc) = None ->
      pressEntityObject s' = pressEntityObject s
      /\ pressObject s' = pressObject s /\ log = []).
Proof.
  intros Hp Hx Hy s' log. subst s' log. unfold step. cbn [handle].
  rewrite onMouseDown_sequence, Hx, Hy. cbv zeta. cbn [effects final].
  set (s1 := set_userMouse (mkUserMouse x y mousedown) s).
  destruct (onTap_press event None rc pano s1 Hp) as [Hl Hv].
  rewrite !release_pressEntityObject_outcome in Hl, Hv.
  change (is_mouse_type mouseup s1) with false in Hl, Hv.
  cbn [effects final] in Hl, Hv.
  rewrite !release_pressObject_outcome in Hl, Hv.
  change (is_mouse_type mouseup s1) with false in Hl, Hv.
  cbn [effects final is_click app] in Hl, Hv.
  pose proof (dispatch_hover_press pano event (children_hits rc)
                (getConvertedIntersect (children_hits rc)) s1) as Hd.
  cbv zeta in Hd.
  rewrite press_log_app, Hl. cbn [press_log flat_map press_entry app].
  fold (press_log (effects
          (dispatch_hover pano event (children_hits rc)
             (getConvertedIntersect (children_hits rc))
             (object <$> head (children_hits rc)) s1))).
  split; [|split].
  - destruct (getConvertedIntersect (children_hits rc)) as [t|] eqn:Ht.
    + pose proof (getConvertedIntersect_nonempty _ _ Ht) as Hne.
      destruct (children_hits rc) as [|i0 rest]; [discriminate|].
      destruct Hd as [_ Hdv]. rewrite Hdv in Hv.
      rewrite start_press_outcome in Hv. cbv zeta in Hv. cbn [final] in Hv.
      change (is_mouse_type mousedown s1) with true in Hv.
      destruct (negb (same_ref (pressEntityObject s1) (Some t))),
        (negb (same_ref (pressObject s1) (Some (object i0))));
        injection Hv as Hu _ _; exact Hu.
    + destruct Hd as [_ Hdv]. rewrite Hdv in Hv.
      injection Hv as Hu _ _. exact Hu.
  - intros t i0 rest Hints Ht. rewrite Hints in *. rewrite Ht in *.
    destruct Hd as [Hdl Hdv]. rewrite Hdv in Hv. rewrite Hdl.
    rewrite start_press_outcome in Hv |- *. cbv zeta in Hv |- *.
    cbn [final effects] in Hv |- *.
    change (is_mouse_type mousedown s1) with true in Hv |- *.
    change (pressEntityObject s1) with (pressEntityObject s) in Hv |- *.
    change (pressObject s1) with (pressObject s) in Hv |- *.
    cbn [andb] in Hv |- *.
    rewrite move_press_outcome.
    destruct (same_ref (pressEntityObject s) (Some t)),
      (same_ref (pressObject s) (Some (object i0)));
      cbn [negb] in Hv |- *; injection Hv as _ He Ho;
      (split; [exact He | split; [exact Ho|]]);
      cbn [effects]; rewrite ?press_log_app, ?press_log_fired;
      unfold is_mouse_type; cbn; rewrite ?app_nil_r; reflexivity.
  - intros Hnone. rewrite Hnone in *.
    destruct Hd as [Hdl Hdv]. rewrite Hdv in Hv. rewrite Hdl.
    injection Hv as _ He Ho. repeat split; assumption.
Qed.

Lemma onMouseDown_press_start_witness :
  pressEntityObject
    (step Scene.entered
       (MouseDown (Scene.at_ 100 100 Scene.canvas)
          (Scene.over [Scene.helper; Scene.wall])))
  = Some Scene.wall
  /\ pressObject
       (step Scene.entered
          (MouseDown (Scene.at_ 100 100 Scene.canvas)
             (Scene.over [Scene.helper; Scene.wall])))
     = Some Scene.helper.
Proof.
  destruct (onMouseDown_press_start Scene.entered
              (Scene.at_ 100 100 Scene.canvas)
              (Scene.over [Scene.helper; Scene.wall]) Scene.pano 100 100
              eq_refl eq_refl eq_refl) as (_ & H & _).
  destruct (H Scene.wall (mkIntersection Scene.helper)
              [mkIntersection Scene.wall] eq_refl eq_refl) as (He & Ho & _).
  split; [exact He | exact Ho].
Defined.

(** X11.  A mouse press on the left edge of the page ([clientX] is 0 and
    the event has no touches) throws before anything is recorded and
    before any hit test: the viewer is as it was.  On the top edge alone
    the horizontal position is recorded and the handler throws then: the
    vertical position, the gesture type and every reference are those of
    before. *)
Theorem onMouseDown_on_page_edge (s : Viewer) (rc : RayCast) (x y : Z)
    (tgt : option (list string)) :
  onMouseDown (mkPointerEvent (Some 0) (Some y) None None tgt) rc s
  = mkOutcome (Throw TypeError) s [PreventDefault]
  /\ (x <> 0 ->
      onMouseDown (mkPointerEvent (Some x) (Some 0) None None tgt) rc s
      = mkOutcome (Throw TypeError)
          (set_userMouse (set_mouse_x x (userMouse s)) s) [PreventDefault])
  /\ (x <> 0 -> y <> 0 ->
      result (onMouseDown (mkPointerEvent (Some x) (Some y) None None tgt) rc s)
      = Normal tt).
Proof.
  split; [reflexivity|]. split.
  - intros Hx. rewrite onMouseDown_sequence. cbn.
    apply Z.eqb_neq in Hx. rewrite Hx. reflexivity.
  - intros Hx Hy. rewrite onMouseDown_sequence. cbn.
    apply Z.eqb_neq in Hx, Hy. rewrite Hx, Hy. reflexivity.
Qed.

Lemma onMouseDown_on_page_edge_witness :
  result (onMouseDown (Scene.at_ 100 100 Scene.canvas) (Scene.over [])
            Scene.viewer) = Normal tt.
Proof.
  destruct (onMouseDown_on_page_edge Scene.viewer (Scene.over []) 100 100
              Scene.canvas) as (_ & _ & H).
  apply H; discriminate.
Defined.

(** ** After the hit test of a release *)

Definition is_toggle (e : Effect) : bool :=
  match e with ToggleChildrenVisibility _ => true | _ => false end.

Lemma onTap_never_toggles event type rc :
  emits (fun e => is_toggle e = false) (onTap event type rc).
Proof.
  unfold onTap, release_pressEntityObject, release_pressObject,
    dispatch_click, dispatch_hover, hover_infospot, leave_hoverObject,
    enter_hoverObject, start_press, move_press, hideHoveringObject, fire.
  cbv zeta. repeat method_step; reflexivity.
Qed.

(** X12.  A release on the render surface toggles the visibility of the
    panorama's children exactly when it is a click, no infospot with an
    [onClick] under the pointer took it, [autoHideInfospot] is set and a
    panorama is current; with [autoHideControlBar] set, such a click (taken
    by no infospot) makes the handler throw a ReferenceError, after the
    hit test and the toggle; in every case the gesture type is ['none']
    afterwards. *)
Theorem onMouseUp_auto_hide (s : Viewer) (event : PointerEvent)
    (rc : RayCast) (type : option TapType) :
  off_canvas event = false ->
  click_type (set_mouse_type mouseup (userMouse s))
    (clickTolerance (options s)) event = Normal type ->
  let b := consumed type rc s in
  result (handle (MouseUp event rc) s)
  = (if negb b && is_click type && autoHideControlBar (options s)
     then Throw ReferenceError else Normal tt)
  /\ (forall p,
        In (ToggleChildrenVisibility p) (effects (handle (MouseUp event rc) s))
        <-> panorama s = Some p /\ b = false /\ is_click type = true
            /\ autoHideInfospot (options s) = true)
  /\ mouse_type (userMouse (step s (MouseUp event rc))) = none.
Proof.
  intros Hoff Hty b. unfold step. cbn [handle].
  rewrite (onMouseUp_sequence event rc type s Hoff Hty).
  cbn [result final effects]. fold b.
  split; [reflexivity|]. split; [|reflexivity].
  intros p. split.
  - intros Hin. cbn [app] in Hin. destruct Hin as [[=]|Hin].
    apply in_app_or in Hin as [Hin|Hin].
    + exfalso.
      pose proof (onTap_never_toggles (tap_event event) type rc
                    (set_userMouse (set_mouse_type mouseup (userMouse s)) s))
        as He.
      rewrite Forall_forall in He. apply list_elem_of_In in Hin.
      specialize (He _ Hin). discriminate.
    + unfold hidden_after_click in Hin.
      destruct b; [destruct Hin|]. destruct (is_click type); [|destruct Hin].
      destruct (autoHideInfospot (options s)); [|destruct Hin].
      cbn in Hin. destruct (panorama s) as [q|]; [|destruct Hin].
      destruct Hin as [[= ->]|[]]. repeat split.
  - intros (Hp & Hb & Hc & Ha). cbn [app]. right. apply in_or_app. right.
    unfold hidden_after_click. rewrite Hb, Hc, Ha, Hp. left. reflexivity.
Qed.

Lemma onMouseUp_auto_hide_witness :
  In (ToggleChildrenVisibility Scene.pano)
    (effects (handle (MouseUp (Scene.at_ 100 100 Scene.canvas)
                        (Scene.over [])) Scene.pressed)).
Proof.
  destruct (onMouseUp_auto_hide Scene.pressed (Scene.at_ 100 100 Scene.canvas)
              (Scene.over []) (Some click) eq_refl eq_refl) as (_ & H & _).
  apply H. repeat split.
Defined.

(** ** A click and the hover state *)

Definition is_click_event (e : Effect) : bool :=
  match e with
  | PanoramaDispatch _ type _ _ => String.eqb type "click"
  | Dispatch _ type _ =>
      String.eqb type "click-entity" || String.eqb type "click"
  | _ => false
  end.

Lemma filter_fired (f : Effect -> bool) o type event :
  List.filter f (fired o type event) =
  match o with
  | Some x => if f (Dispatch x type event) then fired o type event else []
  | None => []
  end.
Proof.
  unfold fired. destruct o as [x|]; [|reflexivity].
  destruct (dispatchEvent x); cbn;
    destruct (f (Dispatch x type event)); reflexivity.
Qed.

Lemma filter_stopped_click under tracked type event :
  is_press_type type = true ->
  List.filter is_click_event (stopped under tracked type event) = [].
Proof.
  intros H. unfold stopped.
  destruct under as [i|], tracked as [p|]; try reflexivity.
  destruct (_ && _); [|reflexivity]. cbn.
  unfold is_press_type in H. cbn in H.
  destruct (String.eqb_spec type "click-entity") as [->|_]; [discriminate|].
  destruct (String.eqb_spec type "click") as [->|_]; [discriminate|].
  reflexivity.
Qed.

Lemma filter_click_infospot event type intersects s :
  List.filter is_click_event (effects (hover_infospot event type intersects s))
  = [].
Proof.
  rewrite hover_infospot_outcome.
  destruct (nearest_infospot intersects) as [[o h]|]; cbn [effects].
  - destruct (onHover h), (is_click type && onClick h); reflexivity.
  - destruct (hoveringObject s); reflexivity.
Qed.

Lemma filter_click_hidden b type s :
  List.filter is_click_event (hidden_after_click b type s) = [].
Proof.
  unfold hidden_after_click.
  destruct (_ && _); [destruct (panorama s)|]; reflexivity.
Qed.

Lemma hover_log_stopped under tracked type event :
  is_press_type type = true ->
  hover_log (stopped under tracked type event) = [].
Proof.
  intros H. unfold stopped.
  destruct under as [a|], tracked as [c|]; try reflexivity.
  destruct (_ && _); [|reflexivity]. cbn.
  unfold is_press_type in H. cbn in H.
  destruct (String.eqb_spec type "hoverenter") as [->|_]; [discriminate|].
  destruct (String.eqb_spec type "hoverleave") as [->|_]; [discriminate|].
  reflexivity.
Qed.

Lemma hover_log_fired_other o type event :
  String.eqb type "hoverenter" = false ->
  String.eqb type "hoverleave" = false ->
  hover_log (fired o type event) = [].
Proof.
  intros H1 H2. unfold fired. destruct o as [x|]; [|reflexivity].
  destruct (dispatchEvent x); [|reflexivity]. cbn. rewrite H1, H2.
  reflexivity.
Qed.

(** X13.  A release classified as a click, on the render surface with a
    panorama current, sends [click] to the panorama, then [click-entity]
    to the resolved entity and [click] to the nearest primitive, those that
    take events, and no other click event; it fires neither [hoverenter]
    nor [hoverleave] and leaves the hover entity as it was. *)
Theorem onMouseUp_click_spares_hover (s : Viewer) (event : PointerEvent)
    (rc : RayCast) (pano : Panorama) :
  panorama s = Some pano -> off_canvas event = false ->
  click_type (set_mouse_type mouseup (userMouse s))
    (clickTolerance (options s)) event = Normal (Some click) ->
  let intersects := children_hits rc in
  let e := effects (handle (MouseUp event rc) s) in
  List.filter is_click_event e
  = [PanoramaDispatch pano "click" intersects (tap_event event)]
    ++ fired (getConvertedIntersect intersects) "click-entity" (tap_event event)
    ++ fired (object <$> head intersects) "click" (tap_event event)
  /\ hover_log e = []
  /\ hoverObject (step s (MouseUp event rc)) = hoverObject s.
Proof.
  intros Hp Hoff Hty intersects e. subst e. unfold step. cbn [handle].
  rewrite (onMouseUp_sequence event rc (Some click) s Hoff Hty).
  cbn [effects final].
  set (s1 := set_userMouse (set_mouse_type mouseup (userMouse s)) s).
  rewrite (onTap_sequence (tap_event event) (Some click) rc pano s1 Hp).
  cbn [effects final is_click]. fold intersects.
  rewrite release_pressEntityObject_outcome.
  change (is_mouse_type mouseup s1) with true. cbn [effects final].
  rewrite release_pressObject_outcome.
  change (is_mouse_type mouseup (set_pressEntityObject None s1)) with true.
  cbn [effects final].
  rewrite dispatch_click_outcome. cbn [effects final].
  set (s3 := set_pressObject None (set_pressEntityObject None s1)).
  destruct (hover_infospot_neutral (tap_event event) (Some click) intersects)
    as (_ & Hk & He).
  split; [|split].
  - rewrite !Stdlib.Lists.List.filter_app, !filter_stopped_click
      by reflexivity.
    rewrite !filter_fired, filter_click_infospot, filter_click_hidden.
    destruct (DEBUG s1 && nonempty (panorama_hits rc));
      destruct (getConvertedIntersect intersects) as [t|],
        (object <$> head intersects) as [i|];
      cbn; rewrite ?app_nil_r; reflexivity.
  - rewrite !hover_log_app, !hover_log_stopped by reflexivity.
    rewrite !hover_log_fired_other by reflexivity.
    rewrite (hover_log_emits _ s3 He).
    unfold hidden_after_click.
    destruct (DEBUG s1 && nonempty (panorama_hits rc));
      destruct (_ && _); try destruct (panorama s); reflexivity.
  - apply (Hk (hoverObject s) s3). reflexivity.
Qed.

Lemma onMouseUp_click_spares_hover_witness :
  hoverObject
    (step Scene.pressed
       (MouseUp (Scene.at_ 100 100 Scene.canvas) (Scene.over [])))
  = hoverObject Scene.pressed.
Proof.
  destruct (onMouseUp_click_spares_hover Scene.pressed
              (Scene.at_ 100 100 Scene.canvas) (Scene.over []) Scene.pano
              eq_refl eq_refl eq_refl) as (_ & _ & H).
  exact H.
Defined.

(** ** Infospots under the pointer *)

(** The calls made on infospots among some effects. *)
Definition infospot_entry (e : Effect) : list Effect :=
  match e with
  | OnHover _ _ _ | OnHoverEnd _ | OnClick _ => [e]
  | _ => []
  end.

Definition infospot_log (l : list Effect) : list Effect :=
  flat_map infospot_entry l.

(** What the infospot block reads and writes. *)
Definition hovering_view (s : Viewer) := (hoveringObject s, cursor s).

Lemma infospot_log_emits {A} (m : M A) s :
  emits (fun e => infospot_entry e = []) m -> infospot_log (effects (m s)) = [].
Proof.
  intros H. specialize (H s). unfold infospot_log.
  induction H as [|e l He _ IH]; [reflexivity|].
  cbn. rewrite He, IH. reflexivity.
Qed.

Lemma before_infospot_quiet pano event type intersects ie i :
  let d := if is_click type
           then dispatch_click pano event intersects ie i
           else dispatch_hover pano event intersects ie i in
  (emits (fun e => infospot_entry e = []) (release_pressEntityObject event ie)
   /\ emits (fun e => infospot_entry e = []) (release_pressObject event i)
   /\ emits (fun e => infospot_entry e = []) d)
  /\ (forall v,
        keeps (fun s => hovering_view s = v) (release_pressEntityObject event ie)
        /\ keeps (fun s => hovering_view s = v) (release_pressObject event i)
        /\ keeps (fun s => hovering_view s = v) d).
Proof.
  cbv zeta.
  unfold release_pressEntityObject, release_pressObject, dispatch_click,
    dispatch_hover, leave_hoverObject, enter_hoverObject, start_press,
    move_press, fire.
  split; [|intros v]; (split; [|split]);
    repeat method_step; auto.
Qed.

(** X14.  In a hit test with a panorama current: when the nearest
    intersection is on an infospot that has [onHover], that infospot
    becomes the hovering object, the cursor becomes a pointer, its
    [onHover] is called with the event's coordinates, its [onClick] on a
    click when it has one, and [onHoverEnd] is called on nothing, not even
    on another infospot that was hovering; on an infospot without
    [onHover] the hovering object and the cursor stay as they are; when the
    nearest intersection is on no infospot, or there is none, the cursor is
    reset, [onHoverEnd] is called once on the hovering object if there is
    one, and the hovering object is forgotten, so that the next such hit
    test calls nothing. *)
Theorem onTap_infospot_hovering (s : Viewer) (event event2 : PointerEvent)
    (type type2 : option TapType) (rc rc2 : RayCast) (pano : Panorama) :
  panorama s = Some pano ->
  let o := onTap event type rc s in
  match nearest_infospot (children_hits rc) with
  | Some (spot, h) =>
      infospot_log (effects o)
      = (if onHover h
         then [OnHover spot (clientX event) (clientY event)] else [])
        ++ (if is_click type && onClick h then [OnClick spot] else [])
      /\ hoveringObject (final o)
         = (if onHover h then Some spot else hoveringObject s)
      /\ cursor (final o) = (if onHover h then "pointer"%string else cursor s)
  | None =>
      infospot_log (effects o)
      = match hoveringObject s with
        | Some old => [OnHoverEnd old]
        | None => []
        end
      /\ hoveringObject (final o) = None
      /\ cursor (final o) = "default"%string
      /\ (nearest_infospot (children_hits rc2) = None ->
          infospot_log (effects (onTap event2 type2 rc2 (final o))) = [])
  end.
Proof.
  intros Hp o.
  assert (Hgen : forall event type rc s, panorama s = Some pano ->
            exists s3,
              hovering_view s3 = hovering_view s
              /\ infospot_log (effects (onTap event type rc s))
                 = infospot_log
                     (effects (hover_infospot event type (children_hits rc) s3))
              /\ final (onTap event type rc s)
                 = final (hover_infospot event type (children_hits rc) s3)).
  { clear. intros event type rc s Hp.
    rewrite (onTap_sequence event type rc pano s Hp). cbn [effects final].
    destruct (before_infospot_quiet pano event type (children_hits rc)
                (getConvertedIntersect (children_hits rc))
                (object <$> head (children_hits rc)))
      as [(E1 & E2 & E3) K].
    cbv zeta in E3, K.
    destruct (K (hovering_view s)) as (K1 & K2 & K3).
    eexists. split; [|split; [|reflexivity]].
    - apply K3, K2, K1. reflexivity.
    - unfold infospot_log. rewrite !flat_map_app.
      fold (infospot_log (effects (release_pressEntityObject event
              (getConvertedIntersect (children_hits rc)) s))).
      rewrite (infospot_log_emits _ _ E1).
      match goal with
      | |- context [flat_map infospot_entry (effects (release_pressObject ?e ?i ?st))] =>
          change (flat_map infospot_entry (effects (release_pressObject e i st)))
            with (infospot_log (effects (release_pressObject e i st)));
          rewrite (infospot_log_emits _ st E2)
      end.
      match goal with
      | |- context [flat_map infospot_entry (effects ((if ?c then ?a else ?b) ?st))] =>
          change (flat_map infospot_entry (effects ((if c then a else b) st)))
            with (infospot_log (effects ((if c then a else b) st)));
          rewrite (infospot_log_emits _ st E3)
      end.
      destruct (DEBUG s && nonempty (panorama_hits rc)); reflexivity. }
  destruct (Hgen event type rc s Hp) as (s3 & Hv & Hl & Hf).
  subst o. rewrite Hl, Hf, hover_infospot_outcome.
  unfold hovering_view in Hv. injection Hv as Hh Hc.
  destruct (nearest_infospot (children_hits rc)) as [[spot h]|] eqn:Hn;
    cbn [effects final].
  - destruct (onHover h); cbn; rewrite ?Hh, ?Hc;
      destruct (is_click type && onClick h); repeat split.
  - rewrite Hh.
    split; [destruct (hoveringObject s); reflexivity|].
    split; [destruct (hoveringObject s); [reflexivity | exact Hh]|].
    split; [destruct (hoveringObject s); reflexivity|].
    intros Hn2.
    set (s' := match hoveringObject s with
               | Some _ => set_hoveringObject None (set_cursor "default" s3)
               | None => set_cursor "default" s3
               end).
    assert (Hp' : panorama s' = Some pano).
    { pose proof (onTap_keeps_options_panorama (options s, panorama s)
                    event type rc s eq_refl) as Hk.
      rewrite Hf, hover_infospot_outcome, Hn in Hk. cbn [final] in Hk.
      rewrite Hh in Hk. fold s' in Hk. injection Hk as _ Hk.
      rewrite Hk. exact Hp. }
    assert (Hh' : hoveringObject s' = None).
    { subst s'. destruct (hoveringObject s); [reflexivity | exact Hh]. }
    destruct (Hgen event2 type2 rc2 s' Hp') as (s4 & Hv2 & Hl2 & _).
    rewrite Hl2, hover_infospot_outcome, Hn2. cbn [effects].
    unfold hovering_view in Hv2. injection Hv2 as Hh2 _.
    rewrite Hh2, Hh'. reflexivity.
Qed.

Lemma onTap_infospot_hovering_witness :
  infospot_log
    (effects (onTap (Scene.at_ 10 10 Scene.canvas) None
                (Scene.over [Scene.wall])
                (set_hoveringObject (Some Scene.helper) Scene.entered)))
  = [OnHoverEnd Scene.helper].
Proof.
  pose proof (onTap_infospot_hovering
                (set_hoveringObject (Some Scene.helper) Scene.entered)
                (Scene.at_ 10 10 Scene.canvas) (Scene.at_ 10 10 Scene.canvas)
                None None (Scene.over [Scene.wall]) (Scene.over [])
                Scene.pano eq_refl) as H.
  cbv zeta in H. cbn [nearest_infospot Scene.over children_hits map
                      object infospot Scene.wall] in H.
  destruct H as (H & _). exact H.
Defined.

(** ** The focus of the orbit controls *)

Definition is_scene_change (i : Input) : bool :=
  match i with SetPanorama _ => true | _ => false end.

Lemma setCameraControl_outcome s pano :
  panorama s = Some pano ->
  setCameraControl s =
  mkOutcome (Normal tt)
    (set_OrbitControls_target (position pano)
       (set_camera_position (z_plus_1 (position pano))
          (set_camera_position (position pano) s))) [].
Proof. intros Hp. unfold setCameraControl, bind. cbn. rewrite Hp. reflexivity. Qed.

Lemma handle_keeps_focus v i :
  is_scene_change i = false ->
  match i with EnterStart => False | _ => True end ->
  keeps (fun s => (panorama s, OrbitControls_target s) = v) (handle i).
Proof.
  destruct i; try discriminate; intros _ Hi; try contradiction; cbn [handle];
    unfold onMouseDown, onMouseMove, onMouseUp, onTap,
      enableControl, toggleNextControl, enableControl,
      addUpdateCallback, removeUpdateCallback, toggleVR, animate, render,
      onKeyDown, onKeyUp,
      down_coordinate, release_pressEntityObject, release_pressObject,
      dispatch_click, dispatch_hover, hover_infospot, leave_hoverObject,
      enter_hoverObject, start_press, move_press, hideHoveringObject;
    cbv zeta; repeat method_step; auto.
  intros s Hs. rewrite forEach_emit. exact Hs.
Qed.

Lemma step_keeps_focus s pano i :
  is_scene_change i = false ->
  panorama s = Some pano -> OrbitControls_target s = position pano ->
  panorama (step s i) = Some pano
  /\ OrbitControls_target (step s i) = position pano.
Proof.
  intros Hi Hp Ht.
  destruct (match i with EnterStart => true | _ => false end) eqn:E.
  - destruct i; try discriminate. unfold step. cbn [handle].
    rewrite (setCameraControl_outcome s pano Hp). split; [exact Hp|reflexivity].
  - assert (H : (panorama (step s i), OrbitControls_target (step s i))
                = (Some pano, position pano)).
    { apply (handle_keeps_focus (Some pano, position pano) i Hi).
      - destruct i; try exact I. discriminate.
      - rewrite Hp, Ht. reflexivity. }
    injection H as H1 H2. split; assumption.
Qed.

(** X15.  [setCameraControl], the listener of [enter-start], throws and
    changes nothing without a panorama; with one it puts the focus of the
    orbit controls at the panorama position and the camera one unit from
    it along z, and running it again changes nothing.  Once the focus is
    at the position of the current panorama it stays there through every
    pointer, key, frame, callback, VR and control-switch input, until
    [setPanorama] is called; a switch to a scheme named orbit then puts
    the camera one unit from the focus. *)
Theorem orbit_focus_follows_panorama (s : Viewer) (pano : Panorama)
    (inputs : list Input) (index : Z) :
  (panorama s = None -> setCameraControl s = mkOutcome (Throw TypeError) s [])
  /\ (panorama s = Some pano ->
      let s1 := step s EnterStart in
      OrbitControls_target s1 = position pano
      /\ camera_position s1 = z_plus_1 (position pano)
      /\ step s1 EnterStart = s1
      /\ (forallb (fun i => negb (is_scene_change i)) inputs = true ->
          OrbitControls_target (run inputs s1) = position pano
          /\ panorama (run inputs s1) = Some pano
          /\ (control (run inputs s1) <> None ->
              name <$> controls (run inputs s1)
                       !! clamped index (run inputs s1)
              = Some "orbit"%string ->
              camera_position (step (run inputs s1) (EnableControl index))
              = z_plus_1
                  (OrbitControls_target
                     (step (run inputs s1) (EnableControl index)))))).
Proof.
  split.
  - intros Hp. unfold setCameraControl, bind. cbn. rewrite Hp. reflexivity.
  - intros Hp s1.
    assert (Hs1 : s1 = set_OrbitControls_target (position pano)
                         (set_camera_position (z_plus_1 (position pano))
                            (set_camera_position (position pano) s))).
    { subst s1. unfold step. cbn [handle].
      rewrite (setCameraControl_outcome s pano Hp). reflexivity. }
    clearbody s1. subst s1.
    set (s1 := set_OrbitControls_target _ _).
    split; [reflexivity|]. split; [reflexivity|]. split.
    { unfold step. cbn [handle].
      rewrite (setCameraControl_outcome s1 pano Hp). reflexivity. }
    intros Hin.
    assert (Hrun : forall l s0, panorama s0 = Some pano ->
              OrbitControls_target s0 = position pano ->
              forallb (fun i => negb (is_scene_change i)) l = true ->
              panorama (run l s0) = Some pano
              /\ OrbitControls_target (run l s0) = position pano).
    { clear. induction l as [|i l IH]; intros s0 Hp Ht Hl; [split; assumption|].
      cbn [forallb] in Hl. apply andb_prop in Hl as [Hi Hl].
      apply negb_true_iff in Hi.
      destruct (step_keeps_focus s0 pano i Hi Hp Ht) as [Hp' Ht'].
      change (run (i :: l) s0) with (run l (step s0 i)).
      apply IH; assumption. }
    destruct (Hrun inputs s1 Hp eq_refl Hin) as [Hp2 Ht2].
    split; [exact Ht2|]. split; [exact Hp2|].
    intros Hc Hname.
    set (s2 := run inputs s1) in *.
    destruct (control s2) as [c0|] eqn:Ec; [|contradiction].
    destruct (controls s2 !! clamped index s2) as [cj|] eqn:Ej;
      [|discriminate].
    unfold step. cbn [handle].
    rewrite (enableControl_outcome s2 index c0 pano cj Ec Hp2 Ej). cbn [final].
    destruct (switched_fields s2 c0 (clamped index s2) cj pano)
      as (_ & _ & F3 & _ & F5).
    rewrite F3, F5, Ht2. cbn in Hname. injection Hname as ->. reflexivity.
Qed.

Lemma orbit_focus_follows_panorama_witness :
  OrbitControls_target
    (run [MouseMove (Scene.at_ 10 10 Scene.canvas) (Scene.over [Scene.face]);
          ToggleNextControl]
       (step Scene.entered EnterStart))
  = mkVector3 5 5 5.
Proof.
  destruct (orbit_focus_follows_panorama Scene.entered Scene.pano
              [MouseMove (Scene.at_ 10 10 Scene.canvas)
                 (Scene.over [Scene.face]);
               ToggleNextControl] 0) as (_ & H).
  destruct (H eq_refl) as (_ & _ & _ & H2).
  destruct (H2 eq_refl) as (H3 & _). exact H3.
Defined.

(** ** The DEBUG flag *)

Definition is_console (e : Effect) : bool :=
  match e with ConsoleInfo => true | _ => false end.

(** What a run does apart from the lines it writes to the console. *)
Definition observable (l : list Effect) : list Effect :=
  List.filter (fun e => negb (is_console e)) l.

(** [event.keyCode === 17 || event.keyIdentifier === 'Control'] on a key
    press. *)
Definition presses_Control (i : Input) : bool :=
  match i with
  | KeyDown keyCode keyIdentifier =>
      (keyCode =? 17) || String.eqb keyIdentifier "Control"
  | _ => false
  end.

(** [debug_blind m]: the flag changes neither how [m] completes, nor the
    viewer it leaves apart from the flag, nor its effects apart from the
    console. *)
Definition debug_blind {A} (m : M A) : Prop :=
  forall s b,
    result (m (set_DEBUG b s)) = result (m s)
    /\ (exists b', final (m (set_DEBUG b s)) = set_DEBUG b' (final (m s)))
    /\ observable (effects (m (set_DEBUG b s))) = observable (effects (m s)).

(** [calm m]: with the flag off, [m] leaves it off and writes nothing to
    the console. *)
Definition calm {A} (m : M A) : Prop :=
  forall s, DEBUG s = false ->
    DEBUG (final (m s)) = false
    /\ Forall (fun e => is_console e = false) (effects (m s)).

Lemma observable_app l1 l2 :
  observable (l1 ++ l2) = observable l1 ++ observable l2.
Proof. apply Stdlib.Lists.List.filter_app. Qed.

Lemma observable_calm l :
  Forall (fun e => is_console e = false) l -> observable l = l.
Proof.
  induction 1 as [|e l He _ IH]; [reflexivity|].
  cbn. rewrite He. cbn. unfold observable in IH. rewrite IH. reflexivity.
Qed.

Section BlindRules.
Context {A B : Type} (m : M A) (k : A -> M B).

Lemma blind_bind :
  debug_blind m -> (forall a, debug_blind (k a)) -> debug_blind (bind m k).
Proof.
  intros Hm Hk s b. destruct (Hm s b) as (Hr & [b1 Hf] & He).
  unfold bind.
  destruct (m (set_DEBUG b s)) as [r' s' e'], (m s) as [r1 s1 e1].
  cbn [result final effects] in Hr, Hf, He. subst r' s'.
  destruct r1 as [a|e];
    [|split; [reflexivity|split; [exists b1; reflexivity | exact He]]].
  destruct (Hk a s1 b1) as (Hr2 & [b2 Hf2] & He2).
  destruct (k a (set_DEBUG b1 s1)) as [r2' s2' e2'], (k a s1) as [r2 s2 e2].
  cbn [result final effects] in Hr2, Hf2, He2 |- *. subst.
  split; [reflexivity|]. split; [exists b2; reflexivity|].
  rewrite !observable_app, He, He2. reflexivity.
Qed.

Lemma calm_bind : calm m -> (forall a, calm (k a)) -> calm (bind m k).
Proof.
  intros Hm Hk s Hs. destruct (Hm s Hs) as [Hd He]. unfold bind.
  destruct (m s) as [[a|e] s1 e1]; cbn in Hd, He |- *; [|split; assumption].
  destruct (Hk a s1 Hd) as [Hd2 He2].
  destruct (k a s1) as [r2 s2 e2]. cbn in Hd2, He2 |- *.
  split; [exact Hd2|]. apply Forall_app. split; assumption.
Qed.
End BlindRules.

Lemma blind_get {B} (k : Viewer -> M B) :
  (forall s b, k (set_DEBUG b s) = k s) ->
  (forall s, debug_blind (k s)) -> debug_blind (bind get k).
Proof.
  intros Hk Hb s b.
  rewrite (bind_Normal get k (set_DEBUG b s) (set_DEBUG b s) (set_DEBUG b s) [])
    by reflexivity.
  rewrite (bind_Normal get k s s s []) by reflexivity.
  cbn [result final effects app]. rewrite Hk. apply Hb.
Qed.

Lemma calm_get {B} (k : Viewer -> M B) :
  (forall s, calm (k s)) -> calm (bind get k).
Proof.
  intros Hk s Hs. rewrite (bind_Normal get k s s s []) by reflexivity.
  cbn [result final effects app]. apply Hk, Hs.
Qed.

Lemma blind_ret {A} (a : A) : debug_blind (ret a).
Proof. intros s b. split; [|split; [exists b|]]; reflexivity. Qed.

Lemma blind_throw {A} e : debug_blind (@throw A e).
Proof. intros s b. split; [|split; [exists b|]]; reflexivity. Qed.

Lemma blind_emit e : debug_blind (emit e).
Proof. intros s b. split; [|split; [exists b|]]; reflexivity. Qed.

Lemma blind_modify f :
  (forall s b, exists b', f (set_DEBUG b s) = set_DEBUG b' (f s)) ->
  debug_blind (modify f).
Proof. intros H s b. split; [|split; [apply H|]]; reflexivity. Qed.

Lemma blind_when c m : debug_blind m -> debug_blind (when c m).
Proof. intros H. destruct c; [exact H | apply blind_ret]. Qed.

Lemma blind_forEach l f :
  (forall x, debug_blind (f x)) -> debug_blind (forEach l f).
Proof.
  intros H. induction l as [|x l IH]; [apply blind_ret|].
  cbn [forEach]. apply blind_bind; [apply H | intros _; exact IH].
Qed.

Lemma calm_ret {A} (a : A) : calm (ret a).
Proof. intros s Hs. split; [exact Hs | constructor]. Qed.

Lemma calm_throw {A} e : calm (@throw A e).
Proof. intros s Hs. split; [exact Hs | constructor]. Qed.

Lemma calm_emit e : is_console e = false -> calm (emit e).
Proof. intros He s Hs. split; [exact Hs | repeat constructor; exact He]. Qed.

Lemma calm_modify f :
  (forall s, DEBUG s = false -> DEBUG (f s) = false) -> calm (modify f).
Proof. intros H s Hs. split; [apply H, Hs | constructor]. Qed.

Lemma calm_when c m : calm m -> calm (when c m).
Proof. intros H. destruct c; [exact H | apply calm_ret]. Qed.

Lemma calm_forEach l f : (forall x, calm (f x)) -> calm (forEach l f).
Proof.
  intros H. induction l as [|x l IH]; [apply calm_ret|].
  cbn [forEach]. apply calm_bind; [apply H | intros _; exact IH].
Qed.

(** One step of a proof that a method is blind to the flag, or calm. *)
Ltac debug_step :=
  match goal with
  | |- debug_blind (bind get _) =>
      apply blind_get; [intros ? ?; reflexivity | intros ?]
  | |- debug_blind (bind _ _) => apply blind_bind; [|intros ?]
  | |- debug_blind (ret _) => apply blind_ret
  | |- debug_blind (throw _) => apply blind_throw
  | |- debug_blind (emit _) => apply blind_emit
  | |- debug_blind (fire _ _ _) => apply blind_when, blind_emit
  | |- debug_blind (when _ _) => apply blind_when
  | |- debug_blind (forEach _ _) => apply blind_forEach; intros ?
  | |- debug_blind (modify _) =>
      apply blind_modify; intros ? ?; eexists; reflexivity
  | |- debug_blind (match ?x with _ => _ end) => destruct x
  | |- debug_blind (if ?x then _ else _) => destruct x
  | |- calm (bind get _) => apply calm_get; intros ?
  | |- calm (bind _ _) => apply calm_bind; [|intros ?]
  | |- calm (ret _) => apply calm_ret
  | |- calm (throw _) => apply calm_throw
  | |- calm (emit _) => apply calm_emit; reflexivity
  | |- calm (fire _ _ _) => apply calm_when, calm_emit; reflexivity
  | |- calm (when _ _) => apply calm_when
  | |- calm (forEach _ _) => apply calm_forEach; intros ?
  | |- calm (modify _) =>
      apply calm_modify; let H := fresh in
      intros ? H; first [exact H | reflexivity]
  | |- calm (match ?x with _ => _ end) => destruct x
  | |- calm (if ?x then _ else _) => destruct x
  end.

(** What [onTap] does after the console line. *)
Definition after_console (pano : Panorama) (event : PointerEvent)
    (type : option TapType) (rc : RayCast) : M bool :=
  let intersects := children_hits rc in
  let intersect_entity := getConvertedIntersect intersects in
  let intersect := object <$> head intersects in
  release_pressEntityObject event intersect_entity ;;
  release_pressObject event intersect ;;
  (if is_click type
   then dispatch_click pano event intersects intersect_entity intersect
   else dispatch_hover pano event intersects intersect_entity intersect) ;;
  hover_infospot event type intersects.

Lemma onTap_console event type rc s :
  onTap event type rc s =
  match panorama s with
  | None => mkOutcome (Normal false) s []
  | Some pano =>
      let rest := after_console pano event type rc s in
      mkOutcome (result rest) (final rest)
        ((if DEBUG s && nonempty (panorama_hits rc) then [ConsoleInfo]
          else []) ++ effects rest)
  end.
Proof.
  unfold onTap. rewrite (bind_Normal _ _ s s s []) by reflexivity.
  cbn [result final effects app]. destruct (panorama s) as [pano|];
    [|reflexivity].
  rewrite (bind_Normal _ _ s tt s
             (if DEBUG s && nonempty (panorama_hits rc)
              then [ConsoleInfo] else []))
    by (destruct (DEBUG s && nonempty (panorama_hits rc)); reflexivity).
  reflexivity.
Qed.

Lemma after_console_blind pano event type rc :
  debug_blind (after_console pano event type rc).
Proof.
  unfold after_console, release_pressEntityObject, release_pressObject,
    dispatch_click, dispatch_hover, hover_infospot, leave_hoverObject,
    enter_hoverObject, start_press, move_press, hideHoveringObject.
  cbv zeta. repeat debug_step.
Qed.

Lemma after_console_calm pano event type rc :
  calm (after_console pano event type rc).
Proof.
  unfold after_console, release_pressEntityObject, release_pressObject,
    dispatch_click, dispatch_hover, hover_infospot, leave_hoverObject,
    enter_hoverObject, start_press, move_press, hideHoveringObject.
  cbv zeta. repeat debug_step.
Qed.

Lemma onTap_blind event type rc : debug_blind (onTap event type rc).
Proof.
  intros s b. rewrite !onTap_console.
  change (panorama (set_DEBUG b s)) with (panorama s).
  destruct (panorama s) as [pano|];
    [|split; [|split; [exists b|]]; reflexivity].
  destruct (after_console_blind pano event type rc s b) as (Hr & Hf & He).
  cbv zeta. cbn [result final effects].
  split; [exact Hr|]. split; [exact Hf|].
  rewrite !observable_app, He. f_equal.
  destruct (DEBUG (set_DEBUG b s) && _), (DEBUG s && _); reflexivity.
Qed.

Lemma onTap_calm event type rc : calm (onTap event type rc).
Proof.
  intros s Hs. rewrite onTap_console.
  destruct (panorama s) as [pano|]; [|split; [exact Hs | constructor]].
  cbv zeta. cbn [result final effects]. rewrite Hs. cbn [andb app].
  apply after_console_calm, Hs.
Qed.

Lemma handle_blind i : debug_blind (handle i).
Proof.
  destruct i; cbn [handle];
    unfold onMouseDown, onMouseMove, onMouseUp, setPanorama,
      setCameraControl, toggleNextControl, enableControl, addUpdateCallback,
      removeUpdateCallback, toggleVR, animate, render, onKeyDown, onKeyUp,
      down_coordinate;
    cbv zeta;
    repeat first [apply onTap_blind | debug_step].
Qed.

Lemma handle_calm i : presses_Control i = false -> calm (handle i).
Proof.
  destruct i; cbn [handle presses_Control]; intros Hi;
    unfold onMouseDown, onMouseMove, onMouseUp, setPanorama,
      setCameraControl, toggleNextControl, enableControl, addUpdateCallback,
      removeUpdateCallback, toggleVR, animate, render, onKeyDown, onKeyUp,
      down_coordinate;
    try (rewrite Hi; cbn [when]);
    cbv zeta;
    repeat first [apply onTap_calm | debug_step].
Qed.

Lemma run_blind inputs : forall s b,
  (exists b', run inputs (set_DEBUG b s) = set_DEBUG b' (run inputs s))
  /\ observable (run_effects inputs (set_DEBUG b s))
     = observable (run_effects inputs s).
Proof.
  induction inputs as [|i l IH]; intros s b.
  - split; [exists b|]; reflexivity.
  - destruct (handle_blind i s b) as (_ & [b1 Hf] & He).
    change (run (i :: l) (set_DEBUG b s))
      with (run l (step (set_DEBUG b s) i)).
    change (run (i :: l) s) with (run l (step s i)).
    cbn [run_effects]. unfold step in *. rewrite Hf.
    destruct (IH (final (handle i s)) b1) as [Hr He2].
    split; [exact Hr|]. rewrite !observable_app, He, He2. reflexivity.
Qed.

Lemma run_calm inputs : forall s,
  DEBUG s = false -> forallb (fun i => negb (presses_Control i)) inputs = true ->
  DEBUG (run inputs s) = false
  /\ Forall (fun e => is_console e = false) (run_effects inputs s).
Proof.
  induction inputs as [|i l IH]; intros s Hs Hl.
  - split; [exact Hs | constructor].
  - cbn [forallb] in Hl. apply andb_prop in Hl as [Hi Hl].
    apply negb_true_iff in Hi.
    destruct (handle_calm i Hi s Hs) as [Hd He].
    destruct (IH (step s i) Hd Hl) as [Hd2 He2].
    change (run (i :: l) s) with (run l (step s i)). cbn [run_effects].
    split; [exact Hd2|]. apply Forall_app. split; assumption.
Qed.

(** X16.  The DEBUG flag only adds lines to the console.  Whatever the
    flag is at the start, every input completes in the same way, and a
    run of inputs leaves the same viewer apart from the flag and has the
    same effects apart from the console lines.  From a viewer whose flag
    is off, a run in which the Control key is never pressed leaves it off
    and writes nothing to the console; a key release always turns it off;
    and with the flag on, a hit test whose ray meets the current panorama
    starts with the console line. *)
Theorem DEBUG_only_adds_console_lines (inputs : list Input) (s : Viewer)
    (b : bool) (i : Input) (event : PointerEvent) (type : option TapType)
    (rc : RayCast) :
  result (handle i (set_DEBUG b s)) = result (handle i s)
  /\ set_DEBUG false (run inputs (set_DEBUG b s))
     = set_DEBUG false (run inputs s)
  /\ observable (run_effects inputs (set_DEBUG b s))
     = observable (run_effects inputs s)
  /\ (DEBUG s = false ->
      forallb (fun i => negb (presses_Control i)) inputs = true ->
      DEBUG (run inputs s) = false
      /\ observable (run_effects inputs s) = run_effects inputs s)
  /\ DEBUG (step s KeyUp) = false
  /\ (DEBUG s = true -> panorama s <> None ->
      nonempty (panorama_hits rc) = true ->
      head (effects (onTap event type rc s)) = Some ConsoleInfo).
Proof.
  split; [apply handle_blind|].
  destruct (run_blind inputs s b) as [[b' Hr] He].
  split; [rewrite Hr; reflexivity|]. split; [exact He|].
  split; [|split; [reflexivity|]].
  - intros Hs Hl. destruct (run_calm inputs s Hs Hl) as [Hd Hc].
    split; [exact Hd | apply observable_calm, Hc].
  - intros Hd Hp Hh. rewrite onTap_console.
    destruct (panorama s) as [pano|]; [|contradiction].
    cbv zeta. cbn [effects]. rewrite Hd, Hh. reflexivity.
Qed.

Lemma DEBUG_only_adds_console_lines_witness :
  run_effects
    [MouseMove (Scene.at_ 10 10 Scene.canvas)
       (mkRayCast [mkIntersection Scene.wall]
          [mkIntersection Scene.face])]
    Scene.entered
  = observable
      (run_effects
         [MouseMove (Scene.at_ 10 10 Scene.canvas)
            (mkRayCast [mkIntersection Scene.wall]
               [mkIntersection Scene.face])]
         (set_DEBUG true Scene.entered)).
Proof.
  destruct (DEBUG_only_adds_console_lines
              [MouseMove (Scene.at_ 10 10 Scene.canvas)
                 (mkRayCast [mkIntersection Scene.wall]
                    [mkIntersection Scene.face])]
              Scene.entered true KeyUp (Scene.at_ 10 10 Scene.canvas) None
              (Scene.over [])) as (_ & _ & H1 & H2 & _).
  destruct (H2 eq_refl eq_refl) as [_ H3].
  rewrite H1, H3. reflexivity.
Defined.

(** ** The names of the control schemes *)

(** [return this.control.name] *)
Definition getControlName (s : Viewer) : completion string :=
  match control s with
  | Some i =>
      match controls s !! i with
      | Some c => Normal (name c)
      | None => Throw TypeError
      end
  | None => Throw TypeError
  end.

(** [return this.controls[ this.getNextControlIndex() ].name] *)
Definition getNextControlName (s : Viewer) : completion string :=
  match controls s !! Z.to_nat (getNextControlIndex s) with
  | Some c => Normal (name c)
  | None => Throw TypeError
  end.

Lemma getControlName_after_enableControl s index c0 :
  control s = Some c0 -> controls s <> [] ->
  getControlName (step s (EnableControl index))
  = match controls s !! clamped index s with
    | Some c => Normal (name c)
    | None => Throw TypeError
    end.
Proof.
  intros Hc Hne. unfold step, getControlName. cbn [handle].
  destruct (enableControl_reassigns s index c0 Hc Hne) as (F1 & F2 & _).
  rewrite F1, F2.
  pose proof (names_after_switch (controls s) c0 (clamped index s)
                (clamped index s)) as Hn.
  destruct (alter _ _ _ !! clamped index s) as [c|],
           (controls s !! clamped index s) as [c'|];
    cbn in Hn; congruence.
Qed.

(** X17.  While the active scheme is one of the list,
    [getNextControlName] returns a name, and it is the name
    [getControlName] returns after [toggleNextControl], whether or not
    that call throws for want of a panorama; after [enableControl] with
    an index [getControlName] returns the name at that index, or the
    first name for an index out of range; neither call renames a
    scheme. *)
Theorem getNextControlName_is_next (s : Viewer) (i : nat) (index : Z) :
  control s = Some i -> (i < length (controls s))%nat ->
  getNextControlName s
  = match controls s !! ((i + 1) mod length (controls s))%nat with
    | Some c => Normal (name c)
    | None => Throw TypeError
    end
  /\ (exists n, getNextControlName s = Normal n)
  /\ getControlName (step s ToggleNextControl) = getNextControlName s
  /\ getControlName (step s (EnableControl index))
     = (if (0 <=? index) && (index <? Z.of_nat (length (controls s)))
        then match controls s !! Z.to_nat index with
             | Some c => Normal (name c)
             | None => Throw TypeError
             end
        else match controls s !! 0%nat with
             | Some c => Normal (name c)
             | None => Throw TypeError
             end)
  /\ name <$> controls (step s ToggleNextControl) = name <$> controls s
  /\ name <$> controls (step s (EnableControl index)) = name <$> controls s.
Proof.
  intros Hc Hi.
  assert (Hne : controls s <> []).
  { intros E. rewrite E in Hi. cbn in Hi. lia. }
  destruct (getNextControlIndex_mod s i Hc Hi) as [Hn Hj].
  assert (Hnext : getNextControlName s
                  = match controls s !! ((i + 1) mod length (controls s))%nat
                    with
                    | Some c => Normal (name c)
                    | None => Throw TypeError
                    end).
  { unfold getNextControlName. rewrite Hn, Nat2Z.id. reflexivity. }
  assert (Hnames : forall index,
             name <$> controls (step s (EnableControl index))
             = name <$> controls s).
  { intros ix. unfold step. cbn [handle].
    destruct (enableControl_reassigns s ix i Hc Hne) as (_ & F2 & _).
    rewrite F2. apply list_eq. intros k. rewrite !list_lookup_fmap.
    apply names_after_switch. }
  assert (Htoggle : step s ToggleNextControl
                    = step s (EnableControl (getNextControlIndex s))).
  { unfold step. cbn [handle]. unfold toggleNextControl.
    rewrite final_bind. reflexivity. }
  split; [exact Hnext|]. split.
  { rewrite Hnext.
    destruct (lookup_lt_is_Some_2 (controls s)
                ((i + 1) mod length (controls s))%nat) as [c Hcl].
    - apply Nat.mod_upper_bound. lia.
    - rewrite Hcl. eexists. reflexivity. }
  split.
  { rewrite Htoggle, (getControlName_after_enableControl s _ i Hc Hne).
    rewrite Hj, Hnext. reflexivity. }
  split.
  { rewrite (getControlName_after_enableControl s index i Hc Hne).
    unfold clamped. rewrite Z.geb_leb.
    destruct ((0 <=? index) && (index <? Z.of_nat (length (controls s))));
      reflexivity. }
  split; [rewrite Htoggle|]; apply Hnames.
Qed.

Lemma getNextControlName_is_next_witness :
  getControlName (step Scene.viewer ToggleNextControl)
  = getNextControlName Scene.viewer.
Proof.
  destruct (getNextControlName_is_next Scene.viewer 0 0 eq_refl)
    as (_ & _ & H & _).
  - cbn. lia.
  - exact H.
Defined.

(** ** Adding objects to the viewer *)
























(** ** The position a release is compared with *)

(** A mouse press at [(x0, y0)]: a mouse event has no [touches]. *)
Definition mouse_press (x0 y0 : Z) (tgt : option (list string))
  : PointerEvent :=
  mkPointerEvent (Some x0) (Some y0) None None tgt.

(** The panorama is sent [click] by the release [up]. *)
Definition clicks (pano : Panorama) (up : PointerEvent) (rc : RayCast)
    (s : Viewer) : Prop :=
  In (PanoramaDispatch pano "click" (children_hits rc) (tap_event up))
    (effects (handle (MouseUp up rc) s)).

Lemma mouse_release_clicks s pano rc x1 y1 tgt :
  panorama s = Some pano ->
  off_canvas (mouse_release x1 y1 tgt) = false ->
  clicks pano (mouse_release x1 y1 tgt) rc s
  <-> Z.abs (x1 - mouse_x (userMouse s)) <= clickTolerance (options s)
      /\ Z.abs (y1 - mouse_y (userMouse s)) <= clickTolerance (options s).
Proof.
  intros Hp Hoff. unfold clicks. cbn [handle].
  rewrite (onMouseUp_click_iff_classified s rc pano _ _ Hp Hoff
             (click_type_mouse_release _ _ _ _ _ _ _)).
  rewrite <- within_tolerance_true.
  match goal with |- context [if ?w then _ else _] => destruct w end;
    split; intros H; solve [reflexivity | discriminate H].
Qed.

(** What a mouse press leaves in [userMouse]: a coordinate that is 0 is
    taken for a missing one, the touches are looked for, and the handler
    throws at that point. *)
Lemma mouse_press_outcome s rc x0 y0 tgt :
  let o := handle (MouseDown (mouse_press x0 y0 tgt) rc) s in
  options (final o) = options s
  /\ panorama (final o) = panorama s
  /\ mouse_x (userMouse (final o))
     = (if x0 =? 0 then mouse_x (userMouse s) else x0)
  /\ mouse_y (userMouse (final o))
     = (if (x0 =? 0) || (y0 =? 0) then mouse_y (userMouse s) else y0)
  /\ result o
     = (if (x0 =? 0) || (y0 =? 0) then Throw TypeError else Normal tt)
  /\ (x0 = 0 -> final o = s).
Proof.
  cbn [handle]. cbv zeta. rewrite onMouseDown_sequence.
  unfold mouse_press, recorded. cbn [clientX clientY touches].
  destruct (x0 =? 0) eqn:Ex; cbn [orb].
  - cbn [result final]. repeat split.
  - destruct (y0 =? 0) eqn:Ey.
    + cbn [result final]. repeat split.
      intros ->. discriminate Ex.
    + cbv zeta. cbn [result final].
      set (s1 := set_userMouse (mkUserMouse x0 y0 mousedown) s).
      pose proof (onTap_keeps_userMouse (userMouse s1)
                    (mkPointerEvent (Some x0) (Some y0) None None tgt)
                    None rc s1 eq_refl) as Hu.
      pose proof (onTap_keeps_options_panorama (options s1, panorama s1)
                    (mkPointerEvent (Some x0) (Some y0) None None tgt)
                    None rc s1 eq_refl) as Hop.
      injection Hop as Ho Hp. rewrite Ho, Hp, Hu.
      repeat split. intros ->. discriminate Ex.
Qed.

(** C1.  A mouse press away from the left and top edges of the page is
    recorded, and the release that follows is a click exactly when it is
    within the tolerance of the press on both axes.  A mouse press whose
    [clientX] is 0 throws and records nothing: the release that follows is
    compared with the position of an earlier press, or with the origin
    when there was none.  A mouse press whose [clientY] alone is 0 records
    its [clientX] and throws then: the release is compared with the old
    vertical position.  A tolerance of 0 given to the constructor is
    stored as 10. *)
Theorem press_at_zero_is_not_recorded (s : Viewer) (pano : Panorama)
    (x0 y0 x1 y1 : Z) (tgt tgt' : option (list string)) (rc rc' : RayCast)
    (hideBar hideSpot : option bool) :
  let down := MouseDown (mouse_press x0 y0 tgt) rc in
  let up := mouse_release x1 y1 tgt' in
  let tol := clickTolerance (options s) in
  (panorama s = Some pano -> off_canvas up = false ->
   x0 <> 0 -> y0 <> 0 ->
   result (handle down s) = Normal tt
   /\ (clicks pano up rc' (step s down)
       <-> Z.abs (x1 - x0) <= tol /\ Z.abs (y1 - y0) <= tol))
  /\ (panorama s = Some pano -> off_canvas up = false ->
      x0 = 0 ->
      handle down s = mkOutcome (Throw TypeError) s [PreventDefault]
      /\ (clicks pano up rc' (step s down)
          <-> Z.abs (x1 - mouse_x (userMouse s)) <= tol
              /\ Z.abs (y1 - mouse_y (userMouse s)) <= tol))
  /\ (panorama s = Some pano -> off_canvas up = false ->
      x0 <> 0 -> y0 = 0 ->
      result (handle down s) = Throw TypeError
      /\ (clicks pano up rc' (step s down)
          <-> Z.abs (x1 - x0) <= tol
              /\ Z.abs (y1 - mouse_y (userMouse s)) <= tol))
  /\ clickTolerance
       (options (PANOLENS_Viewer (mkUserOptions hideBar hideSpot (Some 0))))
     = 10.
Proof.
  intros down up tol. subst down up tol.
  destruct (mouse_press_outcome s rc x0 y0 tgt)
    as (Ho & Hp & Hx & Hy & Hr & Hs).
  cbv zeta in Ho, Hp, Hx, Hy, Hr, Hs.
  split; [|split; [|split; [|reflexivity]]].
  - intros Hpano Hoff Nx Ny.
    apply Z.eqb_neq in Nx, Ny. rewrite Nx, Ny in *. cbn [orb] in *.
    split; [exact Hr|].
    rewrite (mouse_release_clicks (step s _) pano rc' x1 y1 tgt');
      [|unfold step; rewrite Hp; exact Hpano | exact Hoff].
    unfold step. rewrite Ho, Hx, Hy. reflexivity.
  - intros Hpano Hoff E. subst x0. split; [reflexivity|].
    rewrite (mouse_release_clicks (step s _) pano rc' x1 y1 tgt');
      [|unfold step; rewrite Hp; exact Hpano | exact Hoff].
    unfold step. rewrite Ho, Hx, Hy. reflexivity.
  - intros Hpano Hoff Nx E. subst y0.
    apply Z.eqb_neq in Nx. rewrite Nx in *. cbn [orb Z.eqb] in *.
    split; [exact Hr|].
    rewrite (mouse_release_clicks (step s _) pano rc' x1 y1 tgt');
      [|unfold step; rewrite Hp; exact Hpano | exact Hoff].
    unfold step. rewrite Ho, Hx, Hy. reflexivity.
Qed.

(** A press and a release at [(0, 50)], both on the render surface, send
    no click; after a press and a release at [(100, 100)], a press at
    [(0, 300)] and a release at [(95, 100)] send one. *)
Lemma press_at_zero_is_not_recorded_witness :
  ~ clicks Scene.pano (mouse_release 0 50 Scene.canvas) (Scene.over [])
      (step Scene.entered
         (MouseDown (mouse_press 0 50 Scene.canvas) (Scene.over [])))
  /\ clicks Scene.pano (mouse_release 95 100 Scene.canvas) (Scene.over [])
       (step
          (run [MouseDown (mouse_press 100 100 Scene.canvas) (Scene.over []);
                MouseUp (mouse_release 100 100 Scene.canvas) (Scene.over [])]
             Scene.entered)
          (MouseDown (mouse_press 0 300 Scene.canvas) (Scene.over []))).
Proof.
  split.
  - destruct (press_at_zero_is_not_recorded Scene.entered Scene.pano
                0 50 0 50 Scene.canvas Scene.canvas (Scene.over [])
                (Scene.over []) None None) as (_ & H & _).
    destruct (H eq_refl eq_refl eq_refl) as [_ Hc].
    intros Hin. apply Hc in Hin. destruct Hin as [_ Hy].
    vm_compute in Hy. apply Hy. reflexivity.
  - destruct (press_at_zero_is_not_recorded
                (run [MouseDown (mouse_press 100 100 Scene.canvas)
                        (Scene.over []);
                      MouseUp (mouse_release 100 100 Scene.canvas)
                        (Scene.over [])] Scene.entered)
                Scene.pano 0 300 95 100 Scene.canvas Scene.canvas
                (Scene.over []) (Scene.over []) None None) as (_ & H & _).
    destruct (H eq_refl eq_refl eq_refl) as [_ Hc].
    apply Hc. split; vm_compute; discriminate.
Defined.
